(** * Heat-pump sensor service: the WebSocket subscription handler

    A shallow embedding of [sensor-service/heat-pump/src/sensor-handler.js]
    (class [SensorHandler]) together with the parts of the JavaScript
    runtime it relies on: JSON values with [JSON.stringify] and
    [JSON.parse], the timers of the event loop, and the module-level
    variables [sensors] (exported by [server.js]) and [old_sensors_list].

    Modelling decisions, all local to this file:
    - JSON numbers are integers ([Z]); number literals with a fraction or
      an exponent are outside the modelled fragment and [JSON_parse]
      rejects them.  Strings are sequences of 8-bit code units.
    - An object is the list of its members in property order; the
      reordering JavaScript applies to integer-like keys is not modelled.
    - [Math.random()], [anIntegerWithPrecision] (from [random.js], which is not
      part of the sources at hand), [DateTime.now().toISO()] and the texts
      of the engine's own exceptions are fields of a [runtime] record.
    - The numbers the module computes with are doubles, kept as the
      rationals they denote; every operation rounds its result ([fl]).
    - Arrays and their elements have identities, so that an object shared
      by two arrays, and an array still held by a message after [sensors]
      was bound to another one, are the same object.
    - The back-channel of [server.js] is modelled by what it does to
      [sensors].  A record it builds is kept as its JSON value: the request
      is taken to carry every field the record reads, since a property whose
      value is [undefined] has no JSON form.
    - [emit('error', ...)] returns: a listener for ['error'] is taken to be
      registered by the module that creates the handlers. *)

From Stdlib Require Import ZArith QArith Qround List Ascii String Lia Lqa Bool.
From Stdlib Require Import Decimal DecimalString DecimalN.
From stdpp Require Import gmap strings.

Local Open Scope list_scope.

(* ================================================================== *)
(** * JSON values *)
(* ================================================================== *)

Module Json.

Unset Elimination Schemes.
Inductive json : Type :=
| JNull
| JBool (b : bool)
| JNum (n : Z)
| JStr (s : string)
| JArr (items : list json)
| JObj (members : list (string * json)).
Set Elimination Schemes.

(** The induction principle that reaches the values nested in arrays and
    objects. *)
Section JsonInd.
Variable P : json -> Prop.
Hypothesis Hnull : P JNull.
Hypothesis Hbool : forall b, P (JBool b).
Hypothesis Hnum : forall n, P (JNum n).
Hypothesis Hstr : forall s, P (JStr s).
Hypothesis Harr : forall items, Forall P items -> P (JArr items).
Hypothesis Hobj : forall members, Forall (fun kv => P (snd kv)) members -> P (JObj members).

Fixpoint json_ind (v : json) : P v :=
  match v with
  | JNull => Hnull
  | JBool b => Hbool b
  | JNum n => Hnum n
  | JStr s => Hstr s
  | JArr items =>
      Harr items
        ((fix go (l : list json) : Forall P l :=
            match l with
            | [] => @List.Forall_nil _ P
            | x :: l' => @List.Forall_cons _ P x l' (json_ind x) (go l')
            end) items)
  | JObj members =>
      Hobj members
        ((fix go (l : list (string * json)) : Forall (fun kv => P (snd kv)) l :=
            match l with
            | [] => @List.Forall_nil _ _
            | kv :: l' => @List.Forall_cons _ _ kv l' (json_ind (snd kv)) (go l')
            end) members)
  end.
End JsonInd.

(** ** Property access and assignment on objects *)

(** [o[k]] on the member list of an object. *)
Fixpoint obj_get (k : string) (o : list (string * json)) : option json :=
  match o with
  | [] => None
  | (k', v) :: o' => if String.eqb k' k then Some v else obj_get k o'
  end.

(** [o[k] = v]: an existing property keeps its position, a new one is
    added last. *)
Fixpoint obj_set (k : string) (v : json) (o : list (string * json)) : list (string * json) :=
  match o with
  | [] => [(k, v)]
  | (k', v') :: o' =>
      if String.eqb k' k then (k', v) :: o' else (k', v') :: obj_set k v o'
  end.

(** Objects built by [JSON.parse] or by an object literal have pairwise
    distinct keys. *)
Fixpoint wf (v : json) : Prop :=
  match v with
  | JArr items => (fix all (l : list json) : Prop :=
                     match l with [] => True | x :: l' => wf x /\ all l' end) items
  | JObj members =>
      NoDup (map fst members) /\
      (fix all (l : list (string * json)) : Prop :=
         match l with [] => True | kv :: l' => wf (snd kv) /\ all l' end) members
  | _ => True
  end.

(** ** Characters *)

Definition dquote : ascii := Ascii false true false false false true false false.
Definition backslash : ascii := "\"%char.

Definition is_ws (c : ascii) : bool :=
  match c with
  | " "%char | "009"%char | "010"%char | "013"%char => true
  | _ => false
  end.

Definition is_digit (c : ascii) : bool :=
  match c with
  | "0" | "1" | "2" | "3" | "4" | "5" | "6" | "7" | "8" | "9" => true
  | _ => false
  end%char.

Definition hex_digit (n : N) : ascii :=
  if (n <? 10)%N then ascii_of_N (48 + n) else ascii_of_N (87 + n).

Definition hex_val (c : ascii) : option N :=
  let n := N_of_ascii c in
  if ((48 <=? n) && (n <=? 57))%N then Some (n - 48)%N
  else if ((97 <=? n) && (n <=? 102))%N then Some (n - 87)%N
  else if ((65 <=? n) && (n <=? 70))%N then Some (n - 55)%N
  else None.

(** ** JSON.stringify *)

(** QuoteJSONString, one code unit at a time. *)
Definition quote_char (c : ascii) : list ascii :=
  match c with
  | "008"%char => [backslash; "b"%char]
  | "009"%char => [backslash; "t"%char]
  | "010"%char => [backslash; "n"%char]
  | "012"%char => [backslash; "f"%char]
  | "013"%char => [backslash; "r"%char]
  | Ascii false true false false false true false false => [backslash; dquote]
  | "\"%char => [backslash; backslash]
  | _ =>
      let n := N_of_ascii c in
      if (n <? 32)%N
      then [backslash; "u"%char; "0"%char; "0"%char; hex_digit (n / 16); hex_digit (n mod 16)]
      else [c]
  end.

Definition QuoteJSONString (s : string) : list ascii :=
  dquote :: flat_map quote_char (list_ascii_of_string s) ++ [dquote].

Definition print_N (n : N) : list ascii :=
  list_ascii_of_string (NilEmpty.string_of_uint (N.to_uint n)).

Definition print_Z (z : Z) : list ascii :=
  match z with
  | Zneg p => "-"%char :: print_N (Npos p)
  | _ => print_N (Z.to_N z)
  end.

Definition lit (s : string) : list ascii := list_ascii_of_string s.

(** SerializeJSONProperty without indentation, as [JSON.stringify(v)]
    prints a value. *)
Fixpoint print (v : json) : list ascii :=
  match v with
  | JNull => lit "null"
  | JBool true => lit "true"
  | JBool false => lit "false"
  | JNum n => print_Z n
  | JStr s => QuoteJSONString s
  | JArr [] => lit "[]"
  | JArr (x :: items) =>
      "["%char :: print x ++ flat_map (fun y => ","%char :: print y) items ++ ["]"%char]
  | JObj [] => lit "{}"
  | JObj ((k, x) :: members) =>
      "{"%char :: QuoteJSONString k ++ ":"%char :: print x
        ++ flat_map (fun kv => ","%char :: QuoteJSONString (fst kv) ++ ":"%char :: print (snd kv)) members
        ++ ["}"%char]
  end.

Definition JSON_stringify (v : json) : string := string_of_list_ascii (print v).

(** ** JSON.parse *)

Fixpoint skip_ws (s : list ascii) : list ascii :=
  match s with
  | c :: r => if is_ws c then skip_ws r else s
  | [] => []
  end.

(** The characters of a string literal after its opening quote, up to and
    including the closing quote.  An escape [\uXXXX] above 255 has no
    8-bit code unit and is rejected. *)
Fixpoint parse_chars (s : list ascii) : option (list ascii * list ascii) :=
  match s with
  | [] => None
  | c :: r =>
      if Ascii.eqb c dquote then Some ([], r)
      else if Ascii.eqb c backslash then
        match r with
        | [] => None
        | e :: r1 =>
            let keep (c' : ascii) (rest : list ascii) :=
              match parse_chars rest with
              | Some (cs, t) => Some (c' :: cs, t)
              | None => None
              end in
            match e with
            | "b"%char => keep "008"%char r1
            | "t"%char => keep "009"%char r1
            | "n"%char => keep "010"%char r1
            | "f"%char => keep "012"%char r1
            | "r"%char => keep "013"%char r1
            | "/"%char => keep "/"%char r1
            | "\"%char => keep backslash r1
            | Ascii false true false false false true false false => keep dquote r1
            | "u"%char =>
                match r1 with
                | h1 :: h2 :: h3 :: h4 :: r2 =>
                    match hex_val h1, hex_val h2, hex_val h3, hex_val h4 with
                    | Some 0%N, Some 0%N, Some a, Some b =>
                        match parse_chars r2 with
                        | Some (cs, t) => Some (ascii_of_N (16 * a + b) :: cs, t)
                        | None => None
                        end
                    | _, _, _, _ => None
                    end
                | _ => None
                end
            | _ => None
            end
        end
      else if (N_of_ascii c <? 32)%N then None
      else
        match parse_chars r with
        | Some (cs, t) => Some (c :: cs, t)
        | None => None
        end
  end.

Definition parse_string (s : list ascii) : option (string * list ascii) :=
  match parse_chars s with
  | Some (cs, t) => Some (string_of_list_ascii cs, t)
  | None => None
  end.

Fixpoint span_digits (s : list ascii) : list ascii * list ascii :=
  match s with
  | c :: r =>
      if is_digit c then let (ds, t) := span_digits r in (c :: ds, t) else ([], s)
  | [] => ([], [])
  end.

(** [0] or a non-zero digit followed by digits. *)
Definition parse_N (s : list ascii) : option (N * list ascii) :=
  let (ds, t) := span_digits s in
  match ds with
  | [] => None
  | "0"%char :: _ :: _ => None
  | _ =>
      match NilEmpty.uint_of_string (string_of_list_ascii ds) with
      | Some d => Some (N.of_uint d, t)
      | None => None
      end
  end.

Definition parse_number (s : list ascii) : option (json * list ascii) :=
  match s with
  | c :: r =>
      if Ascii.eqb c "-"%char then
        match parse_N r with
        | Some (n, t) => Some (JNum (- Z.of_N n), t)
        | None => None
        end
      else
        match parse_N s with
        | Some (n, t) => Some (JNum (Z.of_N n), t)
        | None => None
        end
  | [] => None
  end.

Fixpoint strip_prefix (w s : list ascii) : option (list ascii) :=
  match w with
  | [] => Some s
  | a :: w' =>
      match s with
      | b :: s' => if Ascii.eqb a b then strip_prefix w' s' else None
      | [] => None
      end
  end.

Definition expect (word : string) (v : json) (s : list ascii) : option (json * list ascii) :=
  match strip_prefix (lit word) s with
  | Some t => Some (v, t)
  | None => None
  end.

(** Recursive descent; [fuel] bounds the number of values and members
    still to be read, and a text never needs more than its length. *)
Fixpoint parse_value (fuel : nat) (s : list ascii) {struct fuel} : option (json * list ascii) :=
  match fuel with
  | O => None
  | S fuel =>
      match skip_ws s with
      | [] => None
      | c :: r =>
          if is_digit c || Ascii.eqb c "-"%char then parse_number (c :: r)
          else if Ascii.eqb c dquote then
            match parse_string r with
            | Some (str, t) => Some (JStr str, t)
            | None => None
            end
          else
            match c with
            | "n"%char => expect "null" JNull (c :: r)
            | "t"%char => expect "true" (JBool true) (c :: r)
            | "f"%char => expect "false" (JBool false) (c :: r)
            | "["%char =>
                match skip_ws r with
                | c' :: t =>
                    if Ascii.eqb c' "]"%char then Some (JArr [], t)
                    else parse_elements fuel [] r
                | [] => None
                end
            | "{"%char =>
                match skip_ws r with
                | c' :: t =>
                    if Ascii.eqb c' "}"%char then Some (JObj [], t)
                    else parse_members fuel [] r
                | [] => None
                end
            | _ => None
            end
      end
  end
with parse_elements (fuel : nat) (acc : list json) (s : list ascii) {struct fuel}
  : option (json * list ascii) :=
  match fuel with
  | O => None
  | S fuel =>
      match parse_value fuel s with
      | Some (v, r) =>
          match skip_ws r with
          | ","%char :: t => parse_elements fuel (acc ++ [v]) t
          | "]"%char :: t => Some (JArr (acc ++ [v]), t)
          | _ => None
          end
      | None => None
      end
  end
with parse_members (fuel : nat) (acc : list (string * json)) (s : list ascii) {struct fuel}
  : option (json * list ascii) :=
  match fuel with
  | O => None
  | S fuel =>
      match skip_ws s with
      | c :: r =>
          if Ascii.eqb c dquote then
            match parse_string r with
            | Some (k, r1) =>
                match skip_ws r1 with
                | ":"%char :: r2 =>
                    match parse_value fuel r2 with
                    | Some (v, r3) =>
                        match skip_ws r3 with
                        | ","%char :: t => parse_members fuel (obj_set k v acc) t
                        | "}"%char :: t => Some (JObj (obj_set k v acc), t)
                        | _ => None
                        end
                    | None => None
                    end
                | _ => None
                end
            | None => None
            end
          else None
      | [] => None
      end
  end.

(** [JSON.parse(text)]; [None] stands for the SyntaxError it throws. *)
Definition JSON_parse (text : string) : option json :=
  let s := list_ascii_of_string text in
  match parse_value (length s) s with
  | Some (v, r) => match skip_ws r with [] => Some v | _ => None end
  | None => None
  end.

End Json.
Import Json.

(* ================================================================== *)
(** * The runtime around the handler *)
(* ================================================================== *)

(** The places where the engine itself throws a TypeError. *)
Inductive type_error :=
| ReadOfNull (prop : string)        (* [null.prop] *)
| ReadOfUndefined (prop : string)   (* [undefined.prop] *)
| NotAFunction (what : string)      (* calling something that is no function *)
| WriteToUndefined (prop : string)  (* [undefined.prop = v] *)
| WriteToNull (prop : string)       (* [null.prop = v] *)
| WriteToPrimitive (prop : string). (* strict mode: [5.prop = v] *)

(** What the code takes from outside its own text: the random source,
    [anIntegerWithPrecision] of [random.js] (the n-th call with a base and
    a precision), the clock's ISO text, and the engine's error texts. *)
Record runtime := {
  Math_random : nat -> Q;
  anIntegerWithPrecision : Z -> Q -> nat -> Z;
  toISO : Z -> string;
  SyntaxError_message : string -> string;
  TypeError_message : type_error -> string
}.

(** [Math.random()] returns a number in [[0, 1)]. *)
Definition random_in_range (rt : runtime) : Prop :=
  forall i, (0 <= Math_random rt i)%Q /\ (Math_random rt i < 1)%Q.

Inductive exn :=
| ValidationError (msg : string)
| SyntaxError (msg : string)
| TypeError (msg : string).

(** [e.message] *)
Definition message_of (e : exn) : string :=
  match e with
  | ValidationError m | SyntaxError m | TypeError m => m
  end.

(** [ERROR], the state of a failed heat pump. *)
Definition ERROR : Z := -1.
Definition ON : Z := 1.
Definition OFF : Z := 0.

Record config := {
  failures : bool;
  delays : bool;
  frequency : Z;
  timeToLive : Z;
  errorProb : Q
}.

(** The objects handed to [_send].  The [list] of a [sensors_list] message
    is the Array object that [sensors] named when the message was made,
    not a copy: a message that waits for a retry shows what that array
    holds when it is serialised at last. *)
Inductive message :=
| ErrorMsg (error : string)            (* [{error: e.message}] *)
| AckMsg                               (* [{ack: true}] *)
| SensorsListMsg (dateTime : string) (list : nat).
                                       (* [{type: 'sensors_list', dateTime, list: sensors}] *)

(** The WebSocket client, as far as the handler uses it. *)
Record websocket := {
  ws_sent : list string;   (* the arguments of [ws.send], oldest first *)
  ws_closed : bool         (* [ws.close()] was called *)
}.

(** The private fields of a [SensorHandler].  A timer handle is [None]
    while the field is [undefined] or [0]. *)
Record handler := {
  h_ws : websocket;
  h_config : config;
  h_name : string;
  h_timeout : option nat;
  h_buffer : list message;
  h_death : option nat;
  h_emitted : list (string * string)   (* [emit(event, text, ...)] calls *)
}.

(** The closures given to [setTimeout]. *)
Inductive callback :=
| PollTick (h : nat)                 (* [callback] of [_onSubscribe] *)
| Resend (h : nat) (msg : message)   (* [callback] of [_send] *)
| Corrupt (h : nat)                  (* first closure of [_scheduleDeath] *)
| Die (h : nat).                     (* second closure of [_scheduleDeath] *)

Record timer := {
  tid : nat;        (* identity of the Timeout object *)
  due : Z;          (* time at which it fires, in ms *)
  delay : Z;        (* the second argument of [setTimeout] *)
  cb : callback
}.

Inductive status :=
| Running
| Exited                 (* [process.exit()] *)
| Crashed (e : exn).     (* an exception nobody caught *)

(** The state of the process: the two module-level variables, the
    handler objects, the timers of the event loop and the clock.

    [sensors] is kept as the list of the values the array holds.  Objects
    are shared, not copied, when [server.js] makes a new array of them and
    binds [sensors] to it, and a [sensors_list] message still on its way
    holds the array of its time; so the elements and the arrays have
    identities.  Identities recorded beyond the length of [sensors] are
    stale: [splice] leaves them behind and [push] overwrites them. *)
Record world := {
  sensors : list json;             (* [server.js]: [export var sensors] *)
  sensor_ids : list nat;           (* the identities of its elements, by index *)
  sensors_id : nat;                (* the identity of the Array object [sensors] names *)
  detached : gmap nat (list (nat * json));
                                   (* the arrays [sensors] named earlier *)
  next_ref : nat;                  (* the next identity to hand out *)
  old_sensors_list : json;         (* [sensor-handler.js]: [var old_sensors_list] *)
  handlers : gmap nat handler;
  timers : list timer;             (* pending timers, in the order they were armed *)
  next_tid : nat;
  clock : Z;
  draws : nat;                     (* calls of [Math.random()] so far *)
  jitters : nat;                   (* calls of [anIntegerWithPrecision] so far *)
  process : status
}.

Definition set_sensors (l : list json) (w : world) : world :=
  {| sensors := l; sensor_ids := sensor_ids w; sensors_id := sensors_id w;
     detached := detached w; next_ref := next_ref w; old_sensors_list := old_sensors_list w;
     handlers := handlers w; timers := timers w; next_tid := next_tid w; clock := clock w;
     draws := draws w; jitters := jitters w; process := process w |}.

Definition set_sensor_ids (l : list nat) (w : world) : world :=
  {| sensors := sensors w; sensor_ids := l; sensors_id := sensors_id w;
     detached := detached w; next_ref := next_ref w; old_sensors_list := old_sensors_list w;
     handlers := handlers w; timers := timers w; next_tid := next_tid w; clock := clock w;
     draws := draws w; jitters := jitters w; process := process w |}.

Definition set_sensors_id (a : nat) (w : world) : world :=
  {| sensors := sensors w; sensor_ids := sensor_ids w; sensors_id := a;
     detached := detached w; next_ref := next_ref w; old_sensors_list := old_sensors_list w;
     handlers := handlers w; timers := timers w; next_tid := next_tid w; clock := clock w;
     draws := draws w; jitters := jitters w; process := process w |}.

Definition set_detached (m : gmap nat (list (nat * json))) (w : world) : world :=
  {| sensors := sensors w; sensor_ids := sensor_ids w; sensors_id := sensors_id w;
     detached := m; next_ref := next_ref w; old_sensors_list := old_sensors_list w;
     handlers := handlers w; timers := timers w; next_tid := next_tid w; clock := clock w;
     draws := draws w; jitters := jitters w; process := process w |}.

Definition set_next_ref (n : nat) (w : world) : world :=
  {| sensors := sensors w; sensor_ids := sensor_ids w; sensors_id := sensors_id w;
     detached := detached w; next_ref := n; old_sensors_list := old_sensors_list w;
     handlers := handlers w; timers := timers w; next_tid := next_tid w; clock := clock w;
     draws := draws w; jitters := jitters w; process := process w |}.

Definition set_old_sensors_list (v : json) (w : world) : world :=
  {| sensors := sensors w; sensor_ids := sensor_ids w; sensors_id := sensors_id w;
     detached := detached w; next_ref := next_ref w; old_sensors_list := v;
     handlers := handlers w; timers := timers w; next_tid := next_tid w; clock := clock w;
     draws := draws w; jitters := jitters w; process := process w |}.

Definition set_handlers (m : gmap nat handler) (w : world) : world :=
  {| sensors := sensors w; sensor_ids := sensor_ids w; sensors_id := sensors_id w;
     detached := detached w; next_ref := next_ref w; old_sensors_list := old_sensors_list w;
     handlers := m; timers := timers w; next_tid := next_tid w; clock := clock w;
     draws := draws w; jitters := jitters w; process := process w |}.

Definition set_timers (ts : list timer) (w : world) : world :=
  {| sensors := sensors w; sensor_ids := sensor_ids w; sensors_id := sensors_id w;
     detached := detached w; next_ref := next_ref w; old_sensors_list := old_sensors_list w;
     handlers := handlers w; timers := ts; next_tid := next_tid w; clock := clock w;
     draws := draws w; jitters := jitters w; process := process w |}.

Definition set_next_tid (n : nat) (w : world) : world :=
  {| sensors := sensors w; sensor_ids := sensor_ids w; sensors_id := sensors_id w;
     detached := detached w; next_ref := next_ref w; old_sensors_list := old_sensors_list w;
     handlers := handlers w; timers := timers w; next_tid := n; clock := clock w;
     draws := draws w; jitters := jitters w; process := process w |}.

Definition set_clock (t : Z) (w : world) : world :=
  {| sensors := sensors w; sensor_ids := sensor_ids w; sensors_id := sensors_id w;
     detached := detached w; next_ref := next_ref w; old_sensors_list := old_sensors_list w;
     handlers := handlers w; timers := timers w; next_tid := next_tid w; clock := t;
     draws := draws w; jitters := jitters w; process := process w |}.

Definition set_draws (n : nat) (w : world) : world :=
  {| sensors := sensors w; sensor_ids := sensor_ids w; sensors_id := sensors_id w;
     detached := detached w; next_ref := next_ref w; old_sensors_list := old_sensors_list w;
     handlers := handlers w; timers := timers w; next_tid := next_tid w; clock := clock w;
     draws := n; jitters := jitters w; process := process w |}.

Definition set_jitters (n : nat) (w : world) : world :=
  {| sensors := sensors w; sensor_ids := sensor_ids w; sensors_id := sensors_id w;
     detached := detached w; next_ref := next_ref w; old_sensors_list := old_sensors_list w;
     handlers := handlers w; timers := timers w; next_tid := next_tid w; clock := clock w;
     draws := draws w; jitters := n; process := process w |}.

Definition set_process (p : status) (w : world) : world :=
  {| sensors := sensors w; sensor_ids := sensor_ids w; sensors_id := sensors_id w;
     detached := detached w; next_ref := next_ref w; old_sensors_list := old_sensors_list w;
     handlers := handlers w; timers := timers w; next_tid := next_tid w; clock := clock w;
     draws := draws w; jitters := jitters w; process := p |}.

Definition set_ws (x : websocket) (hd : handler) : handler :=
  {| h_ws := x; h_config := h_config hd; h_name := h_name hd; h_timeout := h_timeout hd;
     h_buffer := h_buffer hd; h_death := h_death hd; h_emitted := h_emitted hd |}.

Definition set_timeout (x : option nat) (hd : handler) : handler :=
  {| h_ws := h_ws hd; h_config := h_config hd; h_name := h_name hd; h_timeout := x;
     h_buffer := h_buffer hd; h_death := h_death hd; h_emitted := h_emitted hd |}.

Definition set_buffer (x : list message) (hd : handler) : handler :=
  {| h_ws := h_ws hd; h_config := h_config hd; h_name := h_name hd; h_timeout := h_timeout hd;
     h_buffer := x; h_death := h_death hd; h_emitted := h_emitted hd |}.

Definition set_death (x : option nat) (hd : handler) : handler :=
  {| h_ws := h_ws hd; h_config := h_config hd; h_name := h_name hd; h_timeout := h_timeout hd;
     h_buffer := h_buffer hd; h_death := x; h_emitted := h_emitted hd |}.

Definition set_emitted (x : list (string * string)) (hd : handler) : handler :=
  {| h_ws := h_ws hd; h_config := h_config hd; h_name := h_name hd; h_timeout := h_timeout hd;
     h_buffer := h_buffer hd; h_death := h_death hd; h_emitted := x |}.

(** The handler after [ws.send(data)] and after [ws.close()]. *)
Definition deliver (data : string) (hd : handler) : handler :=
  set_ws {| ws_sent := ws_sent (h_ws hd) ++ [data]; ws_closed := ws_closed (h_ws hd) |} hd.

Definition closed (hd : handler) : handler :=
  set_ws {| ws_sent := ws_sent (h_ws hd); ws_closed := true |} hd.

(** [new SensorHandler(ws, config, name)] *)
Definition constructor (config : config) (name : string) : handler :=
  {| h_ws := {| ws_sent := []; ws_closed := false |};
     h_config := config; h_name := name; h_timeout := None;
     h_buffer := []; h_death := None; h_emitted := [] |}.

#[global] Instance handler_inhabited : Inhabited handler :=
  populate (constructor {| failures := false; delays := false; frequency := 0;
                           timeToLive := 0; errorProb := 0 |} EmptyString).

(** ** Computations that read and write the world and may throw *)

Definition M (A : Type) : Type := world -> (A + exn) * world.

Definition ret {A} (a : A) : M A := fun w => (inl a, w).
Definition throw {A} (e : exn) : M A := fun w => (inr e, w).
Definition bind {A B} (m : M A) (k : A -> M B) : M B :=
  fun w => match m w with
           | (inl a, w') => k a w'
           | (inr e, w') => (inr e, w')
           end.
(** [try { m } catch (e) { ... }], with the outcome handed on as a value. *)
Definition attempt {A} (m : M A) : M (A + exn) :=
  fun w => let (r, w') := m w in (inl r, w').

Definition get_world : M world := fun w => (inl w, w).
Definition modify (f : world -> world) : M unit := fun w => (inl tt, f w).

Declare Scope m_scope.
Delimit Scope m_scope with M.
Notation "x <- m ;; k" := (bind m (fun x => k))
  (at level 20, m at level 99, k at level 200, only parsing) : m_scope.
Notation "m ;; k" := (bind m (fun _ => k))
  (at level 100, k at level 200, only parsing, right associativity) : m_scope.
Local Open Scope m_scope.

Fixpoint for_each {A} (f : A -> M unit) (l : list A) : M unit :=
  match l with
  | [] => ret tt
  | x :: l' => f x ;; for_each f l'
  end.

(** [this] and an assignment to its fields. *)
Definition alter_handler (h : nat) (f : handler -> handler) (w : world) : world :=
  set_handlers (alter f h (handlers w)) w.

Definition this (h : nat) : M handler := fun w => (inl (handlers w !!! h), w).
Definition update_this (h : nat) (f : handler -> handler) : M unit :=
  modify (alter_handler h f).

(** ** Timers *)

Definition TIMEOUT_MAX : Z := 2147483647.

(** Node runs a timer whose delay is below 1 or above [TIMEOUT_MAX] after
    1 ms. *)
Definition effective_delay (ms : Z) : Z :=
  if (1 <=? ms)%Z && (ms <=? TIMEOUT_MAX)%Z then ms else 1%Z.

Definition new_timer (callback : callback) (ms : Z) (w : world) : timer :=
  {| tid := next_tid w; due := clock w + effective_delay ms; delay := ms; cb := callback |}.

Definition arm (callback : callback) (ms : Z) (w : world) : world :=
  set_next_tid (S (next_tid w)) (set_timers (timers w ++ [new_timer callback ms w]) w).

Definition disarm (id : nat) (w : world) : world :=
  set_timers (List.filter (fun t => negb (Nat.eqb (tid t) id)) (timers w)) w.

(** [setTimeout(callback, ms)] returns the new Timeout object. *)
Definition setTimeout (callback : callback) (ms : Z) : M nat :=
  fun w => (inl (next_tid w), arm callback ms w).

(** [clearTimeout(id)] *)
Definition clearTimeout (id : nat) : M unit := modify (disarm id).

(** ** Numbers *)

(** A Number is kept as the rational it denotes.  Every arithmetic
    operation of the engine rounds its exact result to the nearest double,
    of two equally near to the one with the even significand: [fl] does
    that for a rational.  A double has 53 significant bits and a least
    exponent of -1074.  Results beyond the largest double do not arise from
    the finite numbers this module computes with. *)
Definition pow2 (e : Z) : Q :=
  if (0 <=? e)%Z then inject_Z (2 ^ e) else 1 # Z.to_pos (2 ^ (- e)).

(** The integer [k] with [2^k <= x < 2^(k+1)], for a positive [x]. *)
Definition ilog2 (x : Q) : Z :=
  let k := (Z.log2 (Qnum x) - Z.log2 (Zpos (Qden x)))%Z in
  if Qle_bool (pow2 k) x then k else (k - 1)%Z.

(** The nearest integer, the even one of two equally near. *)
Definition rne (x : Q) : Z :=
  let f := Qfloor x in
  match Qcompare (x - inject_Z f) (1 # 2) with
  | Lt => f
  | Gt => (f + 1)%Z
  | Eq => if Z.even f then f else (f + 1)%Z
  end.

Definition fl_pos (x : Q) : Q :=
  let e := Z.max (ilog2 x - 52) (-1074) in
  inject_Z (rne (x / pow2 e)) * pow2 e.

Definition fl (x : Q) : Q :=
  match Qcompare x 0 with
  | Eq => 0
  | Gt => fl_pos x
  | Lt => - fl_pos (- x)
  end.

(** [a * b] for two integers. *)
Definition times (a b : Z) : Z := Qfloor (fl (inject_Z a * inject_Z b)).

(** [x.toFixed(0)] read back as a number: the nearest integer, the larger
    one (in absolute value) of two equally near. *)
Definition toFixed0 (x : Q) : Z :=
  if Qle_bool 0 x then Qfloor (x + (1 # 2)) else (- Qfloor (- x + (1 # 2)))%Z.

Definition Qlt_bool (a b : Q) : bool := negb (Qle_bool b a).

Definition random (rt : runtime) : M Q :=
  fun w => (inl (Math_random rt (draws w)), set_draws (S (draws w)) w).

(* ================================================================== *)
(** * sensor-handler.js *)
(* ================================================================== *)

Section SensorHandler.

Variable rt : runtime.

(** [v.k] for the names this module reads from a parsed message ([type],
    [target], [list]); no prototype defines them, so only an object that
    has the member answers, and reading them from [null] throws. *)
Definition prop (v : json) (k : string) : option json :=
  match v with
  | JObj o => obj_get k o
  | _ => None
  end.

Definition get_prop (v : json) (k : string) : M (option json) :=
  match v with
  | JNull => throw (TypeError (TypeError_message rt (ReadOfNull k)))
  | _ => ret (prop v k)
  end.

(** [x === s] for a string literal [s]. *)
Definition is_string (x : option json) (s : string) : bool :=
  match x with
  | Some (JStr s') => String.eqb s' s
  | _ => false
  end.

(** A parsed message whose [type] and [target] pass the checks. *)
Definition accepted (json : json) : bool :=
  (is_string (prop json "type") "subscribe" || is_string (prop json "type") "unsubscribe")
  && is_string (prop json "target") "heatpump".

(** [sensors.push(item)]: the array grows by an element that was in no
    array before. *)
Definition pushed (item : json) (w : world) : world :=
  set_next_ref (S (next_ref w))
    (set_sensor_ids (take (length (sensors w)) (sensor_ids w) ++ [next_ref w])
       (set_sensors (sensors w ++ [item]) w)).

Definition push_sensor (item : json) : M unit := modify (pushed item).

Definition _validateMessage (msg : string) : M json :=
  if String.eqb msg EmptyString then throw (ValidationError "Invalid inbound message") else
  match JSON_parse msg with
  | None => throw (SyntaxError (SyntaxError_message rt msg))
  | Some json =>
      type <- get_prop json "type" ;;
      if negb (is_string type "subscribe") && negb (is_string type "unsubscribe")
      then throw (ValidationError "Invalid message type") else
      target <- get_prop json "target" ;;
      if negb (is_string target "heatpump")
      then throw (ValidationError "Invalid subscription target") else
      list <- get_prop json "list" ;;
      match list with
      | Some JNull => ret tt
      | _ =>
          (* sensors.splice(0, sensors.length) *)
          modify (set_sensors []) ;;
          (* json.list.forEach(item => sensors.push(item)) *)
          match list with
          | Some (JArr items) => for_each push_sensor items
          | None => throw (TypeError (TypeError_message rt (ReadOfUndefined "forEach")))
          | Some _ => throw (TypeError (TypeError_message rt (NotAFunction "json.list.forEach")))
          end
      end ;;
      ret json
  end.

(** [_someMillis()]: [anIntegerWithPrecision(this.#config.frequency, 0.2)] *)
Definition _someMillis (h : nat) : M Z :=
  hd <- this h ;;
  fun w => (inl (anIntegerWithPrecision rt (frequency (h_config hd)) (1 # 5) (jitters w)),
            set_jitters (S (jitters w)) w).

(** What the Array object of identity [a] holds. *)
Definition array_at (w : world) (a : nat) : list json :=
  if Nat.eqb a (sensors_id w) then sensors w else map snd (detached w !!! a).

(** The JSON value of a message object at the time it is serialised. *)
Definition payload (msg : message) (w : world) : json :=
  match msg with
  | ErrorMsg e => JObj [("error", JStr e)]
  | AckMsg => JObj [("ack", JBool true)]
  | SensorsListMsg dateTime a =>
      JObj [("type", JStr "sensors_list"); ("dateTime", JStr dateTime);
            ("list", JArr (array_at w a))]
  end.

(** [this.#ws.send(data)] *)
Definition ws_send (h : nat) (data : string) : M unit := update_this h (deliver data).

(** [this.#ws.close()] *)
Definition ws_close (h : nat) : M unit := update_this h closed.

(** [this.emit(event, text, ...)] of the EventEmitter base class; the
    listeners are registered outside this module. *)
Definition emit (h : nat) (event text : string) : M unit :=
  update_this h (fun hd => set_emitted (h_emitted hd ++ [(event, text)]) hd).

Definition _send (h : nat) (msg : message) : M unit :=
  hd <- this h ;;
  bug <- (if failures (h_config hd)
          then r <- random rt ;; ret (Qlt_bool r (errorProb (h_config hd)))
          else ret false) ;;
  if bug then
    ms <- _someMillis h ;;
    _ <- setTimeout (Resend h msg) ms ;;
    ret tt
  else
    w <- get_world ;;
    ws_send h (JSON_stringify (payload msg w)).

Definition _sendList (h : nat) : M unit :=
  w <- get_world ;;
  let msg := SensorsListMsg (toISO rt (clock w)) (sensors_id w) in
  update_this h (fun hd => set_buffer (h_buffer hd ++ [msg]) hd) ;;
  hd <- this h ;;
  for_each (_send h) (h_buffer hd) ;;
  update_this h (set_buffer []).

Definition _onSubscribe (h : nat) : M unit :=
  hd <- this h ;;
  match h_timeout hd with
  | Some _ => ret tt
  | None =>
      id <- setTimeout (PollTick h) 0 ;;
      update_this h (set_timeout (Some id))
  end.

(** The closure [callback] of [_onSubscribe]. *)
Definition poll_callback (h : nat) : M unit :=
  w <- get_world ;;
  (if negb (String.eqb (JSON_stringify (old_sensors_list w)) (JSON_stringify (JArr (sensors w))))
   then
     match JSON_parse (JSON_stringify (JArr (sensors w))) with
     | Some copy => modify (set_old_sensors_list copy)
     | None => throw (SyntaxError (SyntaxError_message rt (JSON_stringify (JArr (sensors w)))))
     end ;;
     _sendList h
   else ret tt) ;;
  ms <- _someMillis h ;;
  id <- setTimeout (PollTick h) ms ;;
  update_this h (set_timeout (Some id)).

(** The configuration of a handler, the draw the next [Math.random()]
    returns and the delay the next [_someMillis()] of a handler returns. *)
Definition config_of (w : world) (h : nat) : config := h_config (handlers w !!! h).
Definition next_draw (w : world) : Q := Math_random rt (draws w).
Definition next_delay (w : world) (h : nat) : Z :=
  anIntegerWithPrecision rt (frequency (config_of w h)) (1 # 5) (jitters w).

(** The last statement of the poll closure:
    [this.#timeout = setTimeout(callback, this._someMillis())]. *)
Definition rearm (h : nat) (w : world) : world :=
  alter_handler h (set_timeout (Some (next_tid w)))
    (arm (PollTick h) (next_delay w h) (set_jitters (S (jitters w)) w)).

Definition _onUnsubscribe (h : nat) : M unit :=
  hd <- this h ;;
  match h_timeout hd with
  | None => ret tt
  | Some id =>
      clearTimeout id ;;
      update_this h (set_timeout None) ;;
      _send h AckMsg
  end.

Definition onMessage (h : nat) (msg : string) : M unit :=
  r <- attempt (_validateMessage msg) ;;
  match r with
  | inr e => _send h (ErrorMsg (message_of e))
  | inl json =>
      type <- get_prop json "type" ;;
      if is_string type "subscribe" then _onSubscribe h
      else if is_string type "unsubscribe" then _onUnsubscribe h
      else ret tt
  end.

Definition stop (h : nat) : M unit :=
  hd <- this h ;;
  match h_timeout hd with
  | Some id => clearTimeout id
  | None => ret tt
  end ;;
  match h_death hd with
  | Some id => clearTimeout id
  | None => ret tt
  end.

Definition _scheduleDeath (h : nat) : M unit :=
  hd <- this h ;;
  r <- random rt ;;
  let secs := toFixed0 (fl (fl (r * inject_Z (timeToLive (h_config hd))) + 5)) in
  _ <- setTimeout (Corrupt h) (times secs 5000) ;;
  id <- setTimeout (Die h) (times secs 15000) ;;
  update_this h (set_death (Some id)).

Definition start (h : nat) : M unit :=
  hd <- this h ;;
  if failures (h_config hd) && (0 <? timeToLive (h_config hd))%Z
  then _scheduleDeath h
  else ret tt.

(** [sensors[i]] for a number [i]. *)
Definition sensor_at (l : list json) (i : Z) : option json :=
  if (0 <=? i)%Z then l !! Z.to_nat i else None.

(** The object of identity [id] has become [v]: the arrays bound earlier
    that hold it show that too. *)
Definition mutated (id : option nat) (v : json) (l : list (nat * json)) : list (nat * json) :=
  map (fun x => if decide (Some (fst x) = id) then (fst x, v) else x) l.

(** [sensors[i].state = ERROR] in strict mode.  A named property put on
    an Array object is no part of its JSON form. *)
Definition assign_state (i : Z) : M unit :=
  w <- get_world ;;
  match sensor_at (sensors w) i with
  | None => throw (TypeError (TypeError_message rt (WriteToUndefined "state")))
  | Some JNull => throw (TypeError (TypeError_message rt (WriteToNull "state")))
  | Some (JObj o) =>
      let v := JObj (obj_set "state" (JNum ERROR) o) in
      modify (fun w => set_detached (mutated (sensor_ids w !! Z.to_nat i) v <$> detached w)
                         (set_sensors (<[Z.to_nat i := v]> (sensors w)) w))
  | Some (JArr _) => ret tt
  | Some _ => throw (TypeError (TypeError_message rt (WriteToPrimitive "state")))
  end.

(** The first closure of [_scheduleDeath]. *)
Definition corrupt_callback (h : nat) : M unit :=
  r <- random rt ;;
  w <- get_world ;;
  let sensorDead := toFixed0 (fl (r * (inject_Z (Z.of_nat (length (sensors w))) - 1))) in
  assign_state sensorDead ;;
  _scheduleDeath h.

(** The second closure of [_scheduleDeath]. *)
Definition die_callback (h : nat) : M unit :=
  ws_close h ;;
  stop h ;;
  emit h "error" "Simulated death" ;;
  modify (set_process Exited).

(** ** The event loop *)

Definition run_callback (c : callback) : M unit :=
  match c with
  | PollTick h => poll_callback h
  | Resend h msg => _send h msg
  | Corrupt h => corrupt_callback h
  | Die h => die_callback h
  end.

(** The pending timer that is due first; of two due together, the one
    armed first. *)
Fixpoint earliest (ts : list timer) : option timer :=
  match ts with
  | [] => None
  | t :: ts' =>
      match earliest ts' with
      | Some t' => if (due t' <? due t)%Z then Some t' else Some t
      | None => Some t
      end
  end.

(** An exception that leaves a callback of the event loop ends the
    process. *)
Definition top_level (m : M unit) (w : world) : world :=
  match m w with
  | (inl _, w') => w'
  | (inr e, w') => set_process (Crashed e) w'
  end.

Definition fire (w : world) : world :=
  match earliest (timers w) with
  | None => w
  | Some t =>
      top_level (clearTimeout (tid t) ;; modify (fun w => set_clock (Z.max (clock w) (due t)) w) ;;
                 run_callback (cb t)) w
  end.

(** The back-channel of [server.js] binds [sensors] to the array that
    [map] or [filter] makes of the old one: an element of the new array is
    an element of the old one, the same object ([inl] its index), or a new
    record ([inr] its value). *)
Fixpoint rebuilt (old : list (nat * json)) (l : list (nat + json)) (next : nat)
  : list (nat * json) * nat :=
  match l with
  | [] => ([], next)
  | inl k :: l' =>
      let r := rebuilt old l' next in
      (match old !! k with Some x => x :: fst r | None => fst r end, snd r)
  | inr v :: l' =>
      let r := rebuilt old l' (S next) in
      ((next, v) :: fst r, snd r)
  end.

Definition rebound (l : list (nat + json)) (w : world) : world :=
  let old := combine (sensor_ids w) (sensors w) in
  let r := rebuilt old l (S (next_ref w)) in
  set_next_ref (snd r)
    (set_detached (<[sensors_id w := old]> (detached w))
       (set_sensors_id (next_ref w)
          (set_sensor_ids (map fst (fst r)) (set_sensors (map snd (fst r)) w)))).

(** What happens to the process: the module that owns the connections
    creates a handler and calls its public methods, a timer fires, time
    passes, or the back-channel of [server.js] changes the registry: it
    binds [sensors] to a new array ([/change-state], and [/add-sensor] when
    it removes) or pushes a record ([/add-sensor] when it adds). *)
Inductive event :=
| New (h : nat) (c : config) (name : string)
| Start (h : nat)
| OnMessage (h : nat) (msg : string)
| Stop (h : nat)
| Fire
| Elapse (ms : Z)
| Backchannel (list : list (nat + json))
| AddSensor (v : json).

Definition step (w : world) (e : event) : world :=
  match process w with
  | Running =>
      match e with
      | New h c name =>
          match handlers w !! h with
          | None => set_handlers (<[h := constructor c name]> (handlers w)) w
          | Some _ => w
          end
      | Start h => if decide (is_Some (handlers w !! h)) then top_level (start h) w else w
      | OnMessage h msg =>
          if decide (is_Some (handlers w !! h)) then top_level (onMessage h msg) w else w
      | Stop h => if decide (is_Some (handlers w !! h)) then top_level (stop h) w else w
      | Fire => fire w
      | Elapse ms => set_clock (clock w + Z.max 0 ms) w
      | Backchannel l => rebound l w
      | AddSensor v => pushed v w
      end
  | _ => w
  end.

Definition run (w : world) (es : list event) : world := fold_left step es w.

End SensorHandler.

(** [server.js]: the registry the process starts with. *)
Definition heatpump1 : json :=
  JObj [("type", JStr "heatpump"); ("name", JStr "heatpump1");
        ("state", JNum OFF); ("temperature", JNum 25)].

Definition init : world :=
  {| sensors := [heatpump1]; sensor_ids := [1]; sensors_id := 0; detached := ∅;
     next_ref := 2; old_sensors_list := JArr []; handlers := ∅;
     timers := []; next_tid := 0; clock := 0; draws := 0; jitters := 0;
     process := Running |}.

(** The back-channel stores records built from parsed request bodies. *)
Definition allowed (e : event) : Prop :=
  match e with
  | Backchannel l =>
      Forall (fun x => match x with inr v => wf v | inl _ => True end) l /\
      NoDup (omap (fun x => match x with inl k => Some k | inr _ => None end) l)
  | AddSensor v => wf v
  | _ => True
  end.

Inductive reachable (rt : runtime) : world -> Prop :=
| reachable_init : reachable rt init
| reachable_step w e : reachable rt w -> allowed e -> reachable rt (step rt w e).

(* ================================================================== *)
(** * Invariants of the reachable states *)
(* ================================================================== *)

(** Timeout objects are distinct and were all handed out already. *)
Definition timers_ok (w : world) : Prop :=
  NoDup (map tid (timers w)) /\ Forall (fun t => tid t < next_tid w) (timers w).

(** A pending poll timer is the one its handler holds in [#timeout]. *)
Definition polls_ok (w : world) : Prop :=
  Forall (fun t => forall h, cb t = PollTick h ->
                     h_timeout <$> (handlers w !! h) = Some (Some (tid t))) (timers w).

(** The same while handler [h] has no poll timer pending at all. *)
Definition polls_ok_except (h : nat) (w : world) : Prop :=
  Forall (fun t => forall h', cb t = PollTick h' ->
                     h' <> h /\ h_timeout <$> (handlers w !! h') = Some (Some (tid t)))
         (timers w).

Definition has_handler (h : nat) (w : world) : Prop := is_Some (handlers w !! h).

(** Between two callbacks every [#buffer] is empty. *)
Definition buffers_ok (w : world) : Prop :=
  forall h hd, handlers w !! h = Some hd -> h_buffer hd = [].

Definition registry_ok (w : world) : Prop :=
  Forall wf (sensors w) /\ wf (old_sensors_list w).

Definition inv (w : world) : Prop :=
  timers_ok w /\ polls_ok w /\ buffers_ok w /\ registry_ok w.

Definition is_poll (c : callback) : bool :=
  match c with PollTick _ => true | _ => false end.

(** The properties of timers and handlers, which no change of the
    registry affects. *)
Inductive structural : (world -> Prop) -> Prop :=
| structural_timers : structural timers_ok
| structural_polls : structural polls_ok
| structural_polls_except h : structural (polls_ok_except h)
| structural_has_handler h : structural (has_handler h)
| structural_buffers : structural buffers_ok.

Inductive property : (world -> Prop) -> Prop :=
| property_structural P : structural P -> property P
| property_registry : property registry_ok.

(** ** Properties every step of a computation keeps *)

Definition keeps {A} (P : world -> Prop) (m : M A) : Prop :=
  forall w, P w -> P (snd (m w)).

(** A computation that never throws. *)
Definition returns {A} (m : M A) : Prop :=
  forall w, exists a, fst (m w) = inl a.

(** The handler a closure belongs to. *)
Definition owner (c : callback) : nat :=
  match c with
  | PollTick h | Resend h _ | Corrupt h | Die h => h
  end.

(** A Timeout object a handler holds in [#timeout] or [#death]. *)
Definition holds (hd : handler) (id : nat) : Prop :=
  h_timeout hd = Some id \/ h_death hd = Some id.


(** The poll timers of a handler that are pending. *)
Definition poll_timers (h : nat) (w : world) : list timer :=
  List.filter (fun t => match cb t with PollTick h' => Nat.eqb h' h | _ => false end) (timers w).



(** The events in which handler [h] is the one that runs. *)
Definition acts_for (h : nat) (w : world) (e : event) : Prop :=
  match e with
  | Start h' | OnMessage h' _ | Stop h' => h' = h
  | Fire => exists t, earliest (timers w) = Some t /\ owner (cb t) = h
  | _ => False
  end.

(** * Auxiliary definitions *)

(** The rest of the input does not go on with a digit. *)
Definition no_digit_head (r : list ascii) : Prop :=
  match r with c :: _ => is_digit c = false | [] => True end.

(** The size of a value, a bound for the fuel its text needs. *)
Fixpoint size (v : json) : nat :=
  match v with
  | JArr items => S (list_sum (map (fun x => S (size x)) items))
  | JObj members => S (list_sum (map (fun kv => S (size (snd kv))) members))
  | _ => 1
  end.

(** The characters a value can start with. *)
Definition value_start (c : ascii) : bool :=
  is_digit c || Ascii.eqb c "-"%char || Ascii.eqb c dquote ||
  Ascii.eqb c "n"%char || Ascii.eqb c "t"%char || Ascii.eqb c "f"%char ||
  Ascii.eqb c "["%char || Ascii.eqb c "{"%char.

(** The parser reads the text of a value back. *)
Definition roundtrips (v : json) : Prop :=
  forall fuel r, size v <= fuel -> no_digit_head r ->
    parse_value fuel (print v ++ r) = Some (v, r).

(** What the subscription methods need and keep. *)
Definition subscribable (h : nat) (w : world) : Prop := polls_ok w /\ has_handler h w.

(** Properties that neither the poll timer nor the registry can break. *)
Inductive plain : (world -> Prop) -> Prop :=
| plain_timers : plain timers_ok
| plain_has_handler h : plain (has_handler h)
| plain_buffers : plain buffers_ok.

(** The registry after [splice] and the [push] of every element of a list. *)
Definition replaced (items : list json) (w : world) : world :=
  fold_left (fun w x => pushed x w) items (set_sensors [] w).

(** A subscribe message that has no [list] property. *)
Definition subscribe_without_list : string :=
  JSON_stringify (JObj [("type", JStr "subscribe"); ("target", JStr "heatpump")]).

(** A configuration without fault simulation, and one with it. *)
Definition quiet : config :=
  {| failures := false; delays := false; frequency := 2000; timeToLive := 0; errorProb := 0 |}.

Definition faulty : config :=
  {| failures := true; delays := false; frequency := 2000; timeToLive := 10;
     errorProb := (1 # 10)%Q |}.

(** A runtime whose every draw is one half and whose jitter is zero. *)
Definition rt_half : runtime :=
  {| Math_random := fun _ => (1 # 2)%Q;
     anIntegerWithPrecision := fun base _ _ => base;
     toISO := fun _ => "2023-01-01T00:00:00.000Z";
     SyntaxError_message := fun _ => "Unexpected token";
     TypeError_message := fun _ => "TypeError" |}.

(** The texts of the error reply and of the acknowledgment. *)
Definition error_text (text : string) : string := JSON_stringify (JObj [("error", JStr text)]).

Definition ack_text : string := JSON_stringify (JObj [("ack", JBool true)]).

(** The initial record after its state was set to ERROR. *)
Definition heatpump1_failed : json :=
  JObj [("type", JStr "heatpump"); ("name", JStr "heatpump1");
        ("state", JNum ERROR); ("temperature", JNum 25)].

(** The seconds [_scheduleDeath] draws, and the index the corruption closure draws. *)
Definition drawn_secs (rt : runtime) (w : world) (h : nat) : Z :=
  toFixed0 (fl (fl (next_draw rt w * inject_Z (timeToLive (config_of w h))) + 5)).

Definition drawn_index (rt : runtime) (w : world) : Z :=
  toFixed0 (fl (next_draw rt w * (inject_Z (Z.of_nat (length (sensors w))) - 1))).

(** The arrays hold in [w'] what they hold in [w]. *)
Definition same_arrays (w w' : world) : Prop :=
  sensors w' = sensors w /\ sensors_id w' = sensors_id w /\ detached w' = detached w.

(** The only pending timer is a retry of [msg] for handler [h]. *)
Definition only_resend (h : nat) (msg : message) (w : world) : Prop :=
  exists t, timers w = [t] /\ cb t = Resend h msg.



(** Subscribe and unsubscribe messages whose [list] is null. *)
Definition subscribe_null : string :=
  JSON_stringify (JObj [("type", JStr "subscribe"); ("target", JStr "heatpump"); ("list", JNull)]).

Definition unsubscribe_null : string :=
  JSON_stringify (JObj [("type", JStr "unsubscribe"); ("target", JStr "heatpump"); ("list", JNull)]).

(** An unsubscribe message that has no [list] property. *)
Definition unsubscribe_without_list : string :=
  JSON_stringify (JObj [("type", JStr "unsubscribe"); ("target", JStr "heatpump")]).

(** Messages whose [list] is an array. *)
Definition subscribe_with (l : list json) : string :=
  JSON_stringify (JObj [("type", JStr "subscribe"); ("target", JStr "heatpump"); ("list", JArr l)]).

Definition unsubscribe_with (l : list json) : string :=
  JSON_stringify (JObj [("type", JStr "unsubscribe"); ("target", JStr "heatpump"); ("list", JArr l)]).

(** The text of a [sensors_list] message. *)
Definition sensors_list_text (dateTime : string) (l : list json) : string :=
  JSON_stringify (JObj [("type", JStr "sensors_list"); ("dateTime", JStr dateTime);
                        ("list", JArr l)]).

(** A runtime whose first draw is one sixteenth and whose other draws are
    one half. *)
Definition rt_sixteenth : runtime :=
  {| Math_random := fun i => match i with O => (1 # 16)%Q | _ => (1 # 2)%Q end;
     anIntegerWithPrecision := fun base _ _ => base;
     toISO := fun _ => "2023-01-01T00:00:00.000Z";
     SyntaxError_message := fun _ => "Unexpected token";
     TypeError_message := fun _ => "TypeError" |}.

(** A runtime whose second draw is one sixteenth and whose other draws
    are one half. *)
Definition rt_second : runtime :=
  {| Math_random := fun i => match i with 1 => (1 # 16)%Q | _ => (1 # 2)%Q end;
     anIntegerWithPrecision := fun base _ _ => base;
     toISO := fun _ => "2023-01-01T00:00:00.000Z";
     SyntaxError_message := fun _ => "Unexpected token";
     TypeError_message := fun _ => "TypeError" |}.

(** Fault simulation with retries that take longer than the first
    corruption. *)
Definition slow : config :=
  {| failures := true; delays := false; frequency := 100000; timeToLive := 10;
     errorProb := (1 # 10)%Q |}.

(** Fault simulation as [start()] tests it:
    [this.#config.failures && this.#config.timeToLive > 0]. *)
Definition fault_simulation (c : config) : Prop :=
  failures c = true /\ (0 < timeToLive c)%Z.

(** Handler [h] exists, with the configuration and the name it was
    constructed with. *)
Definition configured (h : nat) (c : config) (name : string) (w : world) : Prop :=
  exists hd, handlers w !! h = Some hd /\ h_config hd = c /\ h_name hd = name.

(** The two closures of [_scheduleDeath]. *)
Definition is_fault (c : callback) : bool :=
  match c with Corrupt _ | Die _ => true | _ => false end.

(** Some handler simulates faults. *)
Definition has_fault (w : world) : Prop :=
  exists h hd, handlers w !! h = Some hd /\ fault_simulation (h_config hd).

(** A pending closure of [_scheduleDeath] belongs to a handler that simulates
    faults. *)
Definition faults_ok (w : world) : Prop :=
  Forall (fun t => is_fault (cb t) = true ->
            exists hd, handlers w !! owner (cb t) = Some hd /\
                       fault_simulation (h_config hd)) (timers w).

(** The process is running, or else some handler simulates faults. *)
Definition sound (w : world) : Prop :=
  faults_ok w /\ (process w <> Running -> has_fault w).

(** What every method but the closures of [_scheduleDeath] keeps. *)
Inductive lasting : (world -> Prop) -> Prop :=
| lasting_configured h c name : lasting (configured h c name)
| lasting_process p : lasting (fun w => process w = p)
| lasting_faults : lasting faults_ok.


(** * The JSON printer and parser agree *)

Lemma is_digit_class c :
  is_digit c = true ->
  is_ws c = false /\ Ascii.eqb c dquote = false /\ Ascii.eqb c "-"%char = false.
Proof.
  destruct c as [[] [] [] [] [] [] [] []]; cbn; intros H; try discriminate H; auto.
Qed.

Lemma uint_digits d :
  Forall (fun c => is_digit c = true) (list_ascii_of_string (NilEmpty.string_of_uint d)).
Proof. induction d; cbn; constructor; auto. Qed.

Lemma span_digits_app ds r :
  Forall (fun c => is_digit c = true) ds -> no_digit_head r ->
  span_digits (ds ++ r) = (ds, r).
Proof.
  induction 1 as [|c ds Hc _ IH]; intros Hr; cbn.
  - destruct r as [|c r]; cbn in *; [reflexivity|]. now rewrite Hr.
  - rewrite Hc, IH by assumption. reflexivity.
Qed.

Lemma unorm_head d d' : unorm d = D0 d' -> d' = Nil.
Proof.
  induction d; cbn; intros H; try discriminate H; auto.
  now injection H as <-.
Qed.

Lemma to_uint_normal n : unorm (N.to_uint n) = N.to_uint n.
Proof.
  rewrite <- (Unsigned.to_of (N.to_uint n)), Unsigned.of_to. reflexivity.
Qed.

Lemma unorm_nonnil d : unorm d <> Nil.
Proof. induction d; cbn; try discriminate; auto. Qed.

Lemma to_uint_nonnil n : N.to_uint n <> Nil.
Proof. rewrite <- to_uint_normal. apply unorm_nonnil. Qed.

Lemma parse_N_print n r :
  no_digit_head r -> parse_N (print_N n ++ r) = Some (n, r).
Proof.
  intros Hr. unfold parse_N, print_N.
  rewrite span_digits_app by (auto using uint_digits).
  rewrite string_of_list_ascii_of_string, NilEmpty.usu, Unsigned.of_to.
  pose proof (to_uint_nonnil n) as Hnil.
  pose proof (to_uint_normal n) as Hnorm.
  destruct (N.to_uint n) as [|d|d|d|d|d|d|d|d|d|d] eqn:E; cbn; try reflexivity.
  - congruence.
  - cbn in Hnorm. apply unorm_head in Hnorm. subst d. reflexivity.
Qed.

Lemma print_N_head n : exists c s, print_N n = c :: s /\ is_digit c = true.
Proof.
  unfold print_N. pose proof (uint_digits (N.to_uint n)) as H.
  pose proof (to_uint_nonnil n) as Hnil.
  destruct (N.to_uint n); try congruence; cbn in *; inversion H; subst; eauto.
Qed.

Lemma parse_number_N n r :
  no_digit_head r -> parse_number (print_N n ++ r) = Some (JNum (Z.of_N n), r).
Proof.
  intros Hr. destruct (print_N_head n) as (c & s & E & Hc).
  pose proof (parse_N_print n r Hr) as HN. rewrite E in *. cbn [app] in *.
  unfold parse_number. apply is_digit_class in Hc as (_ & _ & ->).
  rewrite HN. reflexivity.
Qed.

Lemma parse_number_print z r :
  no_digit_head r -> parse_number (print_Z z ++ r) = Some (JNum z, r).
Proof.
  intros Hr. destruct z as [|p|p]; cbn [print_Z].
  - apply (parse_number_N 0 r Hr).
  - rewrite parse_number_N by assumption. reflexivity.
  - cbn [app parse_number]. cbn [Ascii.eqb Bool.eqb]. rewrite parse_N_print by assumption.
    reflexivity.
Qed.

Lemma print_Z_head z :
  exists c s, print_Z z = c :: s /\ (is_digit c || Ascii.eqb c "-"%char = true) /\ is_ws c = false.
Proof.
  destruct z as [|p|p]; cbn [print_Z].
  - destruct (print_N_head 0) as (c & s & E & Hc). exists c, s. rewrite Hc.
    apply is_digit_class in Hc as (? & _). auto.
  - destruct (print_N_head (Z.to_N (Z.pos p))) as (c & s & E & Hc). exists c, s. rewrite Hc.
    apply is_digit_class in Hc as (? & _). auto.
  - eexists _, _. split; [reflexivity|]. split; reflexivity.
Qed.

(** strings *)
Lemma parse_chars_quote_char c r :
  parse_chars (quote_char c ++ r) =
  match parse_chars r with Some (cs, t) => Some (c :: cs, t) | None => None end.
Proof.
  destruct c as [[] [] [] [] [] [] [] []]; reflexivity.
Qed.

Lemma parse_chars_quoted cs r :
  parse_chars (flat_map quote_char cs ++ dquote :: r) = Some (cs, r).
Proof.
  induction cs as [|c cs IH]; cbn [flat_map app].
  - reflexivity.
  - rewrite <- app_assoc, parse_chars_quote_char, IH. reflexivity.
Qed.

Lemma parse_string_quoted s r :
  parse_string (flat_map quote_char (list_ascii_of_string s) ++ dquote :: r) = Some (s, r).
Proof.
  unfold parse_string. rewrite parse_chars_quoted, string_of_list_ascii_of_string. reflexivity.
Qed.

Lemma value_start_class c :
  value_start c = true ->
  is_ws c = false /\ Ascii.eqb c "]"%char = false /\ Ascii.eqb c "}"%char = false.
Proof.
  destruct c as [[] [] [] [] [] [] [] []]; cbn; intros H; try discriminate H; auto.
Qed.

Lemma print_head v : exists c s, print v = c :: s /\ value_start c = true.
Proof.
  destruct v as [|[]|z|s|[|x items]|[|[k x] members]]; try (eexists _, _; split; reflexivity).
  destruct (print_Z_head z) as (c & s & E & H & _). exists c, s. split; [exact E|].
  unfold value_start. rewrite H. reflexivity.
Qed.

Lemma skip_ws_print v r : skip_ws (print v ++ r) = print v ++ r.
Proof.
  destruct (print_head v) as (c & s & -> & H). apply value_start_class in H as (H & _).
  cbn. now rewrite H.
Qed.

Lemma parse_value_S fuel s :
  parse_value (S fuel) s =
  match skip_ws s with
  | [] => None
  | c :: r =>
      if is_digit c || Ascii.eqb c "-"%char then parse_number (c :: r)
      else if Ascii.eqb c dquote then
        match parse_string r with
        | Some (str, t) => Some (JStr str, t)
        | None => None
        end
      else
        match c with
        | "n"%char => expect "null" JNull (c :: r)
        | "t"%char => expect "true" (JBool true) (c :: r)
        | "f"%char => expect "false" (JBool false) (c :: r)
        | "["%char =>
            match skip_ws r with
            | c' :: t =>
                if Ascii.eqb c' "]"%char then Some (JArr [], t)
                else parse_elements fuel [] r
            | [] => None
            end
        | "{"%char =>
            match skip_ws r with
            | c' :: t =>
                if Ascii.eqb c' "}"%char then Some (JObj [], t)
                else parse_members fuel [] r
            | [] => None
            end
        | _ => None
        end
  end.
Proof. reflexivity. Qed.

Lemma parse_elements_S fuel acc s :
  parse_elements (S fuel) acc s =
  match parse_value fuel s with
  | Some (v, r) =>
      match skip_ws r with
      | ","%char :: t => parse_elements fuel (acc ++ [v]) t
      | "]"%char :: t => Some (JArr (acc ++ [v]), t)
      | _ => None
      end
  | None => None
  end.
Proof. reflexivity. Qed.

Lemma parse_members_S fuel acc s :
  parse_members (S fuel) acc s =
  match skip_ws s with
  | c :: r =>
      if Ascii.eqb c dquote then
        match parse_string r with
        | Some (k, r1) =>
            match skip_ws r1 with
            | ":"%char :: r2 =>
                match parse_value fuel r2 with
                | Some (v, r3) =>
                    match skip_ws r3 with
                    | ","%char :: t => parse_members fuel (obj_set k v acc) t
                    | "}"%char :: t => Some (JObj (obj_set k v acc), t)
                    | _ => None
                    end
                | None => None
                end
            | _ => None
            end
        | None => None
        end
      else None
  | [] => None
  end.
Proof. reflexivity. Qed.

Lemma list_sum_cons a l : list_sum (a :: l) = a + list_sum l.
Proof. reflexivity. Qed.

Lemma parse_elements_print items :
  Forall roundtrips items ->
  forall x acc fuel r,
    roundtrips x ->
    S (size x) + list_sum (map (fun y => S (size y)) items) <= fuel ->
    parse_elements fuel acc
      (print x ++ flat_map (fun y => ","%char :: print y) items ++ "]"%char :: r)
    = Some (JArr (acc ++ x :: items), r).
Proof.
  induction 1 as [|y items Hy _ IH]; intros x acc fuel r Hx Hfuel;
    (destruct fuel as [|fuel]; [cbn in Hfuel; lia|]); rewrite parse_elements_S;
    cbn [map] in Hfuel; rewrite ?list_sum_cons in Hfuel; cbn [flat_map app].
  - rewrite Hx; [reflexivity|lia|reflexivity].
  - rewrite Hx; [|lia|reflexivity].
    cbn [skip_ws is_ws]. rewrite <- app_assoc. rewrite IH; [|assumption|lia].
    now rewrite <- app_assoc.
Qed.

Lemma obj_set_fresh k v o :
  k ∉ map fst o -> obj_set k v o = o ++ [(k, v)].
Proof.
  induction o as [|[k' v'] o IH]; cbn; intros H; [reflexivity|].
  apply not_elem_of_cons in H as [Hk H].
  destruct (String.eqb_spec k' k) as [->|_]; [done|]. f_equal. now apply IH.
Qed.

Lemma NoDup_keys_fresh (acc : list (string * json)) k x members :
  NoDup (map fst (acc ++ (k, x) :: members)) -> k ∉ map fst acc.
Proof.
  rewrite map_app. cbn. intros H Hin.
  apply NoDup_app in H as (_ & H & _). apply (H k Hin). left.
Qed.

Lemma parse_members_print members :
  Forall (fun kv => roundtrips (snd kv)) members ->
  forall k x acc fuel r,
    roundtrips x ->
    NoDup (map fst (acc ++ (k, x) :: members)) ->
    S (size x) + list_sum (map (fun kv => S (size (snd kv))) members) <= fuel ->
    parse_members fuel acc
      (QuoteJSONString k ++ ":"%char :: print x
         ++ flat_map (fun kv => ","%char :: QuoteJSONString (fst kv) ++ ":"%char :: print (snd kv)) members
         ++ "}"%char :: r)
    = Some (JObj (acc ++ (k, x) :: members), r).
Proof.
  induction 1 as [|[k' y] members Hy _ IH]; intros k x acc fuel r Hx Hdup Hfuel;
    (destruct fuel as [|fuel]; [cbn in Hfuel; lia|]); rewrite parse_members_S;
    cbn [map snd] in Hfuel; rewrite ?list_sum_cons in Hfuel; cbn [flat_map app fst snd];
    unfold QuoteJSONString at 1; cbn [app skip_ws is_ws dquote Ascii.eqb Bool.eqb];
    rewrite <- !app_assoc; cbn [app]; rewrite parse_string_quoted;
    cbn [skip_ws is_ws].
  - rewrite Hx; [|lia|reflexivity]. cbn [skip_ws is_ws].
    rewrite obj_set_fresh by eauto using NoDup_keys_fresh. reflexivity.
  - rewrite Hx; [|lia|reflexivity]. cbn [skip_ws is_ws].
    rewrite obj_set_fresh by eauto using NoDup_keys_fresh.
    rewrite IH; [now rewrite <- app_assoc|assumption|now rewrite <- app_assoc|lia].
Qed.

Lemma wf_arr items : wf (JArr items) <-> Forall wf items.
Proof.
  induction items as [|x items IH]; cbn; [split; auto|].
  rewrite Forall_cons. cbn in IH. now rewrite IH.
Qed.

Lemma wf_obj members :
  wf (JObj members) <-> NoDup (map fst members) /\ Forall (fun kv => wf (snd kv)) members.
Proof.
  cbn. apply and_iff_compat_l.
  induction members as [|kv members IH]; cbn; [split; auto|].
  rewrite Forall_cons. now rewrite IH.
Qed.

Lemma parse_print v : wf v -> roundtrips v.
Proof.
  induction v as [| [] | z | s | items IH | members IH] using json_ind; intros Hwf fuel r Hfuel Hr;
    (destruct fuel as [|fuel]; [cbn in Hfuel; lia|]).
  - reflexivity.
  - reflexivity.
  - reflexivity.
  - rewrite parse_value_S. cbn [print].
    destruct (print_Z_head z) as (c & s & E & Hc & Hws).
    rewrite E. cbn [app skip_ws]. rewrite Hws, Hc. rewrite app_comm_cons, <- E.
    now apply parse_number_print.
  - rewrite parse_value_S. cbn [print]. unfold QuoteJSONString.
    cbn [app skip_ws is_ws dquote is_digit orb Ascii.eqb Bool.eqb].
    rewrite <- app_assoc. cbn [app]. now rewrite parse_string_quoted.
  - destruct items as [|x items]; [reflexivity|].
    rewrite parse_value_S. cbn [print app skip_ws is_ws is_digit orb Ascii.eqb Bool.eqb dquote].
    rewrite <- !app_assoc. cbn [app].
    apply wf_arr in Hwf. inversion Hwf as [|? ? Hwx Hwitems]; subst.
    inversion IH as [|? ? IHx IHitems]; subst.
    destruct (print_head x) as (c & s & E & Hc).
    apply value_start_class in Hc as (Hws & Hc & _).
    rewrite E. cbn [app skip_ws]. rewrite Hws, Hc. rewrite app_comm_cons, <- E.
    apply (parse_elements_print items) with (acc := []).
    + clear -IHitems Hwitems. induction IHitems; inversion Hwitems; subst; constructor; auto.
    + auto.
    + cbn [size map] in Hfuel. rewrite list_sum_cons in Hfuel. lia.
  - destruct members as [|[k x] members]; [reflexivity|].
    rewrite parse_value_S. cbn [print app skip_ws is_ws is_digit orb Ascii.eqb Bool.eqb dquote].
    apply wf_obj in Hwf as [Hdup Hwf]. inversion Hwf as [|? ? Hwx Hwmembers]; subst.
    inversion IH as [|? ? IHx IHmembers]; subst.
    unfold QuoteJSONString at 1. cbn [app skip_ws is_ws dquote Ascii.eqb Bool.eqb].
    change (dquote :: flat_map quote_char (list_ascii_of_string k) ++ [dquote])
      with (QuoteJSONString k).
    rewrite <- !app_assoc. cbn [app]. rewrite <- !app_assoc. cbn [app].
    apply (parse_members_print members) with (acc := []).
    + clear -IHmembers Hwmembers. induction IHmembers; inversion Hwmembers; subst; constructor; auto.
    + auto.
    + exact Hdup.
    + cbn [size map snd] in Hfuel. rewrite list_sum_cons in Hfuel. lia.
Qed.

Lemma print_nonempty v : 1 <= length (print v).
Proof. destruct (print_head v) as (c & s & -> & _). cbn. lia. Qed.

Lemma size_le_length v : size v <= length (print v).
Proof.
  induction v as [| [] | z | s | items IH | members IH] using json_ind;
    try (cbn; lia).
  - apply (print_nonempty (JNum z)).
  - destruct items as [|x items]; [cbn; lia|].
    inversion IH as [|? ? IHx IHitems]; subst.
    cbn [size print map length]. rewrite list_sum_cons, !length_app. cbn [length].
    enough (list_sum (map (fun y => S (size y)) items)
            <= length (flat_map (fun y => ","%char :: print y) items)) by lia.
    clear -IHitems. induction IHitems as [|y items Hy _ IH]; [cbn; lia|].
    cbn [map flat_map]. rewrite list_sum_cons, length_app. cbn [length]. lia.
  - destruct members as [|[k x] members]; [cbn; lia|].
    inversion IH as [|? ? IHx IHmembers]; subst. cbn [snd] in IHx.
    cbn [size print map length snd]. rewrite list_sum_cons, !length_app. cbn [length].
    rewrite !length_app.
    enough (list_sum (map (fun kv => S (size (snd kv))) members)
            <= length (flat_map (fun kv => ","%char :: QuoteJSONString (fst kv)
                                             ++ ":"%char :: print (snd kv)) members)) by lia.
    clear -IHmembers. induction IHmembers as [|[k y] members Hy _ IH]; [cbn; lia|].
    cbn [map flat_map fst snd] in *. rewrite list_sum_cons, !length_app. cbn [length].
    rewrite length_app. cbn [length]. lia.
Qed.

Theorem JSON_parse_stringify v : wf v -> JSON_parse (JSON_stringify v) = Some v.
Proof.
  intros Hwf. unfold JSON_parse, JSON_stringify.
  rewrite list_ascii_of_string_of_list_ascii.
  rewrite <- (app_nil_r (print v)) at 2.
  rewrite (parse_print v Hwf); [reflexivity| apply size_le_length | exact I].
Qed.

Corollary JSON_stringify_inj a b :
  wf a -> wf b -> JSON_stringify a = JSON_stringify b -> a = b.
Proof.
  intros Ha Hb E. apply JSON_parse_stringify in Ha, Hb. rewrite E in Ha. congruence.
Qed.

Lemma obj_set_keys k v o :
  map fst (obj_set k v o) = if decide (k ∈ map fst o) then map fst o else map fst o ++ [k].
Proof.
  induction o as [|[k' v'] o IH]; cbn.
  - reflexivity.
  - destruct (String.eqb_spec k' k) as [->|Hne]; cbn.
    + rewrite decide_True by left. reflexivity.
    + rewrite IH. destruct (decide (k ∈ map fst o)).
      * rewrite decide_True by now right. reflexivity.
      * rewrite decide_False; [reflexivity|]. rewrite elem_of_cons. intuition congruence.
Qed.

Lemma obj_set_NoDup k v o : NoDup (map fst o) -> NoDup (map fst (obj_set k v o)).
Proof.
  intros H. rewrite obj_set_keys. case_decide; [assumption|].
  apply NoDup_app. repeat split; [assumption| |apply NoDup_singleton].
  intros x Hx Hk. apply list_elem_of_singleton in Hk. congruence.
Qed.

Lemma obj_set_Forall (P : json -> Prop) k v o :
  P v -> Forall (fun kv => P (snd kv)) o -> Forall (fun kv => P (snd kv)) (obj_set k v o).
Proof.
  intros Hv. induction 1 as [|[k' v'] o Hx Ho IH]; cbn.
  - constructor; [exact Hv|constructor].
  - destruct (String.eqb k' k); constructor; auto.
Qed.

Lemma obj_set_wf k v o : wf v -> wf (JObj o) -> wf (JObj (obj_set k v o)).
Proof.
  rewrite !wf_obj. intros Hv [Hd Hf]. split; auto using obj_set_NoDup, obj_set_Forall.
Qed.

Lemma parse_number_wf s v r : parse_number s = Some (v, r) -> wf v.
Proof.
  unfold parse_number. destruct s as [|c s]; [discriminate|].
  destruct (Ascii.eqb c "-"%char).
  - destruct (parse_N s) as [[n t]|]; [|discriminate]. now intros [= <- _].
  - destruct (parse_N (c :: s)) as [[n t]|]; [|discriminate]. now intros [= <- _].
Qed.

Lemma expect_wf w v0 s v r : wf v0 -> expect w v0 s = Some (v, r) -> wf v.
Proof.
  unfold expect. destruct (strip_prefix (lit w) s); [|discriminate]. now intros ? [= <- _].
Qed.

Lemma parse_wf fuel :
  (forall s v r, parse_value fuel s = Some (v, r) -> wf v) /\
  (forall acc s v r, parse_elements fuel acc s = Some (v, r) -> Forall wf acc -> wf v) /\
  (forall acc s v r, parse_members fuel acc s = Some (v, r) -> wf (JObj acc) -> wf v).
Proof.
  induction fuel as [|fuel (IHv & IHe & IHm)]; [repeat split; discriminate|].
  repeat split.
  - intros s v r. rewrite parse_value_S.
    destruct (skip_ws s) as [|c t]; [discriminate|].
    destruct (is_digit c || Ascii.eqb c "-"%char); [apply parse_number_wf|].
    destruct (Ascii.eqb c dquote).
    { destruct (parse_string t) as [[str t']|]; [|discriminate]. now intros [= <- _]. }
    destruct c as [[] [] [] [] [] [] [] []]; try discriminate;
      try (intros H; apply expect_wf in H; [exact H|exact I]).
    + destruct (skip_ws t) as [|c' t']; [discriminate|].
      destruct (Ascii.eqb c' "}"%char).
      * intros [= <- _]. cbn. split; [constructor|exact I].
      * intros H. apply (IHm _ _ _ _ H). cbn. split; [constructor|exact I].
    + destruct (skip_ws t) as [|c' t']; [discriminate|].
      destruct (Ascii.eqb c' "]"%char); [now intros [= <- _]|].
      intros H. apply (IHe _ _ _ _ H). constructor.
  - intros acc s v r. rewrite parse_elements_S.
    destruct (parse_value fuel s) as [[x t]|] eqn:Ex; [|discriminate].
    apply IHv in Ex. intros H Hacc.
    assert (Forall wf (acc ++ [x])) by (apply Forall_app; auto).
    destruct (skip_ws t) as [|c t']; [discriminate|].
    destruct c as [[] [] [] [] [] [] [] []]; try discriminate.
    + injection H as <- _. now apply wf_arr.
    + eauto.
  - intros acc s v r. rewrite parse_members_S.
    destruct (skip_ws s) as [|c t]; [discriminate|].
    destruct (Ascii.eqb c dquote); [|discriminate].
    destruct (parse_string t) as [[k t1]|]; [|discriminate].
    destruct (skip_ws t1) as [|c1 t2]; [discriminate|].
    destruct c1 as [[] [] [] [] [] [] [] []]; try discriminate.
    destruct (parse_value fuel t2) as [[x t3]|] eqn:Ex; [|discriminate].
    apply IHv in Ex. intros H Hacc.
    pose proof (obj_set_wf k x acc Ex Hacc) as Hset.
    destruct (skip_ws t3) as [|c3 t4]; [discriminate|].
    destruct c3 as [[] [] [] [] [] [] [] []]; try discriminate.
    + now injection H as <- _.
    + eauto.
Qed.

Theorem JSON_parse_wf text v : JSON_parse text = Some v -> wf v.
Proof.
  unfold JSON_parse.
  destruct (parse_value _ _) as [[x r]|] eqn:E; [|discriminate].
  destruct (skip_ws r); [|discriminate]. intros [= <-].
  eapply (proj1 (parse_wf _)), E.
Qed.

(** * What the methods keep *)

Ltac mrun :=
  cbv beta iota delta [bind ret throw modify get_world this update_this setTimeout
                       clearTimeout random attempt ws_send ws_close emit].

(** ** Rules for [keeps] *)

Lemma keeps_ret {A} P (a : A) : keeps P (ret a).
Proof. now intros w. Qed.

Lemma keeps_throw {A} P e : keeps P (@throw A e).
Proof. now intros w. Qed.

Lemma keeps_bind {A B} P (m : M A) (k : A -> M B) :
  keeps P m -> (forall a, keeps P (k a)) -> keeps P (bind m k).
Proof.
  intros Hm Hk w Hw. specialize (Hm w Hw). unfold bind.
  destruct (m w) as [[a|e] w']; cbn in *; [now apply Hk|assumption].
Qed.

Lemma keeps_attempt {A} P (m : M A) : keeps P m -> keeps P (attempt m).
Proof. intros Hm w Hw. specialize (Hm w Hw). unfold attempt. now destruct (m w). Qed.

Lemma keeps_get_world P : keeps P get_world.
Proof. now intros w. Qed.

Lemma keeps_this P h : keeps P (this h).
Proof. now intros w. Qed.

Lemma keeps_modify P f : (forall w, P w -> P (f w)) -> keeps P (modify f).
Proof. intros H w. apply H. Qed.

Lemma keeps_for_each {A} P (f : A -> M unit) l :
  (forall x, keeps P (f x)) -> keeps P (for_each f l).
Proof.
  intros Hf. induction l as [|x l IH]; cbn [for_each];
    [apply keeps_ret|apply keeps_bind; auto].
Qed.

Lemma keeps_and {A} (P Q : world -> Prop) (m : M A) :
  keeps P m -> keeps Q m -> keeps (fun w => P w /\ Q w) m.
Proof. intros HP HQ w [? ?]. split; auto. Qed.

Ltac keeps_step :=
  lazymatch goal with
  | |- keeps _ (bind _ _) => apply keeps_bind; [|intros ?]
  | |- keeps _ (ret _) => apply keeps_ret
  | |- keeps _ (throw _) => apply keeps_throw
  | |- keeps _ (this _) => apply keeps_this
  | |- keeps _ get_world => apply keeps_get_world
  | |- keeps _ (attempt _) => apply keeps_attempt
  | |- keeps _ (for_each _ _) => apply keeps_for_each; intros ?; cbv beta
  | |- keeps _ (modify _) => apply keeps_modify; intros ? ?
  | |- keeps _ (update_this _ _) => apply keeps_modify; intros ? ?
  | |- keeps _ (clearTimeout _) => apply keeps_modify; intros ? ?
  | |- keeps _ (ws_send _ _) => apply keeps_modify; intros ? ?
  | |- keeps _ (ws_close _) => apply keeps_modify; intros ? ?
  | |- keeps _ (emit _ _ _) => apply keeps_modify; intros ? ?
  | |- keeps _ (push_sensor _) => apply keeps_modify; intros ? ?
  | |- keeps _ (setTimeout _ _) => intros ? ?; cbn [snd setTimeout]
  | |- keeps _ (random _) => intros ? ?; cbn [snd random]
  | |- keeps _ (if ?b then _ else _) => destruct b eqn:?
  | |- keeps _ (match ?x with _ => _ end) => destruct x eqn:?
  | |- keeps _ (fun _ => _) => intros ? ?; cbn [snd]
  end.

Ltac keeps_auto tac := repeat keeps_step; tac.

(** ** What the elementary updates keep *)

Lemma NoDup_map_filter {A B} (f : A -> B) (p : A -> bool) l :
  NoDup (map f l) -> NoDup (map f (List.filter p l)).
Proof.
  induction l as [|x l IH]; cbn; [auto|].
  rewrite NoDup_cons. intros [Hx Hl]. destruct (p x); cbn; [|auto].
  apply NoDup_cons. split; [|auto].
  intros Hin. apply Hx. apply list_elem_of_In, in_map_iff in Hin as (y & <- & Hy).
  apply filter_In in Hy as [Hy _]. apply list_elem_of_In, in_map. exact Hy.
Qed.

Lemma Forall_filter_keep {A} (P : A -> Prop) (p : A -> bool) l :
  Forall P l -> Forall P (List.filter p l).
Proof.
  induction 1 as [|x l Hx _ IH]; cbn; [constructor|]. destruct (p x); auto.
Qed.

Lemma timers_ok_arm c ms w : timers_ok w -> timers_ok (arm c ms w).
Proof.
  intros [Hd Hlt]. split; cbn.
  - rewrite map_app. apply NoDup_app. repeat split; [assumption| |apply NoDup_singleton].
    intros x Hx Hin. apply list_elem_of_singleton in Hin. subst x.
    apply list_elem_of_In, in_map_iff in Hx as (t & Ht & Hin).
    rewrite Forall_forall in Hlt. apply list_elem_of_In, Hlt in Hin. cbn in Ht. lia.
  - apply Forall_app. split.
    + eapply Forall_impl; [exact Hlt|]. cbn. intros; lia.
    + repeat constructor.
Qed.

Lemma timers_ok_disarm id w : timers_ok w -> timers_ok (disarm id w).
Proof.
  intros [Hd Hlt]. split; cbn; [now apply NoDup_map_filter|now apply Forall_filter_keep].
Qed.

Lemma polls_ok_arm c ms w : is_poll c = false -> polls_ok w -> polls_ok (arm c ms w).
Proof.
  intros Hc H. unfold polls_ok in *. cbn. apply Forall_app. split; [exact H|].
  constructor; [|constructor]. cbn. intros h ->. discriminate Hc.
Qed.

Lemma polls_ok_disarm id w : polls_ok w -> polls_ok (disarm id w).
Proof. apply Forall_filter_keep. Qed.

Lemma lookup_alter_timeout (f : handler -> handler) h h' (hs : gmap nat handler) :
  (forall hd, h_timeout (f hd) = h_timeout hd) ->
  h_timeout <$> (alter f h hs !! h') = h_timeout <$> (hs !! h').
Proof.
  intros Hf. destruct (decide (h = h')) as [->|Hne].
  - rewrite lookup_alter_eq. destruct (hs !! h'); cbn; [now rewrite Hf|reflexivity].
  - now rewrite lookup_alter_ne.
Qed.

Lemma polls_ok_alter h f w :
  (forall hd, h_timeout (f hd) = h_timeout hd) ->
  polls_ok w -> polls_ok (alter_handler h f w).
Proof.
  intros Hf H. unfold polls_ok in *. cbn.
  eapply Forall_impl; [exact H|]. cbn. intros t Ht h' E.
  rewrite lookup_alter_timeout by assumption. auto.
Qed.

Lemma polls_except_arm h c ms w :
  is_poll c = false -> polls_ok_except h w -> polls_ok_except h (arm c ms w).
Proof.
  intros Hc H. unfold polls_ok_except in *. cbn. apply Forall_app. split; [exact H|].
  constructor; [|constructor]. cbn. intros h' ->. discriminate Hc.
Qed.

Lemma polls_except_disarm h id w : polls_ok_except h w -> polls_ok_except h (disarm id w).
Proof. apply Forall_filter_keep. Qed.

Lemma polls_except_alter h h0 f w :
  (forall hd, h_timeout (f hd) = h_timeout hd) ->
  polls_ok_except h w -> polls_ok_except h (alter_handler h0 f w).
Proof.
  intros Hf H. unfold polls_ok_except in *. cbn.
  eapply Forall_impl; [exact H|]. cbn. intros t Ht h' E.
  rewrite lookup_alter_timeout by assumption. auto.
Qed.

Lemma has_handler_alter h h0 f w : has_handler h w -> has_handler h (alter_handler h0 f w).
Proof.
  unfold has_handler. cbn. intros [hd E].
  destruct (decide (h0 = h)) as [->|Hne].
  - rewrite lookup_alter_eq, E. now eexists.
  - rewrite lookup_alter_ne, E by assumption. now eexists.
Qed.

Lemma buffers_ok_alter h f w :
  (forall hd, h_buffer (f hd) = h_buffer hd) ->
  buffers_ok w -> buffers_ok (alter_handler h f w).
Proof.
  intros Hf H h' hd. cbn. destruct (decide (h = h')) as [->|Hne].
  - rewrite lookup_alter_eq. destruct (handlers w !! h') as [hd'|] eqn:E; cbn; [|discriminate].
    intros [= <-]. rewrite Hf. eauto.
  - rewrite lookup_alter_ne by assumption. apply H.
Qed.

(** One tactic for the elementary steps of all these properties. *)
Ltac atom :=
  first
    [ assumption
    | apply timers_ok_arm; assumption
    | apply timers_ok_disarm; assumption
    | apply polls_ok_arm; [reflexivity|assumption]
    | apply polls_ok_disarm; assumption
    | apply polls_ok_alter; [intros; reflexivity|assumption]
    | apply polls_except_arm; [reflexivity|assumption]
    | apply polls_except_disarm; assumption
    | apply polls_except_alter; [intros; reflexivity|assumption]
    | apply has_handler_alter; assumption
    | apply buffers_ok_alter; [intros; reflexivity|assumption] ].

Ltac each_structural H := destruct H.
Ltac each_property H := destruct H as [? H|]; [destruct H|].

Ltac by_keeps L := apply L; [solve [repeat constructor]|].

Section Methods.
Variable rt : runtime.

Lemma Qlt_bool_iff a b : Qlt_bool a b = true <-> (a < b)%Q.
Proof.
  unfold Qlt_bool. rewrite negb_true_iff, <- not_true_iff_false, Qle_bool_iff.
  split; [apply Qnot_le_lt | apply Qlt_not_le].
Qed.

Lemma _send_disabled h msg w :
  failures (config_of w h) = false ->
  _send rt h msg w = (inl tt, alter_handler h (deliver (JSON_stringify (payload msg w))) w).
Proof. unfold _send, config_of. mrun. now intros ->. Qed.

Lemma _send_bug h msg w :
  failures (config_of w h) = true ->
  Qlt_bool (next_draw rt w) (errorProb (config_of w h)) = true ->
  _send rt h msg w =
  (inl tt, arm (Resend h msg) (next_delay rt w h)
             (set_jitters (S (jitters w)) (set_draws (S (draws w)) w))).
Proof. unfold _send, _someMillis, config_of, next_draw, next_delay. mrun. now intros -> ->. Qed.

Lemma _send_lucky h msg w :
  failures (config_of w h) = true ->
  Qlt_bool (next_draw rt w) (errorProb (config_of w h)) = false ->
  _send rt h msg w =
  (inl tt, alter_handler h (deliver (JSON_stringify (payload msg w)))
             (set_draws (S (draws w)) w)).
Proof. unfold _send, config_of, next_draw. mrun. now intros -> ->. Qed.

Lemma keeps_send P h msg : property P -> keeps P (_send rt h msg).
Proof.
  intros H; each_property H; unfold _send, _someMillis; keeps_auto atom.
Qed.

Lemma keeps_stop P h : property P -> keeps P (stop h).
Proof. intros H; each_property H; unfold stop; keeps_auto atom. Qed.

Lemma keeps_scheduleDeath P h :
  property P -> keeps P (_scheduleDeath rt h).
Proof. intros H; each_property H; unfold _scheduleDeath; keeps_auto atom. Qed.

Lemma keeps_start P h : property P -> keeps P (start rt h).
Proof.
  intros H. unfold start. keeps_auto idtac; auto using keeps_scheduleDeath.
Qed.

Lemma keeps_die P h : property P -> keeps P (die_callback h).
Proof.
  intros H. unfold die_callback.
  keeps_auto idtac; auto using keeps_stop; each_property H; atom.
Qed.

Lemma keeps_validate P msg : structural P -> keeps P (_validateMessage rt msg).
Proof.
  intros H; each_structural H; unfold _validateMessage, get_prop; keeps_auto atom.
Qed.

Lemma keeps_assign_state P i : structural P -> keeps P (assign_state rt i).
Proof. intros H; each_structural H; unfold assign_state; keeps_auto atom. Qed.

Lemma keeps_corrupt P h : structural P -> keeps P (corrupt_callback rt h).
Proof.
  intros H. unfold corrupt_callback.
  keeps_auto idtac; auto using keeps_assign_state, keeps_scheduleDeath, property_structural;
    each_structural H; atom.
Qed.

Lemma _send_returns h msg w : fst (_send rt h msg w) = inl tt.
Proof.
  unfold _send, _someMillis. mrun.
  destruct (failures _); [destruct (Qlt_bool _ _)|]; reflexivity.
Qed.

Lemma _send_eta h msg w : _send rt h msg w = (inl tt, snd (_send rt h msg w)).
Proof. rewrite <- (_send_returns h msg w). now destruct (_send rt h msg w). Qed.

(** *** The poll timer *)

Lemma polls_except_weaken h w : polls_ok_except h w -> polls_ok w.
Proof. intros H. eapply Forall_impl; [exact H|]. cbn. intros t Ht h' E. now apply Ht. Qed.

Lemma polls_except_alter_own h f w : polls_ok_except h w -> polls_ok_except h (alter_handler h f w).
Proof.
  unfold polls_ok_except. cbn. intros H0. eapply Forall_impl; [exact H0|]. cbn. intros t H h' E.
  destruct (H h' E) as [Hne Ht]. split; [assumption|]. now rewrite lookup_alter_ne.
Qed.

Lemma polls_except_idle h w :
  polls_ok w -> (forall id, h_timeout <$> (handlers w !! h) <> Some (Some id)) ->
  polls_ok_except h w.
Proof.
  intros H Hidle. eapply Forall_impl; [exact H|]. cbn. intros t Ht h' E.
  specialize (Ht h' E). split; [|assumption]. intros ->. now apply (Hidle (tid t)).
Qed.

Lemma polls_except_disarm_own h id w :
  polls_ok w -> h_timeout <$> (handlers w !! h) = Some (Some id) ->
  polls_ok_except h (disarm id w).
Proof.
  intros H Hid. unfold polls_ok_except, polls_ok in *. cbn.
  rewrite Forall_forall in *. intros t Hin%list_elem_of_In%filter_In h' E.
  destruct Hin as [Hin Hne]. apply list_elem_of_In in Hin.
  specialize (H t Hin h' E). split; [|assumption]. intros ->.
  rewrite Hid in H. injection H as ->. now rewrite Nat.eqb_refl in Hne.
Qed.

Lemma polls_ok_rearm h c ms w :
  c = PollTick h -> polls_ok_except h w -> has_handler h w ->
  polls_ok (alter_handler h (set_timeout (Some (next_tid w))) (arm c ms w)).
Proof.
  intros -> H [hd Hhd]. unfold polls_ok, polls_ok_except in *. cbn.
  apply Forall_app. split.
  - eapply Forall_impl; [exact H|]. cbn. intros t Ht h' E.
    destruct (Ht h' E) as [Hne Hh']. now rewrite lookup_alter_ne.
  - constructor; [|constructor]. cbn. intros h' [= <-].
    now rewrite lookup_alter_eq, Hhd.
Qed.

Lemma handler_total h w hd : handlers w !! h = Some hd -> handlers w !!! h = hd.
Proof. intros E. unfold lookup_total, map_lookup_total. now rewrite E. Qed.

Lemma handler_timeout_total h w id :
  h_timeout (handlers w !!! h) = Some id -> h_timeout <$> (handlers w !! h) = Some (Some id).
Proof.
  unfold lookup_total, map_lookup_total. destruct (handlers w !! h); cbn; [congruence|discriminate].
Qed.

Lemma _onSubscribe_subscribed h w id :
  h_timeout (handlers w !!! h) = Some id -> _onSubscribe h w = (inl tt, w).
Proof. unfold _onSubscribe. mrun. now intros ->. Qed.

Lemma _onSubscribe_idle h w :
  h_timeout (handlers w !!! h) = None ->
  _onSubscribe h w =
  (inl tt, alter_handler h (set_timeout (Some (next_tid w))) (arm (PollTick h) 0 w)).
Proof. unfold _onSubscribe. mrun. now intros ->. Qed.

Lemma _onUnsubscribe_idle h w :
  h_timeout (handlers w !!! h) = None -> _onUnsubscribe rt h w = (inl tt, w).
Proof. unfold _onUnsubscribe. mrun. now intros ->. Qed.

Lemma _onUnsubscribe_subscribed h w id :
  h_timeout (handlers w !!! h) = Some id ->
  _onUnsubscribe rt h w =
  _send rt h AckMsg (alter_handler h (set_timeout None) (disarm id w)).
Proof. unfold _onUnsubscribe. mrun. now intros ->. Qed.

Lemma keeps_polls_onSubscribe h : keeps (subscribable h) (_onSubscribe h).
Proof.
  intros w [Hp Hh]. destruct (h_timeout (handlers w !!! h)) as [id|] eqn:E.
  - rewrite (_onSubscribe_subscribed h w id E). now split.
  - rewrite (_onSubscribe_idle h w E). cbn [snd]. split.
    + apply polls_ok_rearm; [reflexivity| |assumption].
      apply polls_except_idle; [assumption|]. intros id Hid.
      destruct Hh as [hd Hhd]. rewrite (handler_total _ _ _ Hhd) in E.
      rewrite Hhd in Hid. cbn in Hid. congruence.
    + now apply has_handler_alter.
Qed.

Lemma keeps_polls_send h h' msg : keeps (subscribable h') (_send rt h msg).
Proof. apply keeps_and; apply keeps_send; repeat constructor. Qed.

Lemma keeps_polls_onUnsubscribe h : keeps (subscribable h) (_onUnsubscribe rt h).
Proof.
  intros w [Hp Hh]. destruct (h_timeout (handlers w !!! h)) as [id|] eqn:E.
  - rewrite (_onUnsubscribe_subscribed h w id E).
    apply keeps_polls_send. split.
    + apply polls_except_weaken with (h := h), polls_except_alter_own.
      apply polls_except_disarm_own; [assumption|]. now apply handler_timeout_total.
    + now apply has_handler_alter.
  - rewrite (_onUnsubscribe_idle h w E). now split.
Qed.

Lemma keeps_polls_validate h msg : keeps (subscribable h) (_validateMessage rt msg).
Proof. apply keeps_and; apply keeps_validate; constructor. Qed.

Lemma keeps_polls_onMessage h msg : keeps (subscribable h) (onMessage rt h msg).
Proof.
  unfold onMessage, get_prop.
  keeps_auto idtac;
    auto using keeps_polls_validate, keeps_polls_send, keeps_polls_onSubscribe,
               keeps_polls_onUnsubscribe.
Qed.

Lemma keeps_plain_onMessage P h msg : plain P -> keeps P (onMessage rt h msg).
Proof.
  intros H; destruct H;
    unfold onMessage, _validateMessage, get_prop, _onSubscribe, _onUnsubscribe, _send, _someMillis;
    keeps_auto atom.
Qed.

(** *** Validation *)

Lemma for_each_push items w :
  for_each push_sensor items w = (inl tt, fold_left (fun w x => pushed x w) items w).
Proof.
  revert w. induction items as [|x items IH]; intros w; cbn [for_each fold_left]; [reflexivity|].
  unfold bind, push_sensor, modify. apply IH.
Qed.

Lemma pushed_all items w :
  let w' := fold_left (fun w x => pushed x w) items w in
  sensors w' = sensors w ++ items /\ sensors_id w' = sensors_id w /\
  detached w' = detached w /\ old_sensors_list w' = old_sensors_list w /\
  handlers w' = handlers w /\ timers w' = timers w /\ next_tid w' = next_tid w /\
  clock w' = clock w /\ draws w' = draws w /\ jitters w' = jitters w /\
  process w' = process w.
Proof.
  revert w. induction items as [|x items IH]; intros w; cbn [fold_left].
  - rewrite app_nil_r. repeat split.
  - destruct (IH (pushed x w)) as (-> & -> & -> & -> & -> & -> & -> & -> & -> & -> & ->).
    cbn. rewrite <- app_assoc. repeat split.
Qed.

Lemma replaced_all items w :
  let w' := replaced items w in
  sensors w' = items /\ sensors_id w' = sensors_id w /\
  detached w' = detached w /\ old_sensors_list w' = old_sensors_list w /\
  handlers w' = handlers w /\ timers w' = timers w /\ next_tid w' = next_tid w /\
  clock w' = clock w /\ draws w' = draws w /\ jitters w' = jitters w /\
  process w' = process w.
Proof. apply (pushed_all items (set_sensors [] w)). Qed.

Lemma accepted_object json : accepted json = true -> exists o, json = JObj o.
Proof. destruct json; try discriminate. eauto. Qed.

Lemma accepted_type json :
  accepted json = true ->
  negb (is_string (prop json "type") "subscribe")
  && negb (is_string (prop json "type") "unsubscribe") = false
  /\ negb (is_string (prop json "target") "heatpump") = false.
Proof.
  unfold accepted. destruct (is_string (prop json "type") "subscribe"),
    (is_string (prop json "type") "unsubscribe"), (is_string (prop json "target") "heatpump");
    cbn; intros; try discriminate; auto.
Qed.

Lemma validate_empty w :
  _validateMessage rt EmptyString w = (inr (ValidationError "Invalid inbound message"), w).
Proof. reflexivity. Qed.

Lemma validate_unparsable msg w :
  msg <> EmptyString -> JSON_parse msg = None ->
  _validateMessage rt msg w = (inr (SyntaxError (SyntaxError_message rt msg)), w).
Proof.
  intros Hne Hp. unfold _validateMessage. rewrite Hp.
  destruct (String.eqb_spec msg EmptyString); [contradiction|reflexivity].
Qed.

Lemma validate_rejected msg json w :
  msg <> EmptyString -> JSON_parse msg = Some json -> accepted json = false ->
  exists e, _validateMessage rt msg w = (inr e, w).
Proof.
  intros Hne Hp Hacc. unfold _validateMessage. rewrite Hp.
  destruct (String.eqb_spec msg EmptyString); [contradiction|].
  unfold accepted in Hacc. destruct json; try (eexists; reflexivity).
  unfold get_prop. mrun.
  destruct (is_string (prop (JObj members) "type") "subscribe"),
    (is_string (prop (JObj members) "type") "unsubscribe"),
    (is_string (prop (JObj members) "target") "heatpump");
    cbn in *; try discriminate; eexists; reflexivity.
Qed.

Lemma validate_accepted msg json w :
  msg <> EmptyString -> JSON_parse msg = Some json -> accepted json = true ->
  _validateMessage rt msg w =
  match prop json "list" with
  | Some JNull => (inl json, w)
  | Some (JArr items) => (inl json, replaced items w)
  | None => (inr (TypeError (TypeError_message rt (ReadOfUndefined "forEach"))), set_sensors [] w)
  | Some _ =>
      (inr (TypeError (TypeError_message rt (NotAFunction "json.list.forEach"))), set_sensors [] w)
  end.
Proof.
  intros Hne Hp Hacc. unfold _validateMessage. rewrite Hp.
  destruct (String.eqb_spec msg EmptyString); [contradiction|].
  destruct (accepted_object _ Hacc) as [o ->].
  destruct (accepted_type _ Hacc) as [Ht Hg].
  unfold get_prop. mrun. rewrite Ht, Hg.
  destruct (prop (JObj o) "list") as [[| | | |items|]|]; try reflexivity.
  rewrite for_each_push. reflexivity.
Qed.

Lemma obj_get_wf k o v : wf (JObj o) -> obj_get k o = Some v -> wf v.
Proof.
  rewrite wf_obj. intros [_ H]. induction H as [|[k' v'] o Hv _ IH]; cbn; [discriminate|].
  destruct (String.eqb k' k); [now intros [= <-]|assumption].
Qed.

Lemma keeps_registry_validate msg : keeps registry_ok (_validateMessage rt msg).
Proof.
  intros w [Hs Ho].
  destruct (String.eqb_spec msg EmptyString) as [->|Hne]; [now split|].
  destruct (JSON_parse msg) as [json|] eqn:Hp; [|now rewrite validate_unparsable].
  destruct (accepted json) eqn:Hacc.
  - rewrite (validate_accepted msg json w Hne Hp Hacc).
    destruct (accepted_object _ Hacc) as [o ->]. cbn [prop].
    destruct (obj_get "list" o) as [v|] eqn:Hl; [|split; [constructor|assumption]].
    apply JSON_parse_wf in Hp. apply (obj_get_wf _ _ _ Hp) in Hl.
    destruct v as [| | | |items|]; try (split; [constructor|assumption]); [now split|].
    destruct (replaced_all items w) as (Hs' & _ & _ & Ho' & _). cbn [snd].
    split; [rewrite Hs'; now apply wf_arr|now rewrite Ho'].
  - destruct (validate_rejected msg json w Hne Hp Hacc) as [e ->]. now split.
Qed.

Lemma keeps_registry_onMessage h msg : keeps registry_ok (onMessage rt h msg).
Proof.
  unfold onMessage, get_prop, _onSubscribe, _onUnsubscribe.
  keeps_auto idtac; auto using keeps_registry_validate, keeps_send, property_registry; atom.
Qed.

(** *** The buffer *)

Lemma world_eq w w' :
  sensors w = sensors w' -> sensor_ids w = sensor_ids w' -> sensors_id w = sensors_id w' ->
  detached w = detached w' -> next_ref w = next_ref w' ->
  old_sensors_list w = old_sensors_list w' ->
  handlers w = handlers w' -> timers w = timers w' -> next_tid w = next_tid w' ->
  clock w = clock w' -> draws w = draws w' -> jitters w = jitters w' -> process w = process w' ->
  w = w'.
Proof. destruct w, w'; cbn; intros; subst; reflexivity. Qed.

Lemma has_handler_total h w : has_handler h w -> handlers w !! h = Some (handlers w !!! h).
Proof. intros [hd E]. now rewrite (handler_total _ _ _ E). Qed.

Lemma alter_total h f w :
  has_handler h w -> handlers (alter_handler h f w) !!! h = f (handlers w !!! h).
Proof.
  intros [hd E]. rewrite (handler_total _ _ _ E). apply handler_total. cbn.
  now rewrite lookup_alter_eq, E.
Qed.

Lemma alter_alter (f g : handler -> handler) h (hs : gmap nat handler) :
  alter f h (alter g h hs) = alter (fun hd => f (g hd)) h hs.
Proof.
  apply map_eq. intros i. destruct (decide (h = i)) as [->|Hne].
  - rewrite !lookup_alter_eq. now destruct (hs !! i).
  - now rewrite !lookup_alter_ne.
Qed.

Lemma alter_same (f g : handler -> handler) h (hs : gmap nat handler) :
  (forall hd, hs !! h = Some hd -> f hd = g hd) -> alter f h hs = alter g h hs.
Proof.
  intros H. apply map_eq. intros i. destruct (decide (h = i)) as [->|Hne].
  - rewrite !lookup_alter_eq. destruct (hs !! i) eqn:E; cbn; [now rewrite H|reflexivity].
  - now rewrite !lookup_alter_ne.
Qed.

Lemma _sendList_flush h w :
  has_handler h w -> h_buffer (handlers w !!! h) = [] ->
  _sendList rt h w = _send rt h (SensorsListMsg (toISO rt (clock w)) (sensors_id w)) w.
Proof.
  intros Hh Hb. unfold _sendList. mrun.
  set (msg := SensorsListMsg (toISO rt (clock w)) (sensors_id w)).
  set (w1 := alter_handler h (fun hd => set_buffer (h_buffer hd ++ [msg]) hd) w).
  replace (h_buffer (handlers w1 !!! h)) with [msg]
    by (unfold w1; rewrite alter_total, Hb by assumption; reflexivity).
  cbn [for_each]. mrun.
  assert (Hcfg : config_of w1 h = config_of w h)
    by (unfold config_of, w1; now rewrite alter_total).
  rewrite (_send_eta h msg w1), (_send_eta h msg w). f_equal.
  pose proof (has_handler_total h w Hh) as Hl.
  destruct (failures (config_of w h)) eqn:Hf;
    [destruct (Qlt_bool (next_draw rt w) (errorProb (config_of w h))) eqn:Hq|].
  - rewrite (_send_bug h msg w), (_send_bug h msg w1) by (rewrite ?Hcfg; assumption).
    apply world_eq; try reflexivity; cbn.
    + rewrite alter_alter. apply alter_id. intros hd Hhd.
      rewrite Hl in Hhd. injection Hhd as <-. destruct (handlers w !!! h); cbn in *. now subst.
    + unfold new_timer. cbn. unfold next_delay. now rewrite Hcfg.
  - rewrite (_send_lucky h msg w), (_send_lucky h msg w1) by (rewrite ?Hcfg; assumption).
    apply world_eq; try reflexivity; cbn.
    rewrite !alter_alter. apply alter_same. intros hd Hhd. cbn.
    rewrite Hl in Hhd. injection Hhd as <-. destruct (handlers w !!! h); cbn in *. now subst.
  - rewrite (_send_disabled h msg w), (_send_disabled h msg w1) by (rewrite ?Hcfg; assumption).
    apply world_eq; try reflexivity; cbn.
    rewrite !alter_alter. apply alter_same. intros hd Hhd. cbn.
    rewrite Hl in Hhd. injection Hhd as <-. destruct (handlers w !!! h); cbn in *. now subst.
Qed.

Lemma keeps_buffers_sendList h :
  keeps (fun w => buffers_ok w /\ has_handler h w) (_sendList rt h).
Proof.
  intros w [Hb Hh]. rewrite _sendList_flush; [| assumption |].
  - split; by_keeps keeps_send; assumption.
  - apply (Hb h). now apply has_handler_total.
Qed.

(** *** The poll closure *)

Lemma poll_unchanged h w :
  JSON_stringify (old_sensors_list w) = JSON_stringify (JArr (sensors w)) ->
  poll_callback rt h w = (inl tt, rearm rt h w).
Proof.
  intros E. unfold poll_callback, _someMillis. mrun. rewrite E, String.eqb_refl. reflexivity.
Qed.

Lemma poll_changed h w :
  JSON_stringify (old_sensors_list w) <> JSON_stringify (JArr (sensors w)) ->
  Forall wf (sensors w) -> has_handler h w -> h_buffer (handlers w !!! h) = [] ->
  poll_callback rt h w =
  (inl tt, rearm rt h (snd (_send rt h (SensorsListMsg (toISO rt (clock w)) (sensors_id w))
                              (set_old_sensors_list (JArr (sensors w)) w)))).
Proof.
  intros Hne Hwf Hh Hb. unfold poll_callback. mrun.
  destruct (String.eqb_spec (JSON_stringify (old_sensors_list w)) (JSON_stringify (JArr (sensors w))))
    as [E|_]; [contradiction|]. cbn [negb].
  rewrite JSON_parse_stringify by now apply wf_arr.
  rewrite _sendList_flush by assumption.
  rewrite _send_eta. reflexivity.
Qed.

Lemma rearm_inv h w :
  timers_ok w -> polls_ok_except h w -> has_handler h w -> buffers_ok w -> registry_ok w ->
  inv (rearm rt h w).
Proof.
  intros Ht Hp Hh Hb Hr. unfold rearm. repeat split.
  - apply (timers_ok_arm _ _ (set_jitters _ w)), Ht.
  - apply (timers_ok_arm _ _ (set_jitters _ w)), Ht.
  - apply (polls_ok_rearm h _ _ (set_jitters _ w)); auto.
  - apply buffers_ok_alter; [reflexivity|exact Hb].
  - apply Hr.
  - apply Hr.
Qed.

Lemma poll_inv h w :
  timers_ok w -> polls_ok_except h w -> has_handler h w -> buffers_ok w -> registry_ok w ->
  inv (snd (poll_callback rt h w)).
Proof.
  intros Ht Hp Hh Hb Hr.
  destruct (String.eqb_spec (JSON_stringify (old_sensors_list w)) (JSON_stringify (JArr (sensors w))))
    as [E|Hne].
  - rewrite poll_unchanged by assumption. now apply rearm_inv.
  - rewrite poll_changed; [|assumption|apply Hr|assumption|].
    2:{ apply (Hb h). now apply has_handler_total. }
    cbn [snd]. apply rearm_inv; by_keeps keeps_send; try assumption.
    split; [apply Hr|apply wf_arr, Hr].
Qed.

(** *** The corruption closure *)

Lemma keeps_registry_assign_state i : keeps registry_ok (assign_state rt i).
Proof.
  intros w [Hs Ho]. unfold assign_state. mrun.
  destruct (sensor_at (sensors w) i) as [[| | | | |o]|] eqn:E; try (now split).
  split; [|assumption]. cbn. unfold sensor_at in E.
  destruct (0 <=? i)%Z; [|discriminate].
  apply Forall_insert; [assumption|].
  apply (Forall_lookup_1 _ _ _ _ Hs) in E.
  apply obj_set_wf; [exact I|exact E].
Qed.

Lemma keeps_registry_corrupt h : keeps registry_ok (corrupt_callback rt h).
Proof.
  unfold corrupt_callback.
  keeps_auto idtac; auto using keeps_registry_assign_state, keeps_scheduleDeath, property_registry.
Qed.

(** *** One turn of the event loop *)

Lemma earliest_In ts t : earliest ts = Some t -> t ∈ ts.
Proof.
  revert t. induction ts as [|t0 ts IH]; cbn; [discriminate|]. intros t.
  destruct (earliest ts) as [t'|].
  - destruct (due t' <? due t0)%Z; intros [= <-]; [right; now apply IH|left].
  - intros [= <-]. left.
Qed.

Lemma inv_callback c w :
  (forall h, c = PollTick h -> polls_ok_except h w /\ has_handler h w) ->
  inv w -> inv (snd (run_callback rt c w)).
Proof.
  intros Hc (Ht & Hp & Hb & Hr). destruct c as [h|h msg|h|h]; cbn [run_callback].
  - destruct (Hc h eq_refl). now apply poll_inv.
  - split; [|split; [|split]]; by_keeps keeps_send; assumption.
  - split; [|split; [|split]]; [by_keeps keeps_corrupt..|apply keeps_registry_corrupt]; assumption.
  - split; [|split; [|split]]; by_keeps keeps_die; assumption.
Qed.

Lemma top_level_inv m w : inv (snd (m w)) -> inv (top_level m w).
Proof. unfold top_level. now destruct (m w) as [[[]|e] w']. Qed.

Lemma fire_inv w : inv w -> inv (fire rt w).
Proof.
  intros Hinv. unfold fire. destruct (earliest (timers w)) as [t|] eqn:E; [|assumption].
  apply earliest_In in E. apply top_level_inv. mrun.
  destruct Hinv as (Ht & Hp & Hb & Hr).
  apply inv_callback.
  - intros h Hcb.
    pose proof (proj1 (Forall_forall _ _) Hp t E h Hcb) as Hid. split.
    + apply (polls_except_disarm_own h (tid t) w); assumption.
    + unfold has_handler. cbn. destruct (handlers w !! h); [now eexists|discriminate].
  - repeat split; try apply Hr; try assumption.
    + now apply (timers_ok_disarm (tid t) w).
    + now apply (timers_ok_disarm (tid t) w).
    + now apply (polls_ok_disarm (tid t) w).
Qed.

Lemma wf_heatpump1 : wf heatpump1.
Proof.
  split; [|repeat split]. cbn.
  repeat (apply NoDup_cons; split;
    [intros Hin; repeat (apply elem_of_cons in Hin as [Hin|Hin]; [discriminate|]);
     now apply elem_of_nil in Hin|]).
  constructor.
Qed.

Lemma inv_init : inv init.
Proof.
  split; [|split; [|split]].
  - split; constructor.
  - constructor.
  - intros h hd. cbn. rewrite lookup_empty. discriminate.
  - split; [|exact I]. constructor; [apply wf_heatpump1|constructor].
Qed.

Lemma combine_snd_Forall {A B} (P : B -> Prop) (a : list A) (b : list B) :
  Forall P b -> Forall P (map snd (combine a b)).
Proof.
  intros H. revert a. induction H as [|x b Hx _ IH]; intros [|y a]; cbn; constructor; auto.
Qed.

Lemma rebuilt_wf old l n :
  Forall wf (map snd old) ->
  Forall (fun x => match x with inr v => wf v | inl _ => True end) l ->
  Forall wf (map snd (fst (rebuilt old l n))).
Proof.
  intros Hold Hl. revert n. induction Hl as [|[k|v] l Hx _ IH]; intros n; cbn; [constructor|..].
  - destruct (old !! k) as [x|] eqn:E; cbn; [|apply IH]. constructor; [|apply IH].
    apply (proj1 (Forall_lookup _ _) Hold k). now rewrite list_lookup_fmap, E.
  - constructor; [exact Hx|apply IH].
Qed.

Lemma step_inv w e : allowed e -> inv w -> inv (step rt w e).
Proof.
  intros Hall Hinv. unfold step. destruct (process w); [|assumption..].
  destruct e as [h c name|h|h msg|h| |ms|l|v].
  - destruct (handlers w !! h) eqn:E; [assumption|].
    destruct Hinv as (Ht & Hp & Hb & Hr). repeat split; try apply Ht; try apply Hr.
    + unfold polls_ok in *. cbn. eapply Forall_impl; [exact Hp|]. cbn.
      intros t Hpt h' Hcb. specialize (Hpt h' Hcb).
      rewrite lookup_insert_ne; [assumption|]. intros ->. rewrite E in Hpt. discriminate.
    + intros h' hd. cbn. destruct (decide (h = h')) as [->|Hne].
      * rewrite lookup_insert_eq. now intros [= <-].
      * rewrite lookup_insert_ne by assumption. apply Hb.
  - case_decide; [|assumption]. apply top_level_inv.
    destruct Hinv as (Ht & Hp & Hb & Hr).
    split; [|split; [|split]]; by_keeps keeps_start; assumption.
  - case_decide as Hh; [|assumption]. apply top_level_inv.
    destruct Hinv as (Ht & Hp & Hb & Hr). split; [|split; [|split]].
    + apply keeps_plain_onMessage; [constructor|assumption].
    + now apply (keeps_polls_onMessage h msg w).
    + apply keeps_plain_onMessage; [constructor|assumption].
    + now apply keeps_registry_onMessage.
  - case_decide; [|assumption]. apply top_level_inv.
    destruct Hinv as (Ht & Hp & Hb & Hr).
    split; [|split; [|split]]; by_keeps keeps_stop; assumption.
  - now apply fire_inv.
  - exact Hinv.
  - destruct Hinv as (Ht & Hp & Hb & Hr). destruct Hall as [Hl _].
    repeat split; try apply Ht; try assumption; [|apply Hr].
    apply rebuilt_wf; [|exact Hl]. apply combine_snd_Forall, Hr.
  - destruct Hinv as (Ht & Hp & Hb & Hr).
    repeat split; try apply Ht; try assumption; [|apply Hr].
    cbn. apply Forall_app. split; [apply Hr|]. constructor; [exact Hall|constructor].
Qed.

Theorem reachable_inv w : reachable rt w -> inv w.
Proof. induction 1; [apply inv_init|now apply step_inv]. Qed.

End Methods.

(** * Single calls *)

Lemma validate_without_list (rt : runtime) (w : world) :
  _validateMessage rt subscribe_without_list w =
  (inr (TypeError (TypeError_message rt (ReadOfUndefined "forEach"))), set_sensors [] w).
Proof. reflexivity. Qed.

(** C2 (the code departs from it): when the [list] property is absent,
    [json.list !== null] holds, so validation does not succeed and the registry
    is not left as it was: it is emptied, and [json.list.forEach] throws a
    TypeError. *)
Theorem C2_absent_list_clears_registry (rt : runtime) (w : world) :
  prop (JObj [("type", JStr "subscribe"); ("target", JStr "heatpump")]) "list" = None /\
  JSON_parse subscribe_without_list =
    Some (JObj [("type", JStr "subscribe"); ("target", JStr "heatpump")]) /\
  _validateMessage rt subscribe_without_list w =
    (inr (TypeError (TypeError_message rt (ReadOfUndefined "forEach"))), set_sensors [] w).
Proof. split; [reflexivity|]. split; [reflexivity|]. apply validate_without_list. Qed.

(** C1 (the code departs from it): a subscribe message with a valid type and
    target and no [list] property makes validation fail with a TypeError
    after the registry was emptied; [onMessage] answers with an error message,
    and the shared sensor registry is no longer what it was before the call. *)
Theorem C1_failed_validation_clears_registry (rt : runtime) (h : nat) (w : world) :
  let text := TypeError_message rt (ReadOfUndefined "forEach") in
  let w' := snd (onMessage rt h subscribe_without_list w) in
  (exists e, _validateMessage rt subscribe_without_list w = (inr e, set_sensors [] w)) /\
  onMessage rt h subscribe_without_list w = _send rt h (ErrorMsg text) (set_sensors [] w) /\
  sensors w' = [] /\
  (failures (config_of w h) = false ->
     handlers w' = alter (deliver (error_text text)) h (handlers w)).
Proof.
  cbv zeta.
  assert (Hon : onMessage rt h subscribe_without_list w
                = _send rt h (ErrorMsg (TypeError_message rt (ReadOfUndefined "forEach")))
                    (set_sensors [] w)).
  { unfold onMessage, attempt, bind. rewrite validate_without_list. reflexivity. }
  split; [eexists; apply validate_without_list|]. split; [exact Hon|]. rewrite Hon. split.
  - unfold _send, _someMillis. mrun.
    destruct (failures _); [destruct (Qlt_bool _ _)|]; reflexivity.
  - intros Hf. rewrite _send_disabled by exact Hf. reflexivity.
Qed.

(** The registry the process starts with is not empty, so the failed
    validation above is visible from the first message on. *)
Example registry_cleared_from_start :
  let w := run rt_half init [New 1 quiet "client"; OnMessage 1 subscribe_without_list] in
  sensors init = [heatpump1] /\ sensors w = [] /\
  ws_sent (h_ws (handlers w !!! 1)) = [error_text "TypeError"].
Proof. cbv zeta. repeat split; vm_compute; reflexivity. Qed.

(** Validation that ends in a ValidationError or a SyntaxError left the world as it was. *)
Lemma validation_error_atomic rt msg w e w' :
  _validateMessage rt msg w = (inr e, w') ->
  (forall m, e <> TypeError m) -> w' = w.
Proof.
  intros H Hne.
  destruct (String.eqb_spec msg EmptyString) as [->|Hmsg].
  { rewrite validate_empty in H. congruence. }
  destruct (JSON_parse msg) as [json|] eqn:Hp.
  2:{ rewrite validate_unparsable in H by assumption. congruence. }
  destruct (accepted json) eqn:Hacc.
  - rewrite (validate_accepted rt msg json w Hmsg Hp Hacc) in H.
    destruct (prop json "list") as [[]|]; try discriminate;
      injection H as <- <-; exfalso; eapply Hne; reflexivity.
  - destruct (validate_rejected rt msg json w Hmsg Hp Hacc) as [e' He]. congruence.
Qed.

(** C3 (the code departs from it): after [start()] and [stop()] on a handler
    with fault simulation the corruption timer is still pending; it fires,
    sets a sensor's state to ERROR and arms a death timer again, and that death
    timer ends the process. *)
Theorem C3_timers_fire_after_stop :
  let w := run rt_half init [New 1 faulty "client"; Start 1; Stop 1] in
  map cb (timers w) = [Corrupt 1] /\
  sensors (step rt_half w Fire) = [heatpump1_failed] /\
  map cb (timers (step rt_half w Fire)) = [Corrupt 1; Die 1] /\
  process (run rt_half w [Fire; Fire; Fire; Fire]) = Exited.
Proof. cbv zeta. repeat split; vm_compute; reflexivity. Qed.

(** ** Rounding *)

Section Rounding.
Local Open Scope Q_scope.

Lemma pow2_pos e : 0 < pow2 e.
Proof.
  unfold pow2. destruct (Z.leb_spec 0 e).
  - change 0 with (inject_Z 0). rewrite <- Zlt_Qlt. now apply Z.pow_pos_nonneg.
  - reflexivity.
Qed.

Lemma pow2_nonpos e : (e <= 0)%Z -> pow2 e == 1 / inject_Z (2 ^ (- e)).
Proof.
  intros He. unfold pow2. destruct (Z.leb_spec 0 e).
  - assert (e = 0%Z) by lia. subst. reflexivity.
  - assert (Hp : (0 < 2 ^ (- e))%Z) by (apply Z.pow_pos_nonneg; lia).
    unfold Qeq, Qdiv, Qmult, Qinv, inject_Z. cbn.
    destruct (2 ^ (- e))%Z eqn:E; try lia. cbn. lia.
Qed.

Lemma ilog2_spec x : 0 < x -> pow2 (ilog2 x) <= x.
Proof.
  intros Hx. unfold ilog2. destruct x as [a b]. cbn [Qnum Qden].
  set (k := (Z.log2 a - Z.log2 (Z.pos b))%Z).
  destruct (Qle_bool (pow2 k) (a # b)) eqn:E; [now apply Qle_bool_iff|].
  unfold Qlt in Hx. cbn in Hx.
  assert (Ha : (0 < a)%Z) by lia.
  destruct (Z.log2_spec a Ha) as [Ha1 _].
  destruct (Z.log2_spec (Z.pos b) eq_refl) as [_ Hb2].
  pose proof (Z.log2_nonneg a) as Hla. pose proof (Z.log2_nonneg (Z.pos b)) as Hlb.
  unfold pow2. destruct (Z.leb_spec 0 (k - 1)) as [Hk|Hk].
  - unfold Qle. cbn. rewrite Z.mul_1_r.
    apply Z.le_trans with (2 ^ Z.log2 a)%Z; [|exact Ha1].
    replace (Z.log2 a) with ((k - 1) + Z.succ (Z.log2 (Z.pos b)))%Z by (unfold k; lia).
    rewrite Z.pow_add_r by lia.
    apply Z.mul_le_mono_nonneg_l; [apply Z.pow_nonneg; lia|lia].
  - assert (Hp : (0 < 2 ^ (- (k - 1)))%Z) by (apply Z.pow_pos_nonneg; lia).
    unfold Qle. cbn. rewrite Z2Pos.id by exact Hp.
    apply Z.le_trans with (2 ^ Z.succ (Z.log2 (Z.pos b)))%Z; [lia|].
    replace (Z.succ (Z.log2 (Z.pos b))) with (Z.log2 a + - (k - 1))%Z by (unfold k; lia).
    rewrite Z.pow_add_r by lia.
    apply Z.mul_le_mono_nonneg_r; [lia|exact Ha1].
Qed.

Lemma rne_int k : rne (inject_Z k) = k.
Proof.
  unfold rne. rewrite Qfloor_Z.
  replace (Qcompare (inject_Z k - inject_Z k) (1 # 2)) with Lt; [reflexivity|].
  symmetry. apply Qlt_alt. unfold Qminus. rewrite Qplus_opp_r. reflexivity.
Qed.

Lemma rne_range x : (Qfloor x <= rne x <= Qfloor x + 1)%Z.
Proof.
  unfold rne. destruct (Qcompare _ _); [destruct (Z.even _)|..]; lia.
Qed.

Lemma rne_mono x y : x <= y -> (rne x <= rne y)%Z.
Proof.
  intros Hxy. pose proof (Qfloor_resp_le x y Hxy) as Hf.
  destruct (Z.eq_dec (Qfloor x) (Qfloor y)) as [E|N].
  - unfold rne. rewrite <- E. set (f := Qfloor x).
    assert (Hd : x - inject_Z f <= y - inject_Z f) by (unfold Qminus; now apply Qplus_le_l).
    destruct (Qcompare (x - inject_Z f) (1 # 2)) eqn:Cx;
    destruct (Qcompare (y - inject_Z f) (1 # 2)) eqn:Cy;
      try (destruct (Z.even f)); try lia; exfalso;
      repeat match goal with
             | H : Qcompare _ _ = Eq |- _ => apply Qeq_alt in H
             | H : Qcompare _ _ = Lt |- _ => apply Qlt_alt in H
             | H : Qcompare _ _ = Gt |- _ => apply Qgt_alt in H
             end; lra.
  - pose proof (rne_range x). pose proof (rne_range y). lia.
Qed.

(** Rounding stays within an integer bound below 2^53. *)
Lemma fl_bounds x m :
  0 <= x -> x <= inject_Z m -> (m < 2 ^ 53)%Z -> 0 <= fl x /\ fl x <= inject_Z m.
Proof.
  intros H0 Hm Hlt. unfold fl. destruct (Qcompare x 0) eqn:C.
  - split; [apply Qle_refl|]. apply Qeq_alt in C. rewrite C in Hm. exact Hm.
  - apply Qlt_alt in C. exfalso. now apply (Qlt_not_le _ _ C).
  - apply Qgt_alt in C. unfold fl_pos.
    set (e := Z.max (ilog2 x - 52) (-1074)).
    assert (He : (e <= 0)%Z).
    { destruct (Z.le_gt_cases (ilog2 x) 52) as [|Hbig]; [unfold e; lia|]. exfalso.
      pose proof (ilog2_spec x C) as Hs. unfold pow2 in Hs.
      destruct (Z.leb_spec 0 (ilog2 x)); [|lia].
      assert (Hle : inject_Z (2 ^ ilog2 x) <= inject_Z m) by (eapply Qle_trans; eassumption).
      rewrite <- Zle_Qle in Hle.
      assert ((2 ^ 53 <= 2 ^ ilog2 x)%Z) by (apply Z.pow_le_mono_r; lia). lia. }
    clearbody e. pose proof (pow2_pos e) as Hp.
    assert (Hk : inject_Z m / pow2 e == inject_Z (m * 2 ^ (- e))).
    { rewrite (pow2_nonpos e He). rewrite inject_Z_mult. field.
      intros Hz. assert (Hp2 : (0 < 2 ^ (- e))%Z) by (apply Z.pow_pos_nonneg; lia).
      unfold Qeq in Hz. cbn in Hz. lia. }
    split.
    + apply Qmult_le_0_compat; [|now apply Qlt_le_weak].
      change 0 with (inject_Z 0). rewrite <- Zle_Qle. rewrite <- (rne_int 0).
      apply rne_mono. apply Qle_shift_div_l; [exact Hp|]. now rewrite Qmult_0_l.
    + assert (Hr : (rne (x / pow2 e) <= m * 2 ^ (- e))%Z).
      { rewrite <- (rne_int (m * 2 ^ (- e))). apply rne_mono. rewrite <- Hk.
        apply Qmult_le_compat_r; [exact Hm|]. apply Qinv_le_0_compat. now apply Qlt_le_weak. }
      apply Qle_trans with (inject_Z (m * 2 ^ (- e)) * pow2 e).
      * apply Qmult_le_compat_r; [now rewrite <- Zle_Qle|now apply Qlt_le_weak].
      * rewrite <- Hk. apply Qle_lteq. right. field. intros Hz. rewrite Hz in Hp.
        now apply (Qlt_irrefl 0).
Qed.

End Rounding.

(** [toFixed(0)] of a number that is not negative. *)
Lemma toFixed0_nearest x :
  (0 <= x)%Q ->
  (inject_Z (toFixed0 x) - (1 # 2) <= x)%Q /\ (x < inject_Z (toFixed0 x) + (1 # 2))%Q.
Proof.
  intros H0. unfold toFixed0. apply Qle_bool_iff in H0 as ->.
  pose proof (Qfloor_le (x + (1 # 2))) as H1. pose proof (Qlt_floor (x + (1 # 2))) as H2.
  rewrite inject_Z_plus in H2. change (inject_Z 1) with 1%Q in H2. split; lra.
Qed.

Lemma toFixed0_bounds x m :
  (0 <= x)%Q -> (x <= inject_Z m)%Q -> (0 <= toFixed0 x <= m)%Z.
Proof.
  intros H0 Hm. destruct (toFixed0_nearest x H0) as [H1 H2]. split.
  - apply Z.lt_succ_r. rewrite Zlt_Qlt. unfold Z.succ. rewrite inject_Z_plus.
    change (inject_Z 1) with 1%Q. change (inject_Z 0) with 0%Q. lra.
  - apply Z.lt_succ_r. rewrite Zlt_Qlt. unfold Z.succ. rewrite inject_Z_plus.
    change (inject_Z 1) with 1%Q. lra.
Qed.

Section Claims.
Variable rt : runtime.

Lemma _scheduleDeath_eq h w :
  _scheduleDeath rt h w =
  (inl tt,
   let secs := drawn_secs rt w h in
   let w1 := arm (Corrupt h) (times secs 5000) (set_draws (S (draws w)) w) in
   alter_handler h (set_death (Some (next_tid w1))) (arm (Die h) (times secs 15000) w1)).
Proof. reflexivity. Qed.

(** The index the corruption closure computes for an array of [n]
    elements. *)
Lemma drawn_index_bounds r n :
  (0 <= r)%Q -> (r < 1)%Q -> (1 <= n < 2 ^ 32)%Z ->
  let x := fl (r * (inject_Z n - 1)) in
  (0 <= x)%Q /\ (0 <= toFixed0 x <= n - 1)%Z.
Proof.
  intros Hr0 Hr1 Hn x.
  assert (Hn1 : (inject_Z n - 1 == inject_Z (n - 1))%Q).
  { unfold Z.sub. rewrite inject_Z_plus. reflexivity. }
  assert (Hm0 : (0 <= inject_Z (n - 1))%Q) by (change 0%Q with (inject_Z 0); rewrite <- Zle_Qle; lia).
  assert (Hx0 : (0 <= r * (inject_Z n - 1))%Q) by (rewrite Hn1; now apply Qmult_le_0_compat).
  assert (Hx1 : (r * (inject_Z n - 1) <= inject_Z (n - 1))%Q).
  { rewrite Hn1. rewrite <- (Qmult_1_l (inject_Z (n - 1))) at 2.
    apply Qmult_le_compat_r; [now apply Qlt_le_weak|assumption]. }
  destruct (fl_bounds _ (n - 1) Hx0 Hx1) as [Hf0 Hf1]; [lia|].
  split; [exact Hf0|]. now apply toFixed0_bounds.
Qed.

Lemma stop_eq h w :
  stop h w =
  (inl tt,
   let w1 := match h_timeout (handlers w !!! h) with Some id => disarm id w | None => w end in
   match h_death (handlers w !!! h) with Some id => disarm id w1 | None => w1 end).
Proof.
  unfold stop. mrun.
  destruct (h_timeout (handlers w !!! h)), (h_death (handlers w !!! h)); reflexivity.
Qed.

Lemma filter_filter_same {A} (p : A -> bool) l :
  List.filter p (List.filter p l) = List.filter p l.
Proof.
  induction l as [|x l IH]; cbn; [reflexivity|].
  destruct (p x) eqn:E; cbn; rewrite ?E, IH; reflexivity.
Qed.

Lemma filter_twice {A} (p q : A -> bool) l :
  List.filter q (List.filter p (List.filter q (List.filter p l)))
  = List.filter q (List.filter p l).
Proof.
  induction l as [|x l IH]; cbn; [reflexivity|].
  destruct (p x) eqn:Ep; cbn; [|assumption].
  destruct (q x) eqn:Eq; cbn; [|assumption].
  rewrite Ep. cbn. rewrite Eq. now f_equal.
Qed.

(** [stop()] a second time changes nothing. *)
Lemma stop_idempotent h w : snd (stop h (snd (stop h w))) = snd (stop h w).
Proof.
  rewrite !stop_eq. cbn [snd].
  destruct (h_timeout (handlers w !!! h)) as [i|] eqn:Ei,
           (h_death (handlers w !!! h)) as [j|] eqn:Ej;
    cbn; rewrite ?Ei, ?Ej; cbn; rewrite ?Ei, ?Ej; unfold disarm, set_timers; cbn;
    try reflexivity; f_equal; auto using filter_twice, filter_filter_same.
Qed.

Lemma obj_get_set_eq k v o : obj_get k (obj_set k v o) = Some v.
Proof.
  induction o as [|[k' v'] o IH]; cbn.
  - now rewrite String.eqb_refl.
  - destruct (String.eqb k' k) eqn:E; cbn; rewrite E; [reflexivity|assumption].
Qed.

Lemma obj_get_set_ne k k' v o : k' <> k -> obj_get k' (obj_set k v o) = obj_get k' o.
Proof.
  intros Hne. induction o as [|[k0 v0] o IH]; cbn.
  - destruct (String.eqb_spec k k'); [congruence|reflexivity].
  - destruct (String.eqb_spec k0 k) as [->|Hk]; cbn.
    + destruct (String.eqb_spec k k'); [congruence|reflexivity].
    + destruct (String.eqb k0 k'); [reflexivity|assumption].
Qed.

Lemma corrupt_callback_eq h w :
  corrupt_callback rt h w =
  bind (assign_state rt (drawn_index rt w)) (fun _ => _scheduleDeath rt h)
       (set_draws (S (draws w)) w).
Proof. reflexivity. Qed.

Lemma _scheduleDeath_returns h w : fst (_scheduleDeath rt h w) = inl tt.
Proof. reflexivity. Qed.

Lemma _scheduleDeath_sensors h w : sensors (snd (_scheduleDeath rt h w)) = sensors w.
Proof. reflexivity. Qed.

(** C10 (amended): with a registry that is not empty the index the corruption
    closure computes is the integer nearest to the product it rounds, within
    [0, length - 1].  If the element there is an object, its state becomes
    ERROR, its other properties, the length of the registry and all other
    elements stay, and the closure goes on; if it is an array, the registry
    reads as before; if it is null or a primitive value, the assignment
    throws a TypeError and the registry stays.  With an empty registry the
    element is [undefined] and the assignment throws a TypeError. *)
Theorem C10_corruption_by_element h w :
  random_in_range rt -> (Z.of_nat (length (sensors w)) < 2 ^ 32)%Z ->
  let n := Z.of_nat (length (sensors w)) in
  let x := fl (next_draw rt w * (inject_Z n - 1)) in
  let i := drawn_index rt w in
  let w' := snd (corrupt_callback rt h w) in
  (sensors w <> [] ->
     (inject_Z i - (1 # 2) <= x)%Q /\ (x < inject_Z i + (1 # 2))%Q /\
     (0 <= i <= n - 1)%Z /\
     exists v, sensors w !! Z.to_nat i = Some v /\
       match v with
       | JObj o =>
           let o' := obj_set "state" (JNum ERROR) o in
           fst (corrupt_callback rt h w) = inl tt /\
           sensors w' = <[Z.to_nat i := JObj o']> (sensors w) /\
           obj_get "state" o' = Some (JNum ERROR) /\
           (forall k, k <> "state" -> obj_get k o' = obj_get k o) /\
           length (sensors w') = length (sensors w) /\
           (forall j, j <> Z.to_nat i -> sensors w' !! j = sensors w !! j)
       | JArr _ =>
           fst (corrupt_callback rt h w) = inl tt /\ sensors w' = sensors w
       | _ =>
           (exists m, fst (corrupt_callback rt h w) = inr (TypeError m)) /\
           sensors w' = sensors w
       end) /\
  (sensors w = [] ->
     sensor_at (sensors w) i = None /\
     corrupt_callback rt h w =
       (inr (TypeError (TypeError_message rt (WriteToUndefined "state"))),
        set_draws (S (draws w)) w)).
Proof.
  intros Hrt Hlen n x i w'. split.
  - intros Hne.
    assert (Hn : (1 <= n < 2 ^ 32)%Z)
      by (unfold n in *; destruct (sensors w); [contradiction|cbn [length] in *; lia]).
    destruct (Hrt (draws w)) as [Hr0 Hr1].
    destruct (drawn_index_bounds _ n Hr0 Hr1 Hn) as [Hx0 Hi].
    fold (next_draw rt w) in Hx0, Hi. fold x in Hx0, Hi.
    change (toFixed0 x) with i in Hi.
    destruct (toFixed0_nearest x Hx0) as [Hn1 Hn2]. change (toFixed0 x) with i in Hn1, Hn2.
    split; [exact Hn1|]. split; [exact Hn2|]. split; [exact Hi|].
    destruct (lookup_lt_is_Some_2 (sensors w) (Z.to_nat i)) as [v Hv]; [unfold n in Hi; lia|].
    exists v. split; [exact Hv|].
    set (w0 := set_draws (S (draws w)) w).
    assert (Hat : sensor_at (sensors w0) i = Some v).
    { unfold sensor_at. cbn [sensors set_draws w0].
      destruct (Z.leb_spec 0 i) as [_|]; [exact Hv|lia]. }
    assert (Hcb : corrupt_callback rt h w =
                  bind (assign_state rt i) (fun _ => _scheduleDeath rt h) w0)
      by apply corrupt_callback_eq.
    unfold w'. rewrite Hcb. unfold bind.
    destruct v as [|b|z|s|items|o].
    1-4: (assert (Ha : exists m, assign_state rt i w0 = (inr (TypeError m), w0))
            by (unfold assign_state; mrun; rewrite Hat; eexists; reflexivity);
          destruct Ha as [m ->]; split; [now exists m|reflexivity]).
    + assert (Ha : assign_state rt i w0 = (inl tt, w0))
        by (unfold assign_state; mrun; rewrite Hat; reflexivity).
      rewrite Ha. split; reflexivity.
    + assert (Ha : assign_state rt i w0 =
                   (inl tt, set_detached
                              (mutated (sensor_ids w0 !! Z.to_nat i)
                                 (JObj (obj_set "state" (JNum ERROR) o)) <$> detached w0)
                              (set_sensors (<[Z.to_nat i := JObj (obj_set "state" (JNum ERROR) o)]>
                                              (sensors w0)) w0)))
        by (unfold assign_state; mrun; rewrite Hat; reflexivity).
      rewrite Ha. cbv zeta. split; [reflexivity|]. split; [reflexivity|].
      split; [apply obj_get_set_eq|]. split; [intros k Hk; now apply obj_get_set_ne|].
      cbn. split; [apply length_insert|]. intros j Hj. now apply list_lookup_insert_ne.
  - intros Hempty. assert (Hat : sensor_at (sensors w) i = None).
    { rewrite Hempty. unfold sensor_at. now destruct (0 <=? i)%Z. }
    split; [exact Hat|]. rewrite corrupt_callback_eq. unfold bind, assign_state. mrun.
    cbn [sensors set_draws]. fold i. rewrite Hat. reflexivity.
Qed.

Lemma Qlt_bool_true a b : (a < b)%Q -> Qlt_bool a b = true.
Proof. apply Qlt_bool_iff. Qed.

Lemma Qlt_bool_false a b : ~ (a < b)%Q -> Qlt_bool a b = false.
Proof. intros H. apply not_true_iff_false. now rewrite Qlt_bool_iff. Qed.

(** What a message reads as when it is serialised in [w]. *)
Lemma payload_text msg w :
  payload msg w =
  match msg with
  | ErrorMsg e => JObj [("error", JStr e)]
  | AckMsg => JObj [("ack", JBool true)]
  | SensorsListMsg dateTime a =>
      JObj [("type", JStr "sensors_list"); ("dateTime", JStr dateTime);
            ("list", JArr (array_at w a))]
  end.
Proof. now destruct msg. Qed.

Lemma payload_same msg w w' : same_arrays w w' -> payload msg w' = payload msg w.
Proof.
  intros (Hs & Hi & Hd). destruct msg; try reflexivity.
  unfold payload, array_at. now rewrite Hs, Hi, Hd.
Qed.

Lemma sent_deliver h text w :
  has_handler h w ->
  ws_sent (h_ws (handlers (alter_handler h (deliver text) w) !!! h))
  = ws_sent (h_ws (handlers w !!! h)) ++ [text].
Proof. intros Hh. now rewrite alter_total. Qed.

Lemma fire_retry h msg w :
  failures (config_of w h) = true ->
  (next_draw rt w < errorProb (config_of w h))%Q ->
  only_resend h msg w ->
  only_resend h msg (fire rt w) /\ handlers (fire rt w) = handlers w /\
  draws (fire rt w) = S (draws w) /\ same_arrays w (fire rt w).
Proof.
  intros Hf Hq (t & Ht & Hcb). unfold fire. rewrite Ht. cbn [earliest].
  unfold top_level. mrun. rewrite Hcb. cbn [run_callback].
  rewrite _send_bug; [|exact Hf|now apply Qlt_bool_true].
  cbn [snd]. split; [|repeat split].
  eexists. split; [cbn; rewrite Ht; cbn; rewrite Nat.eqb_refl; reflexivity|reflexivity].
Qed.

Lemma fire_deliver h msg w :
  has_handler h w ->
  failures (config_of w h) = true ->
  ~ (next_draw rt w < errorProb (config_of w h))%Q ->
  only_resend h msg w ->
  ws_sent (h_ws (handlers (fire rt w) !!! h))
  = ws_sent (h_ws (handlers w !!! h)) ++ [JSON_stringify (payload msg w)] /\
  timers (fire rt w) = [].
Proof.
  intros Hh Hf Hq (t & Ht & Hcb). unfold fire. rewrite Ht. cbn [earliest].
  unfold top_level. mrun. rewrite Hcb. cbn [run_callback].
  rewrite _send_lucky; [|exact Hf|now apply Qlt_bool_false].
  cbn [snd]. split.
  - rewrite alter_total by exact Hh. reflexivity.
  - cbn. rewrite Ht. cbn. now rewrite Nat.eqb_refl.
Qed.

Lemma retries_unbounded h msg n w :
  failures (config_of w h) = true ->
  only_resend h msg w ->
  (forall k, k < n -> (Math_random rt (draws w + k) < errorProb (config_of w h))%Q) ->
  only_resend h msg (Nat.iter n (fire rt) w) /\
  handlers (Nat.iter n (fire rt) w) = handlers w /\
  draws (Nat.iter n (fire rt) w) = draws w + n /\
  same_arrays w (Nat.iter n (fire rt) w).
Proof.
  intros Hf H0. induction n as [|n IH]; intros Hdraws; simpl Nat.iter.
  - split; [assumption|split; [reflexivity|split; [lia|repeat split]]].
  - destruct IH as (Ho & Hh & Hd & Hs1 & Hs2 & Hs3); [intros k Hk; apply Hdraws; lia|].
    assert (Hcfg : config_of (Nat.iter n (fire rt) w) h = config_of w h)
      by (unfold config_of; now rewrite Hh).
    destruct (fire_retry h msg (Nat.iter n (fire rt) w)) as (Ho' & Hh' & Hd' & Ht1 & Ht2 & Ht3).
    + now rewrite Hcfg.
    + rewrite Hcfg. unfold next_draw. rewrite Hd. apply Hdraws. lia.
    + assumption.
    + repeat split; [assumption|congruence|lia|congruence..].
Qed.

(** C7: [_send] never throws.  With failures disabled, and with failures
    enabled and a draw not below [errorProb], the text of the message is
    appended to what the channel was sent, at once, and no timer is armed.
    With a draw below [errorProb] nothing is sent; one timer of
    [_someMillis()] is armed that runs [_send] on the same message, and as
    long as the draws stay below [errorProb] the retries go on, without
    bound; the first draw that is not below it sends the text. *)
Theorem C7_send_contract h msg w :
  has_handler h w ->
  let text :=
    JSON_stringify
      match msg with
      | ErrorMsg e => JObj [("error", JStr e)]
      | AckMsg => JObj [("ack", JBool true)]
      | SensorsListMsg dateTime a =>
          JObj [("type", JStr "sensors_list"); ("dateTime", JStr dateTime);
                ("list", JArr (array_at w a))]
      end in
  let sent := fun w0 => ws_sent (h_ws (handlers w0 !!! h)) in
  let p := errorProb (config_of w h) in
  let w' := snd (_send rt h msg w) in
  fst (_send rt h msg w) = inl tt /\
  (failures (config_of w h) = false ->
     sent w' = sent w ++ [text] /\ timers w' = timers w /\ draws w' = draws w) /\
  (failures (config_of w h) = true -> ~ (next_draw rt w < p)%Q ->
     sent w' = sent w ++ [text] /\ timers w' = timers w /\ draws w' = S (draws w)) /\
  (failures (config_of w h) = true -> (next_draw rt w < p)%Q ->
     let ms := anIntegerWithPrecision rt (frequency (config_of w h)) (1 # 5) (jitters w) in
     sent w' = sent w /\
     timers w' = timers w ++ [{| tid := next_tid w; due := clock w + effective_delay ms;
                                 delay := ms; cb := Resend h msg |}] /\
     draws w' = S (draws w) /\
     run_callback rt (Resend h msg) = _send rt h msg /\
     (timers w = [] ->
      forall n, (forall k, k < n -> (Math_random rt (S (draws w) + k) < p)%Q) ->
        let wn := Nat.iter n (fire rt) w' in
        only_resend h msg wn /\ sent wn = sent w /\
        (~ (Math_random rt (S (draws w) + n) < p)%Q ->
           sent (fire rt wn) = sent w ++ [text] /\ timers (fire rt wn) = []))).
Proof.
  intros Hh text sent p w'. split; [apply _send_returns|].
  assert (Htext : text = JSON_stringify (payload msg w))
    by (unfold text; now rewrite payload_text).
  split; [|split].
  - intros Hf. unfold w', sent. rewrite _send_disabled by exact Hf. cbn [snd].
    rewrite sent_deliver by exact Hh. rewrite Htext. repeat split.
  - intros Hf Hq. unfold w', sent. rewrite _send_lucky; [|exact Hf|now apply Qlt_bool_false].
    cbn [snd]. rewrite alter_total by exact Hh. rewrite Htext. repeat split.
  - intros Hf Hq ms. unfold w', sent.
    rewrite _send_bug; [|exact Hf|now apply Qlt_bool_true].
    cbn [snd]. do 4 (split; [reflexivity|]). intros Hempty n Hdraws.
    set (w1 := arm _ _ _).
    assert (Hc1 : config_of w1 h = config_of w h) by reflexivity.
    destruct (retries_unbounded h msg n w1) as (Ho & Hhs & Hd & Hsame).
    + exact Hf.
    + eexists. split; [cbn; rewrite Hempty; reflexivity|reflexivity].
    + intros k Hk. now apply Hdraws.
    + cbv zeta. split; [exact Ho|].
      assert (Hsent : ws_sent (h_ws (handlers (Nat.iter n (fire rt) w1) !!! h))
                      = ws_sent (h_ws (handlers w !!! h))).
      { unfold lookup_total, map_lookup_total. now rewrite Hhs. }
      split; [exact Hsent|]. intros Hlast.
      assert (Hcn : config_of (Nat.iter n (fire rt) w1) h = config_of w h)
        by (unfold config_of, lookup_total, map_lookup_total; now rewrite Hhs).
      destruct (fire_deliver h msg (Nat.iter n (fire rt) w1)) as [Hfd Hft].
      * unfold has_handler. rewrite Hhs. exact Hh.
      * now rewrite Hcn.
      * rewrite Hcn. unfold next_draw. rewrite Hd. exact Hlast.
      * exact Ho.
      * split; [|exact Hft]. rewrite Hfd, Hsent, Htext.
        rewrite (payload_same msg w1 _ Hsame). reflexivity.
Qed.

(** *** Change detection *)

Lemma _send_cases h msg w :
  let w' := snd (_send rt h msg w) in
  sensors w' = sensors w /\ old_sensors_list w' = old_sensors_list w /\
  ((handlers w' = alter (deliver (JSON_stringify (payload msg w))) h (handlers w) /\
    timers w' = timers w) \/
   (handlers w' = handlers w /\ exists t, timers w' = timers w ++ [t] /\ cb t = Resend h msg)).
Proof.
  cbv zeta.
  destruct (failures (config_of w h)) eqn:Hf;
    [destruct (Qlt_bool (next_draw rt w) (errorProb (config_of w h))) eqn:Hq|].
  - rewrite _send_bug by assumption. cbn. repeat split. right. split; [reflexivity|].
    eexists. split; reflexivity.
  - rewrite _send_lucky by assumption. cbn. repeat split. now left.
  - rewrite _send_disabled by assumption. cbn. repeat split. now left.
Qed.

Lemma array_at_current w : array_at w (sensors_id w) = sensors w.
Proof. unfold array_at. now rewrite Nat.eqb_refl. Qed.

(** X14: the poll closure never throws.  It compares the registry with
    [old_sensors_list], the last snapshot of the module.  If they are equal,
    nothing is sent and the snapshot stays; if they differ, the registry
    becomes the snapshot and one [sensors_list] message with the registry
    goes to [_send], which with failures disabled appends its text to what
    the channel was sent.  Either way the next poll timer is armed. *)
Theorem poll_tick_change_detection h w :
  registry_ok w -> has_handler h w -> h_buffer (handlers w !!! h) = [] ->
  let snapshot := JArr (sensors w) in
  let msg := SensorsListMsg (toISO rt (clock w)) (sensors_id w) in
  let text :=
    JSON_stringify
      (JObj [("type", JStr "sensors_list"); ("dateTime", JStr (toISO rt (clock w)));
             ("list", snapshot)]) in
  let sent := fun w0 => ws_sent (h_ws (handlers w0 !!! h)) in
  let w' := snd (poll_callback rt h w) in
  fst (poll_callback rt h w) = inl tt /\
  (old_sensors_list w = snapshot ->
     old_sensors_list w' = old_sensors_list w /\ sent w' = sent w /\
     timers w' = timers w ++ [new_timer (PollTick h) (next_delay rt w h) w]) /\
  (old_sensors_list w <> snapshot ->
     let w1 := set_old_sensors_list snapshot w in
     w' = rearm rt h (snd (_send rt h msg w1)) /\
     old_sensors_list w' = snapshot /\
     (failures (config_of w h) = false ->
        sent w' = sent w ++ [text] /\
        timers w' = timers w ++ [new_timer (PollTick h) (next_delay rt w h) w])).
Proof.
  intros [Hs Ho] Hh Hb snapshot msg text sent w'.
  destruct (String.eqb_spec (JSON_stringify (old_sensors_list w)) (JSON_stringify snapshot))
    as [E|NE].
  - assert (Hsame : old_sensors_list w = snapshot)
      by (apply JSON_stringify_inj; [assumption|now apply wf_arr|assumption]).
    assert (Hp : poll_callback rt h w = (inl tt, rearm rt h w))
      by (now apply poll_unchanged).
    unfold w'. rewrite Hp. split; [reflexivity|]. split; [|now intros H].
    intros _. split; [reflexivity|]. split; [|reflexivity].
    unfold sent, rearm. cbn [snd]. rewrite alter_total; [reflexivity|exact Hh].
  - assert (Hdiff : old_sensors_list w <> snapshot) by (intros E; apply NE; now rewrite E).
    assert (Hp : poll_callback rt h w =
                 (inl tt, rearm rt h (snd (_send rt h msg (set_old_sensors_list snapshot w)))))
      by (now apply poll_changed).
    unfold w'. rewrite Hp. split; [reflexivity|]. split; [now intros H|].
    intros _. cbv zeta. set (w1 := set_old_sensors_list snapshot w). cbn [snd].
    split; [reflexivity|].
    destruct (_send_cases h msg w1) as (_ & Ho2 & _). split; [exact Ho2|].
    intros Hf. rewrite (_send_disabled rt h msg w1) by exact Hf. cbn [snd].
    unfold sent, rearm. split.
    + rewrite alter_total by (apply has_handler_alter, Hh).
      cbn [h_ws set_timeout].
      change (handlers (arm ?c ?ms (set_jitters ?j ?w0))) with (handlers w0).
      rewrite (sent_deliver h _ w1 Hh). unfold text.
      rewrite payload_text. unfold msg. change (sensors_id w) with (sensors_id w1).
      rewrite array_at_current. reflexivity.
    + cbn. unfold new_timer, next_delay, config_of. cbn.
      change (alter (deliver ?t) h (handlers w)) with (handlers (alter_handler h (deliver t) w)).
      rewrite alter_total by exact Hh. reflexivity.
Qed.

(** *** Subscribe and unsubscribe *)

Lemma validate_inl msg json w w1 :
  _validateMessage rt msg w = (inl json, w1) ->
  accepted json = true /\ handlers w1 = handlers w /\ timers w1 = timers w /\
  next_tid w1 = next_tid w /\ clock w1 = clock w /\
  (prop json "list" = Some JNull -> w1 = w).
Proof.
  intros H.
  destruct (String.eqb_spec msg EmptyString) as [->|Hmsg]; [discriminate H|].
  destruct (JSON_parse msg) as [json'|] eqn:Hp.
  2:{ rewrite validate_unparsable in H by assumption. discriminate. }
  destruct (accepted json') eqn:Hacc.
  - rewrite (validate_accepted rt msg json' w Hmsg Hp Hacc) in H.
    destruct (prop json' "list") as [[| | | |items|]|] eqn:Hl; try discriminate;
      injection H as <- <-; rewrite Hl.
    + repeat split; auto.
    + destruct (replaced_all items w) as (_ & _ & _ & _ & Hh & Ht & Hn & Hc & _).
      repeat split; auto. discriminate.
  - destruct (validate_rejected rt msg json' w Hmsg Hp Hacc) as [e He]. congruence.
Qed.

Lemma onMessage_accepted h msg json w w1 :
  _validateMessage rt msg w = (inl json, w1) ->
  onMessage rt h msg w =
  if is_string (prop json "type") "subscribe" then _onSubscribe h w1
  else if is_string (prop json "type") "unsubscribe" then _onUnsubscribe rt h w1
  else (inl tt, w1).
Proof.
  intros H. destruct (validate_inl _ _ _ _ H) as (Hacc & _).
  destruct (accepted_object _ Hacc) as [o ->].
  unfold onMessage, attempt, bind. rewrite H. cbn.
  destruct (is_string _ _); [reflexivity|]. destruct (is_string _ _); reflexivity.
Qed.

Lemma poll_timers_handle h w t :
  polls_ok w -> In t (poll_timers h w) ->
  h_timeout <$> (handlers w !! h) = Some (Some (tid t)).
Proof.
  intros Hp Hin. apply filter_In in Hin as [Hin Hcb].
  destruct (cb t) as [h'| | |] eqn:E; try discriminate.
  apply Nat.eqb_eq in Hcb. subst h'.
  apply (proj1 (Forall_forall _ _) Hp t); [now apply list_elem_of_In|assumption].
Qed.

Lemma poll_timers_le1 h w : timers_ok w -> polls_ok w -> length (poll_timers h w) <= 1.
Proof.
  intros [Hd _] Hp.
  pose proof (NoDup_map_filter tid
    (fun t => match cb t with PollTick h' => Nat.eqb h' h | _ => false end) _ Hd) as Hnd.
  fold (poll_timers h w) in Hnd.
  destruct (poll_timers h w) as [|t1 [|t2 l]] eqn:E; cbn; try lia.
  exfalso.
  assert (H1 : In t1 (poll_timers h w)) by (rewrite E; now left).
  assert (H2 : In t2 (poll_timers h w)) by (rewrite E; right; now left).
  apply (poll_timers_handle h w t1 Hp) in H1. apply (poll_timers_handle h w t2 Hp) in H2.
  cbn in Hnd. apply NoDup_cons in Hnd as [Hnd _]. apply Hnd.
  rewrite H1 in H2. injection H2 as ->. left.
Qed.

Lemma poll_timers_idle h w :
  polls_ok w -> has_handler h w -> h_timeout (handlers w !!! h) = None -> poll_timers h w = [].
Proof.
  intros Hp Hh Hidle. destruct (poll_timers h w) as [|t l] eqn:E; [reflexivity|]. exfalso.
  assert (H1 : In t (poll_timers h w)) by (rewrite E; now left).
  apply (poll_timers_handle h w t Hp) in H1.
  rewrite (has_handler_total h w Hh) in H1. cbn in H1. rewrite Hidle in H1. discriminate.
Qed.

Lemma poll_timers_same h w w' : timers w' = timers w -> poll_timers h w' = poll_timers h w.
Proof. unfold poll_timers. now intros ->. Qed.

(** X15: a subscribe message that passes validation never throws.  If the
    handler holds a poll timer, nothing happens beyond what validation did;
    if it holds none, one poll timer of delay 0 is armed and [#timeout] holds
    it, and a further subscribe message that passes validation changes
    nothing beyond what validation does. *)
Theorem subscribe_validated h msg json w w1 :
  reachable rt w -> has_handler h w ->
  _validateMessage rt msg w = (inl json, w1) ->
  is_string (prop json "type") "subscribe" = true ->
  let w' := snd (onMessage rt h msg w) in
  fst (onMessage rt h msg w) = inl tt /\
  handlers w1 = handlers w /\ timers w1 = timers w /\
  (prop json "list" = Some JNull -> w1 = w) /\
  (forall id, h_timeout (handlers w !!! h) = Some id ->
     w' = w1 /\ (poll_timers h w <> [] -> length (poll_timers h w') = 1)) /\
  (h_timeout (handlers w !!! h) = None ->
     handlers w' = alter (set_timeout (Some (next_tid w))) h (handlers w) /\
     timers w' = timers w ++ [{| tid := next_tid w; due := clock w + 1; delay := 0;
                                 cb := PollTick h |}] /\
     length (poll_timers h w') = 1 /\
     forall msg2 json2 w2,
       _validateMessage rt msg2 w' = (inl json2, w2) ->
       is_string (prop json2 "type") "subscribe" = true ->
       snd (onMessage rt h msg2 w') = w2 /\ handlers w2 = handlers w' /\ timers w2 = timers w').
Proof.
  intros Hreach Hh Hval Hsub w'.
  destruct (reachable_inv rt w Hreach) as (Ht & Hp & _).
  destruct (validate_inl _ _ _ _ Hval) as (_ & Hhs & Hts & Hn & Hnow & Hnull).
  assert (Hon : onMessage rt h msg w = _onSubscribe h w1)
    by (rewrite (onMessage_accepted h msg json w w1 Hval), Hsub; reflexivity).
  assert (Htot : handlers w1 !!! h = handlers w !!! h) by now rewrite Hhs.
  unfold w'. rewrite Hon.
  split; [unfold _onSubscribe; mrun; now destruct (h_timeout _)|].
  do 3 (split; [assumption|]). split.
  - intros id Hid. rewrite (_onSubscribe_subscribed h w1 id) by now rewrite Htot.
    cbn [snd]. split; [reflexivity|]. intros Hne.
    rewrite (poll_timers_same h w w1 Hts).
    pose proof (poll_timers_le1 h w Ht Hp). destruct (poll_timers h w); [contradiction|cbn in *; lia].
  - intros Hidle. rewrite (_onSubscribe_idle h w1) by now rewrite Htot.
    cbn [snd]. set (w2 := alter_handler _ _ _).
    assert (Hpolls : poll_timers h w2 = [new_timer (PollTick h) 0 w1]).
    { unfold poll_timers, w2. cbn. rewrite List.filter_app, Hts.
      fold (poll_timers h w). rewrite (poll_timers_idle h w Hp Hh Hidle). cbn.
      now rewrite Nat.eqb_refl. }
    split; [cbn; now rewrite Hhs, Hn|].
    split; [cbn; unfold new_timer; now rewrite Hts, Hn, Hnow|].
    split; [now rewrite Hpolls|].
    intros msg2 json2 w3 Hval2 Hsub2.
    destruct (validate_inl _ _ _ _ Hval2) as (_ & Hhs2 & Hts2 & _).
    rewrite (onMessage_accepted h msg2 json2 w2 w3 Hval2), Hsub2.
    rewrite (_onSubscribe_subscribed h w3 (next_tid w1)).
    + now repeat split.
    + rewrite Hhs2. unfold w2. rewrite alter_total; [reflexivity|].
      unfold has_handler in *. cbn. now rewrite Hhs.
Qed.

Lemma poll_timers_disarmed h id w :
  polls_ok w -> h_timeout <$> (handlers w !! h) = Some (Some id) ->
  poll_timers h (disarm id w) = [].
Proof.
  intros Hp Hid. destruct (poll_timers h (disarm id w)) as [|t l] eqn:E; [reflexivity|].
  exfalso. assert (Hin : In t (poll_timers h (disarm id w))) by (rewrite E; now left).
  apply filter_In in Hin as [Hin Hcb]. cbn in Hin. apply filter_In in Hin as [Hin Hne].
  destruct (cb t) as [h'| | |] eqn:Ecb; try discriminate.
  apply Nat.eqb_eq in Hcb. subst h'.
  pose proof (proj1 (Forall_forall _ _) Hp t (proj2 (list_elem_of_In _ _) Hin) h Ecb) as Ht.
  rewrite Hid in Ht. injection Ht as ->. now rewrite Nat.eqb_refl in Hne.
Qed.

Lemma poll_timers_send h h' msg w :
  poll_timers h (snd (_send rt h' msg w)) = poll_timers h w.
Proof.
  destruct (_send_cases h' msg w) as (_ & _ & [[_ Ht]|[_ (t & Ht & Hcb)]]);
    unfold poll_timers; rewrite Ht; [reflexivity|].
  rewrite List.filter_app. cbn. rewrite Hcb. apply app_nil_r.
Qed.

(** X16: an unsubscribe message that passes validation never throws.  If the
    handler holds a poll timer, the timer is cancelled, [#timeout] is reset
    and an acknowledgment goes to [_send], which with failures disabled
    appends its text to what the channel was sent; if it holds none, nothing
    happens beyond what validation did. *)
Theorem unsubscribe_validated h msg json w w1 :
  reachable rt w -> has_handler h w ->
  _validateMessage rt msg w = (inl json, w1) ->
  is_string (prop json "type") "unsubscribe" = true ->
  let w' := snd (onMessage rt h msg w) in
  fst (onMessage rt h msg w) = inl tt /\
  handlers w1 = handlers w /\ timers w1 = timers w /\
  (prop json "list" = Some JNull -> w1 = w) /\
  (forall id, h_timeout (handlers w !!! h) = Some id ->
     let w2 := alter_handler h (set_timeout None) (disarm id w1) in
     w' = snd (_send rt h AckMsg w2) /\
     poll_timers h w' = [] /\
     h_timeout (handlers w' !!! h) = None /\
     JSON_stringify (payload AckMsg w2) = ack_text /\
     (failures (config_of w h) = false ->
        ws_sent (h_ws (handlers w' !!! h)) = ws_sent (h_ws (handlers w !!! h)) ++ [ack_text])) /\
  (h_timeout (handlers w !!! h) = None -> w' = w1).
Proof.
  intros Hreach Hh Hval Hun w'.
  destruct (reachable_inv rt w Hreach) as (Ht & Hp & _).
  destruct (validate_inl _ _ _ _ Hval) as (Hacc & Hhs & Hts & Hn & Hnow & Hnull).
  assert (Hsub : is_string (prop json "type") "subscribe" = false).
  { destruct (prop json "type") as [[]|]; try reflexivity. cbn in *.
    apply String.eqb_eq in Hun. subst. reflexivity. }
  assert (Hon : onMessage rt h msg w = _onUnsubscribe rt h w1)
    by (rewrite (onMessage_accepted h msg json w w1 Hval), Hsub, Hun; reflexivity).
  assert (Htot : handlers w1 !!! h = handlers w !!! h) by now rewrite Hhs.
  assert (Hh1 : has_handler h w1) by (unfold has_handler; now rewrite Hhs).
  unfold w'. rewrite Hon.
  split.
  { unfold _onUnsubscribe. mrun. destruct (h_timeout _); [apply _send_returns|reflexivity]. }
  do 3 (split; [assumption|]). split.
  - intros id Hid. set (w2 := alter_handler h (set_timeout None) (disarm id w1)).
    rewrite (_onUnsubscribe_subscribed rt h w1 id) by now rewrite Htot. fold w2.
    assert (Hh2 : has_handler h w2) by now apply has_handler_alter.
    assert (Hidle2 : h_timeout (handlers w2 !!! h) = None)
      by (unfold w2; now rewrite alter_total).
    split; [reflexivity|]. split; [|split; [|split; [reflexivity|]]].
    + rewrite poll_timers_send. unfold w2.
      change (poll_timers h (alter_handler h (set_timeout None) (disarm id w1)))
        with (poll_timers h (disarm id w1)).
      apply poll_timers_disarmed.
      * unfold polls_ok. now rewrite Hts, Hhs.
      * rewrite Hhs. apply handler_timeout_total. exact Hid.
    + destruct (_send_cases h AckMsg w2) as (_ & _ & [[Hhd _]|[Hhd _]]).
      * unfold lookup_total at 1, map_lookup_total.
        rewrite Hhd, lookup_alter_eq, (has_handler_total h w2 Hh2). cbn. exact Hidle2.
      * unfold lookup_total, map_lookup_total in *. now rewrite Hhd.
    + intros Hf. rewrite _send_disabled.
      2:{ unfold config_of. unfold w2. rewrite alter_total by assumption. cbn.
          rewrite Htot. exact Hf. }
      cbn [snd]. rewrite alter_total by assumption. unfold w2.
      rewrite alter_total by assumption. cbn. now rewrite Htot.
  - intros Hidle. now rewrite (_onUnsubscribe_idle rt h w1) by now rewrite Htot.
Qed.
End Claims.

(** * Handlers hold only their own timers *)

(** ** The handles a handler holds *)







Section Handles.
Variable rt : runtime.



















End Handles.

(** * One handler leaves the others alone *)

(** ** What a handler leaves alone *)








Section Frame.
Variable rt : runtime.
Variables h1 h2 : nat.
Hypothesis Hne : h1 <> h2.
Variable w0 : world.














End Frame.

Section Ownership.
Variable rt : runtime.


End Ownership.


(** C9 (the code departs from it): the last-seen snapshot is the variable
    [old_sensors_list] of the module, not a field of the handler.  The poll
    tick of handler 1 sends the registry and overwrites it; when handler 2
    subscribes afterwards, its own first poll tick finds nothing new and
    sends nothing. *)
Theorem C9_snapshot_is_shared :
  let w := run rt_half init [New 1 quiet "a"; New 2 quiet "b"; OnMessage 1 subscribe_null] in
  let w' := step rt_half w Fire in
  let w2 := step rt_half w' (OnMessage 2 subscribe_null) in
  acts_for 1 w Fire /\
  old_sensors_list w = JArr [] /\
  old_sensors_list w' = JArr [heatpump1] /\
  length (ws_sent (h_ws (handlers w' !!! 1))) = 1 /\
  acts_for 2 w2 Fire /\
  ws_sent (h_ws (handlers (step rt_half w2 Fire) !!! 2)) = [].
Proof.
  cbv zeta. split; [vm_compute; eexists; split; reflexivity|].
  do 3 (split; [vm_compute; reflexivity|]).
  split; [vm_compute; eexists; split; reflexivity|]. vm_compute. reflexivity.
Qed.

(** * Fault simulation, messages without a list, and instances *)

Lemma filter_swap {A} (p q : A -> bool) l :
  List.filter p (List.filter q l) = List.filter q (List.filter p l).
Proof.
  induction l as [|x l IH]; cbn; [reflexivity|].
  destruct (q x) eqn:Eq, (p x) eqn:Ep; cbn; rewrite ?Eq, ?Ep, ?IH; reflexivity.
Qed.

Section More.
Variable rt : runtime.

(** The state in which the poll closure of a reachable state runs. *)
Lemma poll_tick_state w t h :
  reachable rt w -> earliest (timers w) = Some t -> cb t = PollTick h ->
  let w1 := set_clock (Z.max (clock w) (due t)) (disarm (tid t) w) in
  registry_ok w1 /\ has_handler h w1 /\ h_buffer (handlers w1 !!! h) = [] /\
  fire rt w = top_level (poll_callback rt h) w1.
Proof.
  intros Hreach Ht Hcb w1. destruct (reachable_inv rt w Hreach) as (_ & Hp & Hb & Hr).
  apply earliest_In in Ht as Hin.
  pose proof (proj1 (Forall_forall _ _) Hp t Hin h Hcb) as Hid.
  assert (Hh : has_handler h w1).
  { unfold has_handler. cbn. destruct (handlers w !! h); [now eexists|discriminate]. }
  split; [exact Hr|]. split; [exact Hh|]. split.
  - apply (Hb h). apply (has_handler_total h w1 Hh).
  - unfold fire. rewrite Ht, Hcb. reflexivity.
Qed.

(** [stop()] cancels the poll timer and the death timer it holds. *)
Lemma stop_cancels_held_timers h w :
  polls_ok w -> has_handler h w ->
  let w' := snd (stop h w) in
  handlers w' = handlers w /\ poll_timers h w' = [] /\
  forall id, holds (handlers w !!! h) id -> Forall (fun t => tid t <> id) (timers w').
Proof.
  intros Hp Hh w'. unfold w'. rewrite stop_eq. cbn [snd]. cbv zeta.
  set (w1 := match h_timeout (handlers w !!! h) with Some id => disarm id w | None => w end).
  assert (Hsame : handlers w1 = handlers w) by (unfold w1; now destruct (h_timeout _)).
  assert (Hpoll : poll_timers h w1 = []).
  { unfold w1. destruct (h_timeout (handlers w !!! h)) as [id|] eqn:E.
    - apply poll_timers_disarmed; [assumption|now apply handler_timeout_total].
    - now apply poll_timers_idle. }
  assert (Hgone : forall id w2, Forall (fun t => tid t <> id) (timers (disarm id w2))).
  { intros id w2. cbn. apply Forall_forall. intros t Hin%list_elem_of_In%filter_In.
    destruct Hin as [_ Hne]. now apply negb_true_iff, Nat.eqb_neq in Hne. }
  split; [|split].
  - now destruct (h_death _).
  - destruct (h_death _); [|assumption]. unfold poll_timers. cbn [disarm timers set_timers].
    rewrite filter_swap. unfold poll_timers in Hpoll. rewrite Hpoll. reflexivity.
  - intros id [Hid|Hid].
    + assert (Forall (fun t => tid t <> id) (timers w1)) by (unfold w1; rewrite Hid; apply Hgone).
      destruct (h_death _); [|assumption]. now apply Forall_filter_keep.
    + rewrite Hid. apply Hgone.
Qed.

Lemma validate_unsubscribe_without_list w :
  _validateMessage rt unsubscribe_without_list w =
  (inr (TypeError (TypeError_message rt (ReadOfUndefined "forEach"))), set_sensors [] w).
Proof. reflexivity. Qed.

(** What [onMessage] makes of a message that fails with the registry
    emptied: the answer, and nothing about the subscription. *)
Lemma failed_message_keeps_subscription h msg e w :
  _validateMessage rt msg w = (inr e, set_sensors [] w) ->
  let w' := snd (onMessage rt h msg w) in
  h_timeout (handlers w' !!! h) = h_timeout (handlers w !!! h) /\
  poll_timers h w' = poll_timers h w /\ sensors w' = [].
Proof.
  intros Hval w'.
  assert (Hon : onMessage rt h msg w = _send rt h (ErrorMsg (message_of e)) (set_sensors [] w))
    by (unfold onMessage, attempt, bind; now rewrite Hval).
  unfold w'. rewrite Hon. set (w0 := set_sensors [] w).
  destruct (_send_cases rt h (ErrorMsg (message_of e)) w0) as (Hs & _ & Hcases).
  split; [|split; [|exact Hs]].
  - destruct Hcases as [[Hh _]|[Hh _]]; unfold lookup_total, map_lookup_total; rewrite Hh; cbn.
    + destruct (decide (is_Some (handlers w !! h))) as [[hd E]|N].
      * now rewrite lookup_alter_eq, E.
      * rewrite lookup_alter_eq. apply eq_None_not_Some in N. now rewrite N.
    + reflexivity.
  - apply (poll_timers_send rt h h (ErrorMsg (message_of e)) w0).
Qed.

End More.

Lemma rt_half_in_range : random_in_range rt_half.
Proof. intros i. split; [discriminate|reflexivity]. Qed.

(** C4 (the code departs from it): the corruption closure calls
    [_scheduleDeath] again.  After [start()] one corruption timer and one
    death timer are pending; once the corruption timer has fired, a second
    death timer is pending beside the first, the new corruption timer has
    another period, and [#death] holds only the newer death timer, so that
    [stop()] leaves the older one pending. *)
Theorem C4_death_timer_armed_again :
  let w0 := run rt_sixteenth init [New 1 faulty "client"; Start 1] in
  let w1 := step rt_sixteenth w0 Fire in
  let w2 := step rt_sixteenth w1 (Stop 1) in
  let pending := fun w => map (fun t => (tid t, cb t, delay t)) (timers w) in
  pending w0 = [(0, Corrupt 1, 30000%Z); (1, Die 1, 90000%Z)] /\
  h_death (handlers w0 !!! 1) = Some 1 /\
  pending w1 = [(1, Die 1, 90000%Z); (2, Corrupt 1, 50000%Z); (3, Die 1, 150000%Z)] /\
  h_death (handlers w1 !!! 1) = Some 3 /\
  pending w2 = [(1, Die 1, 90000%Z); (2, Corrupt 1, 50000%Z)].
Proof. cbv zeta. repeat split; vm_compute; reflexivity. Qed.

(** C5 (the code departs from it): the last-seen snapshot is one variable
    for all handlers.  Two handlers are subscribed; whenever the registry
    has changed, the poll tick of handler 1 comes first, sends the list
    and stores the snapshot, and the poll tick of handler 2 finds nothing
    new: handler 2 is sent nothing, neither the list it subscribed to nor
    the change. *)
Theorem C5_second_subscriber_misses_update :
  let d := "2023-01-01T00:00:00.000Z" in
  let w0 := run rt_half init [New 1 quiet "a"; New 2 quiet "b";
                              OnMessage 1 subscribe_null; OnMessage 2 subscribe_null] in
  let w1 := step rt_half w0 Fire in
  let w2 := step rt_half w1 Fire in
  let w3 := step rt_half w2 (OnMessage 1 (subscribe_with [heatpump1_failed])) in
  let w4 := step rt_half w3 Fire in
  let w5 := step rt_half w4 Fire in
  let sent := fun h w => ws_sent (h_ws (handlers w !!! h)) in
  acts_for 1 w0 Fire /\ acts_for 2 w1 Fire /\ acts_for 1 w3 Fire /\ acts_for 2 w4 Fire /\
  sensors w2 = [heatpump1] /\ sensors w5 = [heatpump1_failed] /\
  sent 1 w5 = [sensors_list_text d [heatpump1]; sensors_list_text d [heatpump1_failed]] /\
  sent 2 w5 = [] /\
  map cb (timers w5) = [PollTick 1; PollTick 2].
Proof.
  cbv zeta.
  do 4 (split; [vm_compute; eexists; split; reflexivity|]).
  repeat split; vm_compute; reflexivity.
Qed.

(** C6 (the code departs from it): a subscribe message without a [list]
    property fails in validation like every such message.  Whatever the
    state, it leaves [#timeout] and the pending poll timers of the handler
    as they were and empties the registry; sent to an idle handler, no
    poll is armed and the answer is an error. *)
Theorem C6_listless_subscribe_arms_no_poll (rt : runtime) (h : nat) (w : world) :
  let w' := snd (onMessage rt h subscribe_without_list w) in
  let w0 := run rt_half init [New 1 quiet "client"; OnMessage 1 subscribe_without_list] in
  (h_timeout (handlers w' !!! h) = h_timeout (handlers w !!! h) /\
   poll_timers h w' = poll_timers h w /\ sensors w' = []) /\
  (timers w0 = [] /\ h_timeout (handlers w0 !!! 1) = None /\
   ws_sent (h_ws (handlers w0 !!! 1)) = [error_text "TypeError"] /\ sensors w0 = []).
Proof.
  cbv zeta. split.
  - apply (failed_message_keeps_subscription rt h subscribe_without_list
             (TypeError (TypeError_message rt (ReadOfUndefined "forEach"))) w).
    apply validate_without_list.
  - repeat split; vm_compute; reflexivity.
Qed.

(** C8 (the code departs from it): an unsubscribe message without a [list]
    property fails in validation too.  Whatever the state, [#timeout] and
    the pending poll timers of the handler stay and the registry is
    emptied; sent to a subscribed handler, the poll timer stays pending,
    the handler stays subscribed, and the answer is an error, not an
    acknowledgment. *)
Theorem C8_listless_unsubscribe_keeps_poll (rt : runtime) (h : nat) (w : world) :
  let w' := snd (onMessage rt h unsubscribe_without_list w) in
  let w0 := run rt_half init [New 1 quiet "client"; OnMessage 1 subscribe_null;
                              OnMessage 1 unsubscribe_without_list] in
  (h_timeout (handlers w' !!! h) = h_timeout (handlers w !!! h) /\
   poll_timers h w' = poll_timers h w /\ sensors w' = []) /\
  (map (fun t => (tid t, cb t)) (timers w0) = [(0, PollTick 1)] /\
   h_timeout (handlers w0 !!! 1) = Some 0 /\
   ws_sent (h_ws (handlers w0 !!! 1)) = [error_text "TypeError"] /\ sensors w0 = []).
Proof.
  cbv zeta. split.
  - apply (failed_message_keeps_subscription rt h unsubscribe_without_list
             (TypeError (TypeError_message rt (ReadOfUndefined "forEach"))) w).
    apply validate_unsubscribe_without_list.
  - repeat split; vm_compute; reflexivity.
Qed.

(** A message that waits for its retry keeps the array of its time.  The
    poll tick defers the list; the back-channel binds [sensors] to a new
    array with a new record; the retry sends what the old array holds. *)
Example retried_message_keeps_its_array :
  let d := "2023-01-01T00:00:00.000Z" in
  let w0 := run rt_sixteenth init [New 1 faulty "client"; OnMessage 1 subscribe_null; Fire] in
  let w1 := step rt_sixteenth w0 (Backchannel [inr heatpump1_failed]) in
  let w2 := step rt_sixteenth w1 Fire in
  map cb (timers w0) = [Resend 1 (SensorsListMsg d 0); PollTick 1] /\
  ws_sent (h_ws (handlers w0 !!! 1)) = [] /\
  sensors w1 = [heatpump1_failed] /\
  ws_sent (h_ws (handlers w2 !!! 1)) = [sensors_list_text d [heatpump1]].
Proof. cbv zeta. repeat split; vm_compute; reflexivity. Qed.

(** And the old array shows what happens to an object it shares with the
    new one: the back-channel keeps the record in the new array, the
    corruption closure sets its state, and the retry sends the old array
    with the record in its new state. *)
Example retried_message_shares_objects :
  let d := "2023-01-01T00:00:00.000Z" in
  let w0 := run rt_second init [New 1 slow "client"; Start 1; OnMessage 1 subscribe_null; Fire] in
  let w1 := step rt_second w0 (Backchannel [inl 0]) in
  let w2 := step rt_second w1 Fire in
  let w3 := run rt_second w2 [Fire; Fire] in
  map cb (timers w0) = [Corrupt 1; Die 1; Resend 1 (SensorsListMsg d 0); PollTick 1] /\
  acts_for 1 w1 Fire /\ sensors w2 = [heatpump1_failed] /\
  ws_sent (h_ws (handlers w3 !!! 1)) = [sensors_list_text d [heatpump1_failed]].
Proof.
  cbv zeta. split; [vm_compute; reflexivity|].
  split; [vm_compute; eexists; split; reflexivity|]. split; vm_compute; reflexivity.
Qed.

(** C7, an instance: a handler with fault simulation is to send an
    acknowledgment.  The first draw is below [errorProb]: nothing is sent and
    one retry is armed after the 2000 ms of [_someMillis()]; the retry
    draws again, and the text reaches the channel. *)
Lemma C7_witness :
  let w := run rt_sixteenth init [New 1 faulty "client"] in
  let w' := snd (_send rt_sixteenth 1 AckMsg w) in
  ws_sent (h_ws (handlers w' !!! 1)) = [] /\
  map (fun t => (cb t, delay t)) (timers w') = [(Resend 1 AckMsg, 2000%Z)] /\
  ws_sent (h_ws (handlers (fire rt_sixteenth w') !!! 1)) = [ack_text] /\
  timers (fire rt_sixteenth w') = [].
Proof.
  intros w w'.
  assert (Hh : has_handler 1 w) by (vm_compute; eexists; reflexivity).
  assert (Hq : (next_draw rt_sixteenth w < errorProb (config_of w 1))%Q)
    by (vm_compute; reflexivity).
  assert (Hq' : ~ (Math_random rt_sixteenth (S (draws w) + 0) < errorProb (config_of w 1))%Q)
    by (vm_compute; discriminate).
  destruct (C7_send_contract rt_sixteenth 1 AckMsg w Hh) as (_ & _ & _ & Hbug).
  destruct (Hbug eq_refl Hq) as (Hs & Ht & _ & _ & Hretry).
  split; [exact Hs|]. split; [fold w' in Ht; rewrite Ht; reflexivity|].
  assert (Hnone : forall k, k < 0 ->
            (Math_random rt_sixteenth (S (draws w) + k) < errorProb (config_of w 1))%Q)
    by (intros k Hk; exfalso; inversion Hk).
  destruct (Hretry eq_refl 0 Hnone) as (_ & _ & Hfin).
  exact (Hfin Hq').
Defined.

(** C10, an instance: the corruption closure on the initial registry. *)
Lemma C10_witness :
  sensors (snd (corrupt_callback rt_half 1 init)) = [heatpump1_failed].
Proof.
  assert (Hlen : (Z.of_nat (length (sensors init)) < 2 ^ 32)%Z) by reflexivity.
  destruct (C10_corruption_by_element rt_half 1 init rt_half_in_range Hlen) as [Hne _].
  destruct Hne as (_ & _ & _ & v & Hv & Hcase); [discriminate|].
  vm_compute in Hv. injection Hv as <-. exact (proj1 (proj2 Hcase)).
Defined.

(** C10 as claimed fails: a client sends the list [[5]]; the registry is
    not empty, and when the corruption closure fires, the assignment to a
    property of the number throws: no sensor has its state set, and the
    exception ends the process. *)
Lemma C10_counterexample :
  let w := run rt_half init [New 1 faulty "client"; Start 1;
                             OnMessage 1 (unsubscribe_with [JNum 5])] in
  sensors w = [JNum 5] /\
  acts_for 1 w Fire /\ map cb (timers w) = [Corrupt 1; Die 1] /\
  sensors (step rt_half w Fire) = [JNum 5] /\
  process (step rt_half w Fire) = Crashed (TypeError "TypeError").
Proof.
  cbv zeta. split; [vm_compute; reflexivity|].
  split; [vm_compute; eexists; split; reflexivity|].
  repeat split; vm_compute; reflexivity.
Qed.

(** * More of what the handlers keep *)

(** ** What no method changes *)

Lemma configured_alter h h0 c name f w :
  (forall hd, h_config (f hd) = h_config hd /\ h_name (f hd) = h_name hd) ->
  configured h c name w -> configured h c name (alter_handler h0 f w).
Proof.
  intros Hf (hd & Hhd & Hc & Hn). unfold configured. cbn.
  destruct (decide (h0 = h)) as [->|Hne].
  - exists (f hd). rewrite lookup_alter_eq, Hhd. destruct (Hf hd) as [-> ->]. auto.
  - exists hd. rewrite lookup_alter_ne by assumption. auto.
Qed.

Lemma faults_ok_arm c ms w : is_fault c = false -> faults_ok w -> faults_ok (arm c ms w).
Proof.
  intros Hc H. unfold faults_ok. cbn. apply Forall_app. split; [exact H|].
  constructor; [|constructor]. cbn. rewrite Hc. discriminate.
Qed.

Lemma faults_ok_arm_fault c ms w hd :
  handlers w !! owner c = Some hd -> fault_simulation (h_config hd) ->
  faults_ok w -> faults_ok (arm c ms w).
Proof.
  intros Hhd Hf H. unfold faults_ok. cbn. apply Forall_app. split; [exact H|].
  constructor; [|constructor]. cbn. intros _. eauto.
Qed.

Lemma faults_ok_disarm id w : faults_ok w -> faults_ok (disarm id w).
Proof. intros H. unfold faults_ok. cbn. now apply Forall_filter_keep. Qed.

Lemma faults_ok_alter h f w :
  (forall hd, h_config (f hd) = h_config hd) -> faults_ok w -> faults_ok (alter_handler h f w).
Proof.
  intros Hf H. unfold faults_ok in *. cbn. eapply Forall_impl; [exact H|]. cbn.
  intros t Ht Hcb. destruct (Ht Hcb) as (hd & Hhd & Hfs).
  destruct (decide (h = owner (cb t))) as [->|Hne].
  - exists (f hd). rewrite lookup_alter_eq, Hhd. now rewrite Hf.
  - exists hd. now rewrite lookup_alter_ne.
Qed.

Ltac frame_atom :=
  first
    [ assumption
    | apply configured_alter; [intros; split; reflexivity|assumption]
    | apply faults_ok_arm; [reflexivity|assumption]
    | apply faults_ok_disarm; assumption
    | apply faults_ok_alter; [intros; reflexivity|assumption] ].

Section Lasting.
Variable rt : runtime.

Lemma keeps_lasting_send P h msg : lasting P -> keeps P (_send rt h msg).
Proof. intros H; destruct H; unfold _send, _someMillis; keeps_auto frame_atom. Qed.

Lemma keeps_lasting_stop P h : lasting P -> keeps P (stop h).
Proof. intros H; destruct H; unfold stop; keeps_auto frame_atom. Qed.

Lemma keeps_lasting_onMessage P h msg : lasting P -> keeps P (onMessage rt h msg).
Proof.
  intros H; destruct H;
    unfold onMessage, _validateMessage, get_prop, _onSubscribe, _onUnsubscribe, _send, _someMillis;
    keeps_auto frame_atom.
Qed.

Lemma keeps_lasting_poll P h : lasting P -> keeps P (poll_callback rt h).
Proof.
  intros H; destruct H;
    unfold poll_callback, _sendList, _send, _someMillis; keeps_auto frame_atom.
Qed.

Lemma keeps_lasting_assign P i : lasting P -> keeps P (assign_state rt i).
Proof. intros H; destruct H; unfold assign_state; keeps_auto frame_atom. Qed.

Lemma keeps_configured_scheduleDeath h0 h c name :
  keeps (configured h c name) (_scheduleDeath rt h0).
Proof. unfold _scheduleDeath. keeps_auto frame_atom. Qed.

Lemma keeps_process_scheduleDeath h p : keeps (fun w => process w = p) (_scheduleDeath rt h).
Proof. unfold _scheduleDeath. keeps_auto frame_atom. Qed.

(** [_scheduleDeath] arms its closures for the handler it runs on. *)
Lemma keeps_faults_scheduleDeath h c name :
  fault_simulation c ->
  keeps (fun w => faults_ok w /\ configured h c name w) (_scheduleDeath rt h).
Proof.
  intros Hc w [Hf Hh]. split; [|now apply keeps_configured_scheduleDeath].
  rewrite _scheduleDeath_eq. cbn [snd]. cbv zeta.
  destruct Hh as (hd & Hhd & <- & _).
  apply faults_ok_alter; [reflexivity|].
  apply (faults_ok_arm_fault (Die h) _ _ hd); [exact Hhd|exact Hc|].
  apply (faults_ok_arm_fault (Corrupt h) _ (set_draws _ w) hd); [exact Hhd|exact Hc|exact Hf].
Qed.

Lemma start_returns h w : fst (start rt h w) = inl tt.
Proof. unfold start. mrun. now destruct (_ && _). Qed.

Lemma stop_returns h w : fst (stop h w) = inl tt.
Proof. rewrite stop_eq. reflexivity. Qed.

Lemma keeps_configured_start h0 h c name : keeps (configured h c name) (start rt h0).
Proof. unfold start. keeps_auto idtac; auto using keeps_configured_scheduleDeath. Qed.

Lemma keeps_process_start h p : keeps (fun w => process w = p) (start rt h).
Proof. unfold start. keeps_auto idtac; auto using keeps_process_scheduleDeath. Qed.

Lemma keeps_faults_start h w : has_handler h w -> faults_ok w -> faults_ok (snd (start rt h w)).
Proof.
  intros Hh Hf. pose proof (has_handler_total h w Hh) as Hhd.
  unfold start. mrun.
  destruct (failures (h_config (handlers w !!! h)) && (0 <? timeToLive (h_config (handlers w !!! h)))%Z)
    eqn:E; [|exact Hf].
  apply andb_true_iff in E as [E1 E2]. apply Z.ltb_lt in E2.
  apply (keeps_faults_scheduleDeath h (h_config (handlers w !!! h)) (h_name (handlers w !!! h)));
    [now split|]. split; [exact Hf|]. eexists. split; [exact Hhd|]. split; reflexivity.
Qed.

Lemma keeps_configured_corrupt h0 h c name : keeps (configured h c name) (corrupt_callback rt h0).
Proof.
  unfold corrupt_callback.
  keeps_auto idtac; auto using keeps_lasting_assign, keeps_configured_scheduleDeath, lasting.
Qed.

Lemma keeps_faults_corrupt h c name :
  fault_simulation c ->
  keeps (fun w => faults_ok w /\ configured h c name w) (corrupt_callback rt h).
Proof.
  intros Hc. unfold corrupt_callback. keeps_auto idtac.
  - assumption.
  - apply keeps_and; apply keeps_lasting_assign; constructor.
  - now apply keeps_faults_scheduleDeath.
Qed.

Lemma keeps_configured_die h0 h c name : keeps (configured h c name) (die_callback h0).
Proof.
  unfold die_callback. keeps_auto idtac; auto using keeps_lasting_stop, lasting; frame_atom.
Qed.

Lemma keeps_faults_die h : keeps faults_ok (die_callback h).
Proof.
  unfold die_callback. keeps_auto idtac; auto using keeps_lasting_stop, lasting; frame_atom.
Qed.

(** ** What never throws *)

Lemma for_each_send_returns h l w : fst (for_each (_send rt h) l w) = inl tt.
Proof.
  revert w. induction l as [|msg l IH]; intros w; cbn [for_each]; [reflexivity|].
  unfold bind. rewrite _send_eta. apply IH.
Qed.

Lemma _sendList_returns h w : fst (_sendList rt h w) = inl tt.
Proof.
  unfold _sendList. mrun.
  match goal with |- context [for_each ?f ?l ?w'] =>
    pose proof (for_each_send_returns h l w') as H; destruct (for_each f l w') as [[[]|e] w2]
  end; [reflexivity|discriminate H].
Qed.

Lemma poll_callback_returns h w :
  Forall wf (sensors w) -> fst (poll_callback rt h w) = inl tt.
Proof.
  intros Hwf. unfold poll_callback, _someMillis. mrun.
  destruct (negb _); [|reflexivity].
  rewrite JSON_parse_stringify by now apply wf_arr.
  match goal with |- context [_sendList rt h ?w'] =>
    pose proof (_sendList_returns h w') as H; destruct (_sendList rt h w') as [[[]|e] w2]
  end; [reflexivity|discriminate H].
Qed.

Lemma _onSubscribe_returns h w : fst (_onSubscribe h w) = inl tt.
Proof. unfold _onSubscribe. mrun. now destruct (h_timeout _). Qed.

Lemma _onUnsubscribe_returns h w : fst (_onUnsubscribe rt h w) = inl tt.
Proof.
  destruct (h_timeout (handlers w !!! h)) as [id|] eqn:E.
  - rewrite (_onUnsubscribe_subscribed rt h w id E). apply _send_returns.
  - now rewrite _onUnsubscribe_idle.
Qed.

Lemma onMessage_returns h msg w : fst (onMessage rt h msg w) = inl tt.
Proof.
  destruct (_validateMessage rt msg w) as [[json|e] w1] eqn:Hval.
  - rewrite (onMessage_accepted rt h msg json w w1 Hval).
    destruct (is_string _ _); [apply _onSubscribe_returns|].
    destruct (is_string _ _); [apply _onUnsubscribe_returns|reflexivity].
  - unfold onMessage, attempt, bind. rewrite Hval. apply _send_returns.
Qed.

(** ** One turn of the event loop *)

Lemma top_level_returns m w : fst (m w) = inl tt -> top_level m w = snd (m w).
Proof. unfold top_level. destruct (m w) as [[[]|e] w']; [reflexivity|discriminate]. Qed.

Lemma top_level_configured m h c name w :
  configured h c name (snd (m w)) -> configured h c name (top_level m w).
Proof. unfold top_level. now destruct (m w) as [[[]|e] w']. Qed.

Lemma top_level_faults m w : faults_ok (snd (m w)) -> faults_ok (top_level m w).
Proof. unfold top_level. now destruct (m w) as [[[]|e] w']. Qed.

Lemma keeps_configured_callback cb0 h c name : keeps (configured h c name) (run_callback rt cb0).
Proof.
  destruct cb0; cbn [run_callback].
  - apply keeps_lasting_poll; constructor.
  - apply keeps_lasting_send; constructor.
  - apply keeps_configured_corrupt.
  - apply keeps_configured_die.
Qed.

Lemma step_configured h c name w e : configured h c name w -> configured h c name (step rt w e).
Proof.
  intros H. unfold step. destruct (process w); [|assumption..].
  destruct e as [h0 c0 name0|h0|h0 msg|h0| |ms|l|v]; try assumption.
  - destruct (handlers w !! h0) eqn:E; [assumption|].
    destruct H as (hd & Hhd & Hc & Hn). exists hd. cbn.
    rewrite lookup_insert_ne; [auto|]. intros ->. congruence.
  - case_decide; [|assumption]. now apply top_level_configured, keeps_configured_start.
  - case_decide; [|assumption]. apply top_level_configured, keeps_lasting_onMessage; [constructor|assumption].
  - case_decide; [|assumption]. apply top_level_configured, keeps_lasting_stop; [constructor|assumption].
  - unfold fire. destruct (earliest (timers w)) as [t|]; [|assumption].
    apply top_level_configured. mrun. now apply keeps_configured_callback.
Qed.

Lemma has_fault_configured h hd w :
  handlers w !! h = Some hd -> fault_simulation (h_config hd) ->
  forall w', configured h (h_config hd) (h_name hd) w' -> has_fault w'.
Proof. intros _ Hf w' (hd' & Hhd' & Hc & _). exists h, hd'. now rewrite Hc. Qed.

Lemma fire_sound w : process w = Running -> inv w -> sound w -> sound (fire rt w).
Proof.
  intros Hrun (Ht & Hp & Hb & Hr) [Hf _]. unfold fire.
  destruct (earliest (timers w)) as [t|] eqn:E; [|split; [assumption|congruence]].
  apply earliest_In in E.
  set (w1 := set_clock (Z.max (clock w) (due t)) (disarm (tid t) w)).
  assert (Hf1 : faults_ok w1) by now apply (faults_ok_disarm (tid t) w).
  assert (Hrun1 : process w1 = Running) by exact Hrun.
  change (sound (top_level (run_callback rt (cb t)) w1)).
  pose proof (proj1 (Forall_forall _ _) Hf t E) as Hown. cbn beta in Hown.
  destruct (cb t) as [h|h msg|h|h] eqn:Hcb; cbn [run_callback].
  - rewrite top_level_returns by (apply poll_callback_returns, Hr). split.
    + now apply keeps_lasting_poll; [constructor|].
    + intros Hne. exfalso. apply Hne.
      now apply (keeps_lasting_poll (fun w => process w = Running) h (lasting_process _) w1).
  - rewrite top_level_returns by apply _send_returns. split.
    + now apply keeps_lasting_send; [constructor|].
    + intros Hne. exfalso. apply Hne.
      now apply (keeps_lasting_send (fun w => process w = Running) h msg (lasting_process _) w1).
  - destruct (Hown eq_refl) as (hd & Hhd & Hfs). cbn in Hhd.
    assert (Hc1 : configured h (h_config hd) (h_name hd) w1) by (exists hd; auto).
    split.
    + apply top_level_faults.
      now apply (keeps_faults_corrupt h (h_config hd) (h_name hd) Hfs w1).
    + intros _. apply (has_fault_configured h hd w Hhd Hfs).
      now apply top_level_configured, keeps_configured_corrupt.
  - destruct (Hown eq_refl) as (hd & Hhd & Hfs). cbn in Hhd.
    assert (Hc1 : configured h (h_config hd) (h_name hd) w1) by (exists hd; auto).
    split.
    + now apply top_level_faults, keeps_faults_die.
    + intros _. apply (has_fault_configured h hd w Hhd Hfs).
      now apply top_level_configured, keeps_configured_die.
Qed.

Lemma step_sound w e : inv w -> sound w -> sound (step rt w e).
Proof.
  intros Hinv Hs. unfold step. destruct (process w) eqn:Hrun; [|assumption..].
  destruct Hs as [Hf Hp].
  destruct e as [h c name|h|h msg|h| |ms|l|v].
  - destruct (handlers w !! h) eqn:E; [now split|]. split; [|cbn; congruence].
    unfold faults_ok in *. cbn. eapply Forall_impl; [exact Hf|]. cbn.
    intros t Ht Hcb. destruct (Ht Hcb) as (hd & Hhd & Hfs). exists hd.
    rewrite lookup_insert_ne; [auto|]. intros ->. congruence.
  - case_decide as Hh; [|now split]. rewrite top_level_returns by apply start_returns. split.
    + now apply keeps_faults_start.
    + intros Hne. exfalso. apply Hne. now apply (keeps_process_start h Running w).
  - case_decide as Hh; [|now split]. rewrite top_level_returns by apply onMessage_returns. split.
    + now apply keeps_lasting_onMessage; [constructor|].
    + intros Hne. exfalso. apply Hne.
      now apply (keeps_lasting_onMessage (fun w => process w = Running) h msg (lasting_process _) w).
  - case_decide as Hh; [|now split]. rewrite top_level_returns by apply stop_returns. split.
    + now apply keeps_lasting_stop; [constructor|].
    + intros Hne. exfalso. apply Hne.
      now apply (keeps_lasting_stop (fun w => process w = Running) h (lasting_process _) w).
  - apply fire_sound; [assumption..|now split].
  - split; [exact Hf|cbn; congruence].
  - split; [exact Hf|cbn; congruence].
  - split; [exact Hf|cbn; congruence].
Qed.

Lemma reachable_sound w : reachable rt w -> sound w.
Proof.
  induction 1 as [|w e Hreach IH Hall].
  - split; [constructor|]. intros H. now exfalso.
  - apply step_sound; [now apply (reachable_inv rt)|assumption].
Qed.

Lemma stop_cancels_poll h w :
  polls_ok w -> has_handler h w ->
  handlers (snd (stop h w)) = handlers w /\ poll_timers h (snd (stop h w)) = [].
Proof.
  intros Hp Hh. rewrite stop_eq. cbn [snd]. cbv zeta.
  set (w1 := match h_timeout (handlers w !!! h) with Some id => disarm id w | None => w end).
  assert (Hsame : handlers w1 = handlers w) by (unfold w1; now destruct (h_timeout _)).
  assert (Hpoll : poll_timers h w1 = []).
  { unfold w1. destruct (h_timeout (handlers w !!! h)) as [id|] eqn:E.
    - apply poll_timers_disarmed; [assumption|now apply handler_timeout_total].
    - now apply poll_timers_idle. }
  split; [now destruct (h_death _)|].
  destruct (h_death _); [|assumption]. unfold poll_timers. cbn [disarm timers set_timers].
  rewrite filter_swap. unfold poll_timers in Hpoll. rewrite Hpoll. reflexivity.
Qed.

(** X1: no message ends the process.  [onMessage] lets no exception escape,
    whatever the text of the message and whatever the state: what
    [_validateMessage] throws is caught and answered, and neither the answer
    nor the subscription methods throw or exit. *)
Theorem message_never_ends_process h msg w :
  fst (onMessage rt h msg w) = inl tt /\
  process (step rt w (OnMessage h msg)) = process w.
Proof.
  split; [apply onMessage_returns|].
  unfold step. destruct (process w) eqn:Hrun; try assumption.
  case_decide; [|assumption]. rewrite top_level_returns by apply onMessage_returns.
  now apply (keeps_lasting_onMessage (fun w => process w = Running) h msg (lasting_process _) w).
Qed.

(** X2: a message that validation rejects with a ValidationError (an empty
    text, a wrong type, a wrong target) changes nothing, whatever list it
    carries: the state validation leaves is the state it found, and all
    [onMessage] does is to pass the error text to [_send]. *)
Theorem rejected_message_changes_nothing h msg w m w' :
  _validateMessage rt msg w = (inr (ValidationError m), w') ->
  w' = w /\ onMessage rt h msg w = _send rt h (ErrorMsg m) w.
Proof.
  intros Hval.
  assert (Hw : w' = w).
  { apply (validation_error_atomic rt msg w (ValidationError m) w' Hval). discriminate. }
  split; [exact Hw|]. unfold onMessage, attempt, bind. rewrite Hval, Hw. reflexivity.
Qed.

(** X3: the error each kind of bad message gets, in the order of the
    checks: the empty text; the text [null], whose [type] cannot be read; a
    value whose [type] is neither ['subscribe'] nor ['unsubscribe'] (among
    them every value that is no object), whatever its target and list; and
    a wrong target, whatever its list.  None of them changes the state. *)
Theorem validation_errors msg json w :
  _validateMessage rt EmptyString w = (inr (ValidationError "Invalid inbound message"), w) /\
  (msg <> EmptyString -> JSON_parse msg = Some JNull ->
     _validateMessage rt msg w =
       (inr (TypeError (TypeError_message rt (ReadOfNull "type"))), w)) /\
  (msg <> EmptyString -> JSON_parse msg = Some json -> json <> JNull ->
     is_string (prop json "type") "subscribe" = false ->
     is_string (prop json "type") "unsubscribe" = false ->
     _validateMessage rt msg w = (inr (ValidationError "Invalid message type"), w)) /\
  (msg <> EmptyString -> JSON_parse msg = Some json -> json <> JNull ->
     is_string (prop json "type") "subscribe" || is_string (prop json "type") "unsubscribe" = true ->
     is_string (prop json "target") "heatpump" = false ->
     _validateMessage rt msg w = (inr (ValidationError "Invalid subscription target"), w)).
Proof.
  split; [reflexivity|].
  repeat split; intros Hmsg Hp; unfold _validateMessage; rewrite Hp;
    (destruct (String.eqb_spec msg EmptyString); [contradiction|]).
  - reflexivity.
  - intros Hj H1 H2. destruct json; try contradiction; unfold get_prop; mrun;
      rewrite ?H1, ?H2; reflexivity.
  - intros Hj H1 H2. destruct json; try contradiction; unfold get_prop; mrun;
      destruct (is_string _ "subscribe"), (is_string _ "unsubscribe");
      try discriminate H1; cbn [negb andb]; rewrite ?H2; reflexivity.
Qed.

(** X4: for a message with a valid type and target, a [list] that is an
    array replaces the registry by its elements, in their order, and
    [null] leaves the registry alone; validation returns the parsed
    message in both cases. *)
Theorem list_replaces_registry msg json w :
  msg <> EmptyString -> JSON_parse msg = Some json -> accepted json = true ->
  (forall items, prop json "list" = Some (JArr items) ->
     let w' := snd (_validateMessage rt msg w) in
     fst (_validateMessage rt msg w) = inl json /\ sensors w' = items /\
     old_sensors_list w' = old_sensors_list w /\
     handlers w' = handlers w /\ timers w' = timers w) /\
  (prop json "list" = Some JNull -> _validateMessage rt msg w = (inl json, w)).
Proof.
  intros Hmsg Hp Hacc. rewrite (validate_accepted rt msg json w Hmsg Hp Hacc).
  split; [intros items ->|intros ->; reflexivity]. cbn [fst snd].
  destruct (replaced_all items w) as (Hs & _ & _ & Ho & Hh & Ht & _). auto.
Qed.

(** X6: [stop()] does not reset [#timeout].  After [stop()] on a subscribed
    handler no poll timer is pending, and [_onSubscribe] still finds the
    handler subscribed: a subscribe message arms nothing. *)
Theorem subscribe_after_stop_is_ignored h id w :
  reachable rt w -> has_handler h w -> h_timeout (handlers w !!! h) = Some id ->
  let w1 := snd (stop h w) in
  poll_timers h w1 = [] /\ _onSubscribe h w1 = (inl tt, w1).
Proof.
  intros Hreach Hh Hid w1. destruct (reachable_inv rt w Hreach) as (_ & Hp & _).
  destruct (stop_cancels_poll h w Hp Hh) as [Hhs Hnone].
  split; [exact Hnone|]. apply (_onSubscribe_subscribed h w1 id).
  unfold w1, lookup_total, map_lookup_total in *. now rewrite Hhs.
Qed.

(** X7: in every reachable state a handler has at most one poll timer
    pending, and it is the one [#timeout] holds. *)
Theorem one_poll_timer_per_handler h w :
  reachable rt w ->
  length (poll_timers h w) <= 1 /\
  forall t, In t (poll_timers h w) -> h_timeout (handlers w !!! h) = Some (tid t).
Proof.
  intros Hreach. destruct (reachable_inv rt w Hreach) as (Ht & Hp & _).
  split; [now apply poll_timers_le1|]. intros t Hin.
  pose proof (poll_timers_handle h w t Hp Hin) as H.
  unfold lookup_total, map_lookup_total.
  destruct (handlers w !! h); cbn in *; [congruence|discriminate].
Qed.

(** X8: between two callbacks every [#buffer] is empty: [_sendList] hands
    all it buffered to [_send] before it returns. *)
Theorem buffer_empty_between_callbacks h hd w :
  reachable rt w -> handlers w !! h = Some hd -> h_buffer hd = [].
Proof. intros Hreach. destruct (reachable_inv rt w Hreach) as (_ & _ & Hb & _). apply Hb. Qed.

(** X9: the process ends only through fault simulation.  While no handler
    has [failures] set and a positive [timeToLive], no closure of
    [_scheduleDeath] is ever armed, no callback throws, and the process keeps
    running. *)
Theorem process_runs_without_fault_simulation w :
  reachable rt w ->
  (forall h hd, handlers w !! h = Some hd -> ~ fault_simulation (h_config hd)) ->
  process w = Running /\ Forall (fun t => is_fault (cb t) = false) (timers w).
Proof.
  intros Hreach Hnone. destruct (reachable_sound w Hreach) as [Hf Hp]. split.
  - destruct (process w); [reflexivity|..];
      (destruct Hp as (h & hd & Hhd & Hfs); [discriminate|]; now destruct (Hnone h hd Hhd)).
  - eapply Forall_impl; [exact Hf|]. cbn. intros t Ht.
    destruct (is_fault (cb t)); [|reflexivity].
    destruct (Ht eq_refl) as (hd & Hhd & Hfs). now destruct (Hnone _ hd Hhd).
Qed.

(** X10: [#config] and [#name] are what the constructor was given: whatever
    happens afterwards, the handler is still there, and its [name] and its
    configuration are the same. *)
Theorem handler_keeps_config_and_name h hd w es :
  handlers w !! h = Some hd ->
  exists hd', handlers (run rt w es) !! h = Some hd' /\
              h_config hd' = h_config hd /\ h_name hd' = h_name hd.
Proof.
  intros Hhd.
  assert (H : configured h (h_config hd) (h_name hd) w) by (exists hd; auto).
  clear Hhd. revert w H. induction es as [|e es IH]; intros w H; [exact H|].
  cbn. apply IH. now apply step_configured.
Qed.

(** ** What leaves the registry alone *)

Lemma keeps_sensors_send l h msg : keeps (fun w => sensors w = l) (_send rt h msg).
Proof. unfold _send, _someMillis. keeps_auto assumption. Qed.

Lemma keeps_sensors_stop l h : keeps (fun w => sensors w = l) (stop h).
Proof. unfold stop. keeps_auto assumption. Qed.

Lemma keeps_sensors_start l h : keeps (fun w => sensors w = l) (start rt h).
Proof. unfold start, _scheduleDeath. keeps_auto assumption. Qed.

Lemma keeps_sensors_poll l h : keeps (fun w => sensors w = l) (poll_callback rt h).
Proof. unfold poll_callback, _sendList, _send, _someMillis. keeps_auto assumption. Qed.

Lemma keeps_sensors_die l h : keeps (fun w => sensors w = l) (die_callback h).
Proof. unfold die_callback, stop. keeps_auto assumption. Qed.

Lemma top_level_sensors m w : sensors (top_level m w) = sensors (snd (m w)).
Proof. unfold top_level. now destruct (m w) as [[[]|e] w']. Qed.

(** X11: the registry changes only through a message, through the
    back-channel and through the corruption closure.  [start()], [stop()],
    the poll closure, a retry of [_send] and the death closure read it at
    most. *)
Theorem registry_read_only w e :
  match e with
  | OnMessage _ _ | Backchannel _ | AddSensor _ => False
  | Fire => forall t, earliest (timers w) = Some t -> forall h, cb t <> Corrupt h
  | _ => True
  end ->
  sensors (step rt w e) = sensors w.
Proof.
  intros He. unfold step. destruct (process w); [|reflexivity..].
  destruct e as [h c name|h|h msg|h| |ms|l|v]; try contradiction; try reflexivity.
  - now destruct (handlers w !! h).
  - case_decide; [|reflexivity]. rewrite top_level_sensors. now apply keeps_sensors_start.
  - case_decide; [|reflexivity]. rewrite top_level_sensors. now apply keeps_sensors_stop.
  - unfold fire. destruct (earliest (timers w)) as [t|]; [|reflexivity].
    specialize (He t eq_refl). rewrite top_level_sensors. mrun.
    destruct (cb t) as [h|h msg|h|h]; cbn [run_callback].
    + now apply keeps_sensors_poll.
    + now apply keeps_sensors_send.
    + now destruct (He h).
    + now apply keeps_sensors_die.
Qed.

End Lasting.

(** ** The delays of the fault simulation *)

Section Exact.
Local Open Scope Q_scope.

(** Rounding does not cross an integer below 2^53. *)
Lemma fl_lower x a m :
  (0 <= a)%Z -> inject_Z a <= x -> x <= inject_Z m -> (m < 2 ^ 53)%Z -> inject_Z a <= fl x.
Proof.
  intros Ha Hax Hm Hlt.
  assert (H0 : 0 <= x).
  { apply Qle_trans with (inject_Z a); [|exact Hax]. change 0 with (inject_Z 0).
    now rewrite <- Zle_Qle. }
  unfold fl. destruct (Qcompare x 0) eqn:C.
  - apply Qeq_alt in C. rewrite C in Hax. exact Hax.
  - apply Qlt_alt in C. exfalso. now apply (Qlt_not_le _ _ C).
  - apply Qgt_alt in C. unfold fl_pos.
    set (e := Z.max (ilog2 x - 52) (-1074)).
    assert (He : (e <= 0)%Z).
    { destruct (Z.le_gt_cases (ilog2 x) 52) as [|Hbig]; [unfold e; lia|]. exfalso.
      pose proof (ilog2_spec x C) as Hs. unfold pow2 in Hs.
      destruct (Z.leb_spec 0 (ilog2 x)); [|lia].
      assert (Hle : inject_Z (2 ^ ilog2 x) <= inject_Z m) by (eapply Qle_trans; eassumption).
      rewrite <- Zle_Qle in Hle.
      assert ((2 ^ 53 <= 2 ^ ilog2 x)%Z) by (apply Z.pow_le_mono_r; lia). lia. }
    clearbody e. pose proof (pow2_pos e) as Hp.
    assert (Hk : inject_Z a / pow2 e == inject_Z (a * 2 ^ (- e))).
    { rewrite (pow2_nonpos e He). rewrite inject_Z_mult. field.
      intros Hz. assert (Hp2 : (0 < 2 ^ (- e))%Z) by (apply Z.pow_pos_nonneg; lia).
      unfold Qeq in Hz. cbn in Hz. lia. }
    assert (Hr : (a * 2 ^ (- e) <= rne (x / pow2 e))%Z).
    { rewrite <- (rne_int (a * 2 ^ (- e))). apply rne_mono. rewrite <- Hk.
      apply Qmult_le_compat_r; [exact Hax|]. apply Qinv_le_0_compat. now apply Qlt_le_weak. }
    apply Qle_trans with (inject_Z (a * 2 ^ (- e)) * pow2 e).
    + rewrite <- Hk. apply Qle_lteq. right. field. intros Hz. rewrite Hz in Hp.
      now apply (Qlt_irrefl 0).
    + apply Qmult_le_compat_r; [now rewrite <- Zle_Qle|now apply Qlt_le_weak].
Qed.

(** The product of two integers is exact while it is below 2^53. *)
Lemma times_exact a b : (0 <= a * b < 2 ^ 53)%Z -> times a b = (a * b)%Z.
Proof.
  intros [H0 H1]. unfold times. rewrite <- inject_Z_mult.
  assert (Hx : inject_Z (a * b) <= inject_Z (a * b)) by apply Qle_refl.
  assert (Hz : 0 <= inject_Z (a * b)) by (change 0 with (inject_Z 0); now rewrite <- Zle_Qle).
  pose proof (fl_lower _ (a * b) (a * b) H0 Hx Hx H1) as Hl.
  destruct (fl_bounds _ (a * b) Hz Hx H1) as [_ Hu].
  assert (E : fl (inject_Z (a * b)) == inject_Z (a * b)) by now apply Qle_antisym.
  rewrite E. apply Qfloor_Z.
Qed.

End Exact.

Section Death.
Variable rt : runtime.

(** X12: The seconds [_scheduleDeath] draws lie between 5 and [timeToLive + 5]
    and are the integer nearest to the rounded sum; the corruption closure
    is armed with 5000 times and the death closure with 15000 times that
    many milliseconds, in this order, and [#death] holds the second. *)
Theorem scheduleDeath_delays h w :
  random_in_range rt -> has_handler h w ->
  let ttl := timeToLive (config_of w h) in
  (0 < ttl < 2 ^ 39)%Z ->
  let x := fl (fl (next_draw rt w * inject_Z ttl) + 5) in
  let secs := toFixed0 x in
  let w' := snd (_scheduleDeath rt h w) in
  (5 <= secs <= ttl + 5)%Z /\
  (inject_Z secs - (1 # 2) <= x)%Q /\ (x < inject_Z secs + (1 # 2))%Q /\
  timers w' = timers w ++
    [{| tid := next_tid w; due := clock w + effective_delay (secs * 5000);
        delay := secs * 5000; cb := Corrupt h |};
     {| tid := S (next_tid w); due := clock w + effective_delay (secs * 15000);
        delay := secs * 15000; cb := Die h |}] /\
  h_death (handlers w' !!! h) = Some (S (next_tid w)) /\
  draws w' = S (draws w).
Proof.
  intros Hrt Hh ttl Httl x secs w'.
  destruct (Hrt (draws w)) as [Hr0 Hr1]. fold (next_draw rt w) in Hr0, Hr1.
  assert (Ht0 : (0 <= inject_Z ttl)%Q) by (change 0%Q with (inject_Z 0); rewrite <- Zle_Qle; lia).
  assert (Hp0 : (0 <= next_draw rt w * inject_Z ttl)%Q) by now apply Qmult_le_0_compat.
  assert (Hp1 : (next_draw rt w * inject_Z ttl <= inject_Z ttl)%Q).
  { rewrite <- (Qmult_1_l (inject_Z ttl)) at 2.
    apply Qmult_le_compat_r; [now apply Qlt_le_weak|assumption]. }
  assert (Hbig : (2 ^ 39 = 549755813888)%Z) by reflexivity.
  assert (Hbig2 : (2 ^ 53 = 9007199254740992)%Z) by reflexivity.
  destruct (fl_bounds _ ttl Hp0 Hp1) as [Hf0 Hf1]; [lia|].
  set (y := fl (next_draw rt w * inject_Z ttl)) in *.
  assert (H5 : (inject_Z 5 <= y + 5)%Q) by (change (inject_Z 5) with 5%Q; lra).
  assert (Hs1 : (y + 5 <= inject_Z (ttl + 5))%Q).
  { rewrite inject_Z_plus. change (inject_Z 5) with 5%Q. lra. }
  assert (Hx5 : (inject_Z 5 <= x)%Q) by (apply (fl_lower _ 5 (ttl + 5)); [lia|assumption..|lia]).
  assert (Hs0 : (0 <= y + 5)%Q) by lra.
  destruct (fl_bounds _ (ttl + 5) Hs0 Hs1) as [_ Hx1]; [lia|]. fold x in Hx1.
  assert (Hx0 : (0 <= x)%Q) by (change (inject_Z 5) with 5%Q in Hx5; lra).
  destruct (toFixed0_nearest x Hx0) as [Hn1 Hn2]. fold secs in Hn1, Hn2.
  assert (Hsecs : (5 <= secs <= ttl + 5)%Z).
  { split.
    - apply Z.lt_pred_le. rewrite Zlt_Qlt. change (inject_Z (Z.pred 5)) with 4%Q.
      change (inject_Z 5) with 5%Q in Hx5. lra.
    - apply Z.lt_succ_r. rewrite Zlt_Qlt. unfold Z.succ. rewrite inject_Z_plus.
      change (inject_Z 1) with 1%Q. lra. }
  split; [exact Hsecs|]. split; [exact Hn1|]. split; [exact Hn2|].
  unfold w'. rewrite _scheduleDeath_eq. cbn [snd]. cbv zeta.
  change (drawn_secs rt w h) with secs.
  rewrite !times_exact by lia.
  split; [|split].
  - cbn. rewrite <- app_assoc. reflexivity.
  - cbn. unfold lookup_total, map_lookup_total. rewrite lookup_alter_eq.
    destruct Hh as [hd Hhd]. rewrite Hhd. reflexivity.
  - reflexivity.
Qed.

End Death.

(** ** [stop()] *)

Section Stop.
Variable rt : runtime.

(** X5: [stop()] cancels the poll timer and the timer [#death] holds, leaves
    the handlers as they are, [#timeout] and [#death] included, and a
    second [stop()] changes nothing. *)
Theorem stop_releases_held_timers h w :
  reachable rt w -> has_handler h w ->
  let w' := snd (stop h w) in
  fst (stop h w) = inl tt /\
  handlers w' = handlers w /\ sensors w' = sensors w /\
  poll_timers h w' = [] /\
  (forall id, holds (handlers w !!! h) id -> Forall (fun t => tid t <> id) (timers w')) /\
  (forall t, In t (timers w) -> ~ holds (handlers w !!! h) (tid t) -> In t (timers w')) /\
  snd (stop h w') = w'.
Proof.
  intros Hreach Hh w'. destruct (reachable_inv rt w Hreach) as (_ & Hp & _).
  destruct (stop_cancels_held_timers h w Hp Hh) as (Hhs & Hpoll & Hheld).
  split; [apply stop_returns|]. split; [exact Hhs|].
  split; [now apply (keeps_sensors_stop (sensors w) h w)|].
  split; [exact Hpoll|]. split; [exact Hheld|]. split; [|apply stop_idempotent].
  intros t Hin Hnot. unfold w'. rewrite stop_eq. cbn [snd]. cbv zeta.
  assert (Hkeep : forall id w0, In t (timers w0) -> tid t <> id -> In t (timers (disarm id w0))).
  { intros id w0 Hi Hne. cbn. apply filter_In. split; [exact Hi|].
    now apply negb_true_iff, Nat.eqb_neq. }
  destruct (h_timeout (handlers w !!! h)) as [i|] eqn:Ei,
           (h_death (handlers w !!! h)) as [j|] eqn:Ej;
    repeat apply Hkeep; try assumption; intros E; apply Hnot; unfold holds; rewrite E; auto.
Qed.

End Stop.

(** ** The arrays and the messages that hold them *)





Section Refs.
Variable rt : runtime.








End Refs.


Section Deferred.
Variable rt : runtime.


End Deferred.

(** ** Instances *)

Lemma reachable_run rt es w : Forall allowed es -> reachable rt w -> reachable rt (run rt w es).
Proof.
  intros H. revert w. induction H as [|e es He _ IH]; intros w Hw; [exact Hw|].
  cbn. apply IH. now apply reachable_step.
Qed.

Lemma reachable_subscribed :
  reachable rt_half (run rt_half init [New 1 quiet "client"; OnMessage 1 subscribe_null]).
Proof. apply reachable_run; [repeat constructor|apply reachable_init]. Qed.

Lemma reachable_polled :
  reachable rt_half (run rt_half init [New 1 quiet "client"; OnMessage 1 subscribe_null; Fire]).
Proof. apply reachable_run; [repeat constructor|apply reachable_init]. Qed.

Lemma rt_sixteenth_in_range : random_in_range rt_sixteenth.
Proof. intros [|i]; split; first [discriminate|reflexivity]. Qed.

(** X2, an instance: a message whose type is missing. *)
Lemma rejected_message_witness :
  let text := JSON_stringify (JObj [("target", JStr "heatpump")]) in
  onMessage rt_half 1 text init = _send rt_half 1 (ErrorMsg "Invalid message type") init.
Proof.
  intros text.
  assert (Hval : _validateMessage rt_half text init =
                 (inr (ValidationError "Invalid message type"), init))
    by (vm_compute; reflexivity).
  exact (proj2 (rejected_message_changes_nothing rt_half 1 text init _ init Hval)).
Defined.

(** X4, an instance: a subscribe message whose list holds one record. *)
Lemma list_replaces_registry_witness :
  sensors (snd (_validateMessage rt_half (subscribe_with [heatpump1_failed]) init))
  = [heatpump1_failed].
Proof.
  set (json := JObj [("type", JStr "subscribe"); ("target", JStr "heatpump");
                     ("list", JArr [heatpump1_failed])]).
  assert (Hmsg : subscribe_with [heatpump1_failed] <> EmptyString) by (vm_compute; discriminate).
  assert (Hp : JSON_parse (subscribe_with [heatpump1_failed]) = Some json)
    by (vm_compute; reflexivity).
  assert (Hacc : accepted json = true) by reflexivity.
  exact (proj1 (proj2 (proj1 (list_replaces_registry rt_half _ json init Hmsg Hp Hacc)
                         [heatpump1_failed] eq_refl))).
Defined.

(** X5, an instance: [stop()] on a subscribed handler with its poll timer
    pending. *)
Lemma stop_releases_witness :
  let w := run rt_half init [New 1 quiet "client"; OnMessage 1 subscribe_null] in
  let w' := snd (stop 1 w) in
  length (poll_timers 1 w) = 1 /\ poll_timers 1 w' = [] /\ snd (stop 1 w') = w'.
Proof.
  intros w w'. split; [reflexivity|].
  assert (Hh : has_handler 1 w) by (vm_compute; eexists; reflexivity).
  destruct (stop_releases_held_timers rt_half 1 w reachable_subscribed Hh)
    as (_ & _ & _ & Hpoll & _ & _ & Hagain).
  split; [exact Hpoll|exact Hagain].
Defined.

(** X6, an instance: subscribe, [stop()], subscribe again. *)
Lemma subscribe_after_stop_witness :
  let w := run rt_half init [New 1 quiet "client"; OnMessage 1 subscribe_null] in
  _onSubscribe 1 (snd (stop 1 w)) = (inl tt, snd (stop 1 w)).
Proof.
  intros w.
  assert (Hh : has_handler 1 w) by (vm_compute; eexists; reflexivity).
  assert (Hid : h_timeout (handlers w !!! 1) = Some 0) by (vm_compute; reflexivity).
  exact (proj2 (subscribe_after_stop_is_ignored rt_half 1 0 w reachable_subscribed Hh Hid)).
Defined.

(** X7, an instance: a subscribed handler after its first poll tick. *)
Lemma one_poll_timer_witness :
  length (poll_timers 1 (run rt_half init [New 1 quiet "client"; OnMessage 1 subscribe_null; Fire]))
  <= 1.
Proof. exact (proj1 (one_poll_timer_per_handler rt_half 1 _ reachable_polled)). Defined.

(** X8, an instance: a subscribed handler after its first poll tick. *)
Lemma buffer_empty_witness :
  let w := run rt_half init [New 1 quiet "client"; OnMessage 1 subscribe_null; Fire] in
  h_buffer (handlers w !!! 1) = [].
Proof.
  intros w.
  assert (Hhd : handlers w !! 1 = Some (handlers w !!! 1)) by (vm_compute; reflexivity).
  exact (buffer_empty_between_callbacks rt_half 1 (handlers w !!! 1) w reachable_polled Hhd).
Defined.

(** X9, an instance: one handler without fault simulation, subscribed, after
    its first poll tick. *)
Lemma process_runs_witness :
  process (run rt_half init [New 1 quiet "client"; OnMessage 1 subscribe_null; Fire]) = Running.
Proof.
  set (w := run rt_half init [New 1 quiet "client"; OnMessage 1 subscribe_null; Fire]).
  refine (proj1 (process_runs_without_fault_simulation rt_half w reachable_polled _)).
  assert (E : handlers w = {[1 := handlers w !!! 1]}) by (vm_compute; reflexivity).
  intros h hd Hhd [Hf _]. rewrite E in Hhd.
  apply lookup_singleton_Some in Hhd as [_ <-]. vm_compute in Hf. discriminate Hf.
Defined.

(** X10, an instance: a handler is subscribed to and polls once. *)
Lemma handler_keeps_witness :
  let w := run rt_half init [New 1 quiet "client"] in
  exists hd', handlers (run rt_half w [OnMessage 1 subscribe_null; Fire]) !! 1 = Some hd' /\
              h_config hd' = quiet /\ h_name hd' = "client".
Proof.
  intros w.
  assert (Hhd : handlers w !! 1 = Some (constructor quiet "client")) by (vm_compute; reflexivity).
  exact (handler_keeps_config_and_name rt_half 1 (constructor quiet "client") w
           [OnMessage 1 subscribe_null; Fire] Hhd).
Defined.

(** X11, an instance: the first poll tick of a subscribed handler. *)
Lemma registry_read_only_witness :
  let w := run rt_half init [New 1 quiet "client"; OnMessage 1 subscribe_null] in
  sensors (step rt_half w Fire) = sensors w.
Proof.
  intros w. apply (registry_read_only rt_half w Fire).
  intros t Ht h. vm_compute in Ht. injection Ht as <-. discriminate.
Defined.

(** X12, an instance: the delays a handler with a [timeToLive] of 10 seconds is
    started with, at a draw of one sixteenth (0.625 + 5 seconds, rounded to
    6). *)
Lemma scheduleDeath_delays_witness :
  let w := run rt_sixteenth init [New 1 faulty "client"] in
  map (fun t => (cb t, delay t)) (timers (snd (_scheduleDeath rt_sixteenth 1 w)))
  = [(Corrupt 1, 30000%Z); (Die 1, 90000%Z)].
Proof.
  intros w.
  assert (Hh : has_handler 1 w) by (vm_compute; eexists; reflexivity).
  assert (Httl : (0 < timeToLive (config_of w 1) < 2 ^ 39)%Z) by (vm_compute; split; reflexivity).
  destruct (scheduleDeath_delays rt_sixteenth 1 w rt_sixteenth_in_range Hh Httl)
    as (_ & _ & _ & Ht & _).
  rewrite Ht. vm_compute. reflexivity.
Defined.

(** X14, an instance: the first poll tick of a subscribed handler finds the
    registry different from the empty last snapshot and sends it. *)
Lemma poll_tick_witness :
  let w := run rt_half init [New 1 quiet "client"; OnMessage 1 subscribe_null] in
  let w' := snd (poll_callback rt_half 1 w) in
  ws_sent (h_ws (handlers w' !!! 1)) = [sensors_list_text (toISO rt_half 0) [heatpump1]] /\
  old_sensors_list w' = JArr [heatpump1].
Proof.
  intros w w'.
  destruct (reachable_inv rt_half w reachable_subscribed) as (_ & _ & _ & Hr).
  assert (Hh : has_handler 1 w) by (vm_compute; eexists; reflexivity).
  assert (Hb : h_buffer (handlers w !!! 1) = []) by (vm_compute; reflexivity).
  destruct (poll_tick_change_detection rt_half 1 w Hr Hh Hb) as (_ & _ & Hdiff).
  assert (Hne : old_sensors_list w <> JArr (sensors w)) by (vm_compute; discriminate).
  destruct (Hdiff Hne) as (_ & Hold & Hsent).
  split; [exact (proj1 (Hsent eq_refl))|exact Hold].
Defined.

(** X15, an instance: the first subscribe message of a handler. *)
Lemma subscribe_validated_witness :
  let w := run rt_half init [New 1 quiet "client"] in
  timers (snd (onMessage rt_half 1 subscribe_null w))
  = [{| tid := 0; due := 1; delay := 0; cb := PollTick 1 |}].
Proof.
  intros w.
  assert (Hreach : reachable rt_half w)
    by (apply reachable_run; [repeat constructor|apply reachable_init]).
  assert (Hh : has_handler 1 w) by (vm_compute; eexists; reflexivity).
  assert (Hval : _validateMessage rt_half subscribe_null w
                 = (inl (JObj [("type", JStr "subscribe"); ("target", JStr "heatpump");
                               ("list", JNull)]), w)) by (vm_compute; reflexivity).
  destruct (subscribe_validated rt_half 1 subscribe_null _ w w Hreach Hh Hval eq_refl)
    as (_ & _ & _ & _ & _ & Hidle).
  assert (Hnone : h_timeout (handlers w !!! 1) = None) by (vm_compute; reflexivity).
  exact (proj1 (proj2 (Hidle Hnone))).
Defined.

(** X16, an instance: a subscribed handler is sent an unsubscribe message. *)
Lemma unsubscribe_validated_witness :
  let w := run rt_half init [New 1 quiet "client"; OnMessage 1 subscribe_null] in
  let w' := snd (onMessage rt_half 1 unsubscribe_null w) in
  poll_timers 1 w' = [] /\ ws_sent (h_ws (handlers w' !!! 1)) = [ack_text].
Proof.
  intros w w'.
  assert (Hh : has_handler 1 w) by (vm_compute; eexists; reflexivity).
  assert (Hval : _validateMessage rt_half unsubscribe_null w
                 = (inl (JObj [("type", JStr "unsubscribe"); ("target", JStr "heatpump");
                               ("list", JNull)]), w)) by (vm_compute; reflexivity).
  destruct (unsubscribe_validated rt_half 1 unsubscribe_null _ w w reachable_subscribed Hh Hval eq_refl)
    as (_ & _ & _ & _ & Hsub & _).
  assert (Hid : h_timeout (handlers w !!! 1) = Some 0) by (vm_compute; reflexivity).
  destruct (Hsub 0 Hid) as (_ & Hpoll & _ & _ & Hsent).
  split; [exact Hpoll|exact (Hsent eq_refl)].
Defined.

